(** * DENSITY: benchmark orchestrator and workload generator

    A shallow embedding of the Go sources of [densityctl]:

    - package [bench] (internal/bench): [Run], [startHogs], [stopHogs],
      [countAlive], [estimateSavedMiB];
    - package [main] (cmd/densityctl): [parseScale], and [cmdHog] with its
      checks and its dirty-page selection; the contents of its buffer
      ([applyDirty], module [HogMem]) and [cmdBench] (module [Cli]);
    - package [ksm] (internal/ksm): [Enable], [Disable], [Status],
      [ReadInt], [WriteInt], [ReadMemInfo] (module [Ksm]);
    - the reading of /proc in package [bench]: [readKsmdTicks],
      [findPIDByComm], [parseProcStatUtimeStime] (module [ProcStat]), and
      [memMiB] (module [Report]).

    Go's [int], [int64] and [time.Duration] are 64-bit two's complement
    integers, modelled as [Z] with the wrap-around written out; [uint64] is
    [Z] modulo [2^64]; [float64] is IEEE-754 binary64, modelled by the
    executable specification [SpecFloat] of the Standard Library; Go maps
    are [gmap]s, a nil map is [None]. *)

From Stdlib Require Import ZArith Bool List Ascii Lia.
From Stdlib Require Import Floats.SpecFloat.
From stdpp Require Import base option list gmap strings.

Local Open Scope Z_scope.

(* ===================================================================== *)
(** ** Machine integers *)
(* ===================================================================== *)

Module GoInt.

Definition two63 : Z := 2 ^ 63.
Definition two64 : Z := 2 ^ 64.

Definition minInt64 : Z := - two63.
Definition maxInt64 : Z := two63 - 1.
(** [math.MaxInt32] *)
Definition MaxInt32 : Z := 2 ^ 31 - 1.

(** Result of a signed 64-bit operation whose exact value is [z]. *)
Definition wrap64 (z : Z) : Z := (z + two63) mod two64 - two63.

(** Conversion to [uint64], and the result of an unsigned operation. *)
Definition wrapU64 (z : Z) : Z := z mod two64.

Definition inInt64 (z : Z) : Prop := minInt64 <= z <= maxInt64.

Definition inInt64b (z : Z) : bool := (minInt64 <=? z) && (z <=? maxInt64).

End GoInt.

(* ===================================================================== *)
(** ** float64 *)
(* ===================================================================== *)

Module F64.

Definition prec : Z := 53.
Definition emax : Z := 1024.

Definition float64 : Type := spec_float.

(** [float64(z)] for an integer [z]: round to nearest, ties to even. *)
Definition ofZ (z : Z) : float64 := binary_normalize prec emax z 0 false.

Definition mul : float64 -> float64 -> float64 := SFmul prec emax.
Definition div : float64 -> float64 -> float64 := SFdiv prec emax.
Definition ltb : float64 -> float64 -> bool := SFltb.

Definition zero : float64 := S754_zero false.

(** [int(f)]: the fraction is discarded (truncation towards zero).  For a
    value that does not fit, a NaN included, Go leaves the result to the
    implementation; amd64 yields the minimal integer. *)
Definition toInt (f : float64) : Z :=
  match f with
  | S754_zero _ => 0
  | S754_finite s m e =>
      let a := if 0 <=? e then Z.pos m * 2 ^ e else Z.pos m / 2 ^ (- e) in
      let v := if s then - a else a in
      if GoInt.inInt64b v then v else GoInt.minInt64
  | S754_infinity _ | S754_nan => GoInt.minInt64
  end.

(** The sign bit is clear, or the value is a NaN. *)
Definition signClear (f : float64) : bool :=
  match f with
  | S754_zero s | S754_infinity s | S754_finite s _ _ => negb s
  | S754_nan => true
  end.

End F64.

(* ===================================================================== *)
(** ** Results and errors *)
(* ===================================================================== *)

(** A Go function returning [(T, error)] on paths where exactly one of the
    two is meaningful. *)
Inductive result (E A : Type) : Type :=
  | Ok (a : A)
  | Err (e : E).
Arguments Ok {E A} a.
Arguments Err {E A} e.

(* ===================================================================== *)
(** ** The parts of [strings] and [strconv] used by the command line

    Strings are byte strings; the model covers ASCII input (the white
    space of [strings.TrimSpace] is the ASCII white space). *)
(* ===================================================================== *)

Module Strings.

Definition isSpace (c : ascii) : bool :=
  let n := Ascii.nat_of_ascii c in
  ((9 <=? n)%nat && (n <=? 13)%nat) || (n =? 32)%nat.

Fixpoint trimLeft (s : string) : string :=
  match s with
  | String c r => if isSpace c then trimLeft r else s
  | EmptyString => EmptyString
  end.

(** Drops the trailing white space; [None] when [s] is white space only. *)
Fixpoint trimRight (s : string) : option string :=
  match s with
  | EmptyString => None
  | String c r =>
      match trimRight r with
      | Some r' => Some (String c r')
      | None => if isSpace c then None else Some (String c EmptyString)
      end
  end.

(** [strings.TrimSpace] *)
Definition TrimSpace (s : string) : string :=
  default EmptyString (trimRight (trimLeft s)).

(** [strings.Split(s, sep)] for a non-empty [sep]: the pieces between
    the occurrences of [sep], found left to right without overlap.
    [skip] counts the bytes of a separator still to be passed over. *)
Fixpoint splitFrom (sep : string) (skip : nat) (s : string) : list string :=
  match s with
  | EmptyString => [EmptyString]
  | String c r =>
      match skip with
      | S k => splitFrom sep k r
      | O =>
          if String.prefix sep s
          then EmptyString :: splitFrom sep (String.length sep - 1) r
          else match splitFrom sep 0 r with
               | p :: ps => String c p :: ps
               | [] => [String c EmptyString]
               end
      end
  end.

Definition Split (s sep : string) : list string := splitFrom sep 0 s.

End Strings.

Module Strconv.

Definition digitVal (c : ascii) : option Z :=
  let n := Ascii.nat_of_ascii c in
  if (48 <=? n)%nat && (n <=? 57)%nat then Some (Z.of_nat n - 48) else None.

Fixpoint parseDigits (acc : Z) (s : string) : option Z :=
  match s with
  | EmptyString => Some acc
  | String c r =>
      match digitVal c with
      | Some d => parseDigits (acc * 10 + d) r
      | None => None
      end
  end.

(** [strconv.Atoi] on a 64-bit platform: an optional sign and at least
    one decimal digit; [None] is a syntax or a range error. *)
Definition Atoi (s : string) : option Z :=
  match s with
  | EmptyString => None
  | String c r =>
      let neg := Ascii.eqb c "-"%char in
      let body := if neg || Ascii.eqb c "+"%char then r else s in
      match body with
      | EmptyString => None
      | _ =>
          match parseDigits 0 body with
          | Some n =>
              let v := if neg then - n else n in
              if GoInt.inInt64b v then Some v else None
          | None => None
          end
      end
  end.

End Strconv.

(* ===================================================================== *)
(** ** Package main: [parseScale] and the workload process [cmdHog] *)
(* ===================================================================== *)

Module Main.

Import GoInt.

Inductive ScaleError :=
  | ErrFormat      (* ungueltiges scale-Format *)
  | ErrAtoi        (* error of strconv.Atoi *)
  | ErrStep        (* step muss > 0 sein *)
  | ErrBounds.     (* ungueltige Grenzen *)

(** [for i := min; i <= max; i += step { out = append(out, i) }].
    The loop has no bound of its own: [None] is a loop that has not
    ended after [fuel] iterations. *)
Fixpoint scaleLoop (fuel : nat) (i max step : Z) : option (list Z) :=
  if i <=? max then
    match fuel with
    | O => None
    | S k =>
        match scaleLoop k (wrap64 (i + step)) max step with
        | Some out => Some (i :: out)
        | None => None
        end
    end
  else Some [].

(** The end of [parseScale]: the check of the bounds, and the loop. *)
Definition scaleRange (fuel : nat) (min max step : Z)
  : option (result ScaleError (list Z)) :=
  if (min <=? 0) || (max <=? 0) || (max <? min) then Some (Err ErrBounds)
  else match scaleLoop fuel min max step with
       | Some out => Some (Ok out)
       | None => None
       end.

(** [parseScale] parses "min..max" or "min..max..step". *)
Definition parseScale (fuel : nat) (s : string)
  : option (result ScaleError (list Z)) :=
  let parts := Strings.Split s ".." in
  match parts with
  | [p0; p1] | [p0; p1; _] =>
      match Strconv.Atoi (Strings.TrimSpace p0) with
      | None => Some (Err ErrAtoi)
      | Some min =>
          match Strconv.Atoi (Strings.TrimSpace p1) with
          | None => Some (Err ErrAtoi)
          | Some max =>
              match parts with
              | [_; _; p2] =>
                  match Strconv.Atoi (Strings.TrimSpace p2) with
                  | None => Some (Err ErrAtoi)
                  | Some step =>
                      if step <=? 0 then Some (Err ErrStep)
                      else scaleRange fuel min max step
                  end
              | _ => scaleRange fuel min max 1
              end
          end
      end
  | _ => Some (Err ErrFormat)
  end.

(** *** The workload process *)

(** The flags of [__hog] after [fs.Parse]. *)
Record HogFlags := {
  memMiB : Z;
  id : Z;
  dirtyPct : F64.float64;
  redirtyMs : Z
}.

Inductive HogError :=
  | ErrMemMiB      (* mem-mib muss > 0 sein *)
  | ErrDirtyPct    (* dirty-pct muss 0..100 sein *)
  | ErrTooBig.     (* mem-mib ist zu gross fuer dieses MVP *)

(** What the process holds once its memory is set up: the length of
    [buf] and the page indices it made individual. *)
Record HogImage := {
  bufLen : Z;
  totalPages : Z;
  dirtyPages : Z;
  indices : list Z
}.

Inductive HogOutcome :=
  | HogRejected (e : HogError)   (* returned before [make] *)
  | HogPanic                     (* run-time panic of [make] *)
  | HogServing (img : HogImage). (* memory allocated, waiting for a signal *)

(** [size := int64(memMiB) * 1024 * 1024] *)
Definition hogSize (m : Z) : Z := wrap64 (wrap64 (m * 1024) * 1024).

(** [int(float64(totalPages) * (dirtyPct / 100.0))] *)
Definition dirtyCount (total : Z) (pct : F64.float64) : Z :=
  F64.toInt (F64.mul (F64.ofZ total) (F64.div pct (F64.ofZ 100))).

(** [(uint64(id)*1315423911 + uint64(j)*2654435761) % uint64(totalPages)] *)
Definition dirtyIndex (id j total : Z) : Z :=
  wrapU64 (wrapU64 (wrapU64 id * 1315423911)
           + wrapU64 (wrapU64 j * 2654435761))
  mod wrapU64 total.

(** [for j := 0; j < dirtyPages; j++ { indices = append(indices, idx) }] *)
Definition dirtyIndices (id total dirty : Z) : list Z :=
  map (fun j => dirtyIndex id j total) (seqZ 0 dirty).

Section Hog.
(** [os.Getpagesize()] *)
Variable pageSize : Z.

(** [cmdHog] up to the point where it waits for its stop signal. *)
Definition cmdHog (f : HogFlags) : HogOutcome :=
  if memMiB f <=? 0 then HogRejected ErrMemMiB
  else if F64.ltb (dirtyPct f) (F64.ofZ 0) || F64.ltb (F64.ofZ 100) (dirtyPct f)
  then HogRejected ErrDirtyPct
  else
    let size := hogSize (memMiB f) in
    if MaxInt32 <? size then HogRejected ErrTooBig
    else if size <? 0 then HogPanic          (* make([]byte, int(size)) *)
    else
      let total := Z.quot size pageSize in
      let dirty := dirtyCount total (dirtyPct f) in
      if dirty <? 0 then HogPanic            (* make([]int, 0, dirtyPages) *)
      else
        HogServing {| bufLen := size;
                      totalPages := total;
                      dirtyPages := dirty;
                      indices := if 0 <? dirty
                                 then dirtyIndices (id f) total dirty
                                 else [] |}.
End Hog.

End Main.

(* ===================================================================== *)
(** ** The operating system as the orchestrator sees it

    The workloads are child processes.  What the orchestrator can observe
    of a child is whether a signal is accepted, and what it can do is to
    signal it and to wait for it.  A child that has ended stays a zombie,
    and keeps accepting signals, until [Wait] has reaped it; [os.Process]
    answers "process already finished" afterwards.  Time passes in
    [time.Sleep] and in the warmup only.  The launches that fail, the
    workloads that ignore SIGTERM, the time at which the context is done
    and every file that is read or written come from an environment that
    the run does not control.  That [exec.CommandContext] kills the child
    itself once the context is done is left out: the run reaps the same
    children either way. *)
(* ===================================================================== *)

Module OS.

(** A child process is running, has ended without having been waited for
    (a zombie), or has been reaped by [Wait]. *)
Inductive Status := Running | Ended | Reaped.

#[global] Instance Status_eq_dec : EqDecision Status.
Proof. solve_decision. Defined.

Record Proc := {
  status : Status;
  obeysTerm : bool;          (* does SIGTERM end it? *)
  args : Main.HogFlags       (* the command line it was started with *)
}.

Definition setStatus (s : Status) (p : Proc) : Proc :=
  {| status := s; obeysTerm := obeysTerm p; args := args p |}.

Inductive Signal := SIGTERM | SIGKILL | Signal0.

(** The process table (a pid is an index into it), the clock in
    nanoseconds, and the number of [Start] calls made so far. *)
Record World := {
  procs : list Proc;
  clock : Z;
  starts : nat
}.

Definition setProcs (ps : list Proc) (w : World) : World :=
  {| procs := ps; clock := clock w; starts := starts w |}.

Definition setClock (t : Z) (w : World) : World :=
  {| procs := procs w; clock := t; starts := starts w |}.

(** Computations on the world; [None] is a call that never returns. *)
Definition M (A : Type) : Type := World -> option (A * World).

Definition ret {A} (a : A) : M A := fun w => Some (a, w).

Definition bind {A B} (m : M A) (k : A -> M B) : M B :=
  fun w => match m w with
           | Some (a, w') => k a w'
           | None => None
           end.

(** What a signal does to a process that has not been reaped. *)
Definition deliver (sig : Signal) (p : Proc) : Proc :=
  match status p, sig with
  | Running, SIGKILL => setStatus Ended p
  | Running, SIGTERM => if obeysTerm p then setStatus Ended p else p
  | _, _ => p
  end.

(** [os.Process.Signal]: [true] is a nil error.  A process that was
    waited for answers "process already finished"; a zombie still
    accepts signals. *)
Definition procSignal (pid : nat) (sig : Signal) : M bool :=
  fun w =>
    match procs w !! pid with
    | Some p =>
        match status p with
        | Reaped => Some (false, w)
        | _ => Some (true, setProcs (<[pid := deliver sig p]> (procs w)) w)
        end
    | None => Some (false, w)
    end.

(** [os.Process.Kill] *)
Definition procKill (pid : nat) : M bool := procSignal pid SIGKILL.

(** [os.Process.Wait] blocks until the process has ended, and reaps
    it.  A workload never ends by itself, so waiting for a running one
    does not return. *)
Definition procWait (pid : nat) : M bool :=
  fun w =>
    match procs w !! pid with
    | Some p =>
        match status p with
        | Reaped => Some (false, w)
        | Ended => Some (true, setProcs (<[pid := setStatus Reaped p]> (procs w)) w)
        | Running => None
        end
    | None => Some (false, w)
    end.

(** [time.Now()] and [time.Sleep(d)] *)
Definition timeNow : M Z := fun w => Some (clock w, w).
Definition timeSleep (d : Z) : M unit :=
  fun w => Some (tt, setClock (clock w + d) w).

Inductive LaunchOutcome :=
  | LaunchFails (msg : string)
  | Launches (obeys : bool).

(** Everything the run reads from outside. *)
Record Env := {
  envPageSize : Z;                                  (* os.Getpagesize() *)
  envLaunch : nat -> LaunchOutcome;                 (* k-th call of Start *)
  envCancelAt : option Z;                           (* when ctx is done *)
  envReadMemInfo : Z -> option (gmap string Z);     (* ksm.ReadMemInfo *)
  envStatus : string -> Z -> option (gmap string Z);(* ksm.Status *)
  envKsmdTicks : Z -> Z;                            (* readKsmdTicks *)
  envMkdirAll : string -> bool;                     (* os.MkdirAll *)
  envWriteJSON : Z -> bool                          (* writeJSON *)
}.

End OS.

Declare Scope os_scope.
Delimit Scope os_scope with os.
Notation "'let*' x ':=' m 'in' k" := (OS.bind m (fun x => k))
  (at level 10, x name, m at level 100, k at level 200) : os_scope.
Notation "m ';;' k" := (OS.bind m (fun _ => k))
  (at level 100, k at level 200, right associativity) : os_scope.

(* ===================================================================== *)
(** ** Package bench *)
(* ===================================================================== *)

Module Bench.

Import GoInt OS.
Local Open Scope os_scope.

(** [type Profile string] *)
Definition Profile : Type := string.
Definition ProfileP1 : Profile := "P1"%string. (* identisch *)
Definition ProfileP2 : Profile := "P2"%string. (* aehnlich *)
Definition ProfileP3 : Profile := "P3"%string. (* worst case (divergent) *)

(** [time.Duration], in nanoseconds *)
Definition Duration : Type := Z.
Definition Millisecond : Duration := 1000000.
Definition Second : Duration := 1000 * Millisecond.

(** [Duration.Milliseconds] *)
Definition Milliseconds (d : Duration) : Z := Z.quot d Millisecond.

Record Config := {
  ExecPath : string;
  OutDir : string;
  KSMPath : string;
  cfgProfile : Profile;
  Instances : list Z;
  MemMiB : Z;
  Warmup : Duration;
  Interval : Duration          (* redirty interval for P3; optional *)
}.

Record StepResult := {
  N : Z;
  Alive : Z;
  stepDuration : Duration;
  stepProfile : Profile;
  stepMemMiB : Z;
  stepWarmup : Duration;
  PreMemKB : option (gmap string Z);
  PostMemKB : option (gmap string Z);
  PreKSM : option (gmap string Z);
  PostKSM : option (gmap string Z);
  EstimatedSavedMiB : F64.float64;
  KsmdTicksDelta : Z;
  Notes : string
}.

Record RunResult := {
  StartedAt : Z;
  resProfile : Profile;
  Steps : list StepResult
}.

Inductive error :=
  | errorsNew (msg : string)   (* errors.New *)
  | ctxErr                     (* ctx.Err() *)
  | osErr (msg : string).      (* an error of package os or os/exec *)

(** [err.Error()] *)
Definition errorText (e : error) : string :=
  match e with
  | errorsNew msg | osErr msg => msg
  | ctxErr => "context canceled"%string
  end.

(** [*exec.Cmd]: [Process] is set by a successful [Start];
    [ProcessState] is set by [Cmd.Wait] only, [Some b] holding the answer
    of [Exited()]. *)
Record Cmd := {
  Process : option nat;
  ProcessState : option bool
}.

(** A slice of [*exec.Cmd]; [None] is a nil pointer. *)
Definition Cmds : Type := list (option Cmd).

(** A Go map read: the zero value for an absent key. *)
Definition mapGet (m : gmap string Z) (k : string) : Z := default 0 (m !! k).

(** The switch at the head of [startHogs]: Profile -> dirty behavior. *)
Definition profileParams (p : Profile) (interval : Duration)
  : F64.float64 * Duration :=
  if String.eqb p ProfileP1 then (F64.ofZ 0, 0)
  else if String.eqb p ProfileP2 then (F64.ofZ 5, 0)
  else if String.eqb p ProfileP3 then
    (F64.ofZ 50, if 0 <? interval then interval else 1 * Second)
  else (F64.ofZ 0, 0).

(** The first loop of [stopHogs]: SIGTERM to every started command. *)
Fixpoint termAll (cmds : Cmds) : M unit :=
  match cmds with
  | [] => ret tt
  | c :: rest =>
      match c with
      | Some {| Process := Some pid |} => procSignal pid SIGTERM ;; termAll rest
      | _ => termAll rest
      end
  end.

(** The inner loop of the polling: is any command still answering
    signal 0? *)
Fixpoint probeAll (cmds : Cmds) (allDone : bool) : M bool :=
  match cmds with
  | [] => ret allDone
  | c :: rest =>
      match c with
      | None => probeAll rest allDone
      | Some cmd =>
          match ProcessState cmd with
          | Some true => probeAll rest allDone
          | _ =>
              match Process cmd with
              | Some pid =>
                  let* ok := procSignal pid Signal0 in
                  probeAll rest (if ok then false else allDone)
              | None => probeAll rest allDone
              end
          end
      end
  end.

(** [for time.Now().Before(deadline) { ... time.Sleep(100ms) }] *)
Fixpoint pollLoop (fuel : nat) (deadline : Z) (cmds : Cmds) : M unit :=
  let* now := timeNow in
  if now <? deadline then
    match fuel with
    | O => fun _ => None
    | S k =>
        let* allDone := probeAll cmds true in
        if allDone then ret tt
        else timeSleep (100 * Millisecond) ;; pollLoop k deadline cmds
    end
  else ret tt.

(** The last loop of [stopHogs]: Kill and Wait, for every started
    command. *)
Fixpoint killAll (cmds : Cmds) : M unit :=
  match cmds with
  | [] => ret tt
  | c :: rest =>
      match c with
      | Some {| Process := Some pid |} =>
          procKill pid ;; procWait pid ;; killAll rest
      | _ => killAll rest
      end
  end.

(** The polling sleeps 100ms at a time until 5s have passed. *)
Definition pollFuel : nat := Z.to_nat (5 * Second / (100 * Millisecond)).

Definition stopHogs (cmds : Cmds) : M (option error) :=
  termAll cmds ;;
  let* now := timeNow in
  let deadline := now + 5 * Second in
  pollLoop pollFuel deadline cmds ;;
  killAll cmds ;;
  ret None.

Fixpoint countAliveFrom (cmds : Cmds) (alive : Z) : M Z :=
  match cmds with
  | [] => ret alive
  | c :: rest =>
      match c with
      | Some {| Process := Some pid |} =>
          let* ok := procSignal pid Signal0 in
          countAliveFrom rest (if ok then alive + 1 else alive)
      | _ => countAliveFrom rest alive
      end
  end.

Definition countAlive (cmds : Cmds) : M Z := countAliveFrom cmds 0.

Definition estimateSavedMiB (pageSize : Z) (ksmStats : option (gmap string Z))
  : F64.float64 :=
  match ksmStats with
  | None => F64.zero
  | Some stats =>
      let ps := pageSize in
      let shared := mapGet stats "pages_shared" in
      let sharing := mapGet stats "pages_sharing" in
      if (shared <=? 0) || (sharing <=? 0) || (sharing <? shared)
      then F64.zero
      else
        let savedPages := wrap64 (sharing - shared) in
        let savedBytes := F64.mul (F64.ofZ savedPages) (F64.ofZ ps) in
        F64.div savedBytes (F64.mul (F64.ofZ 1024) (F64.ofZ 1024))
  end.

Section WithEnv.

Variable env : Env.

(** [ctx.Done()] is closed. *)
Definition ctxDone (w : World) : bool :=
  match envCancelAt env with
  | Some t => t <=? clock w
  | None => false
  end.

(** [exec.CommandContext(ctx, ...).Start()] *)
Definition cmdStart (a : Main.HogFlags) : M (result error Cmd) :=
  fun w =>
    let w1 := {| procs := procs w; clock := clock w; starts := S (starts w) |} in
    if ctxDone w then Some (Err ctxErr, w1)
    else
      match envLaunch env (starts w) with
      | LaunchFails msg => Some (Err (osErr msg), w1)
      | Launches obeys =>
          let p := {| status := Running; obeysTerm := obeys; args := a |} in
          Some (Ok {| Process := Some (length (procs w)); ProcessState := None |},
                setProcs (procs w ++ [p]) w1)
      end.

(** [for i := 0; i < n; i++ { ... }] of [startHogs], with [k]
    iterations to go.  The flags are handed over as values: the dirty
    fraction is one of 0, 5 and 50, which "%.2f" prints and the workload
    parses back without loss. *)
Fixpoint startLoop (cfg : Config) (dirtyPct : F64.float64) (redirty : Duration)
    (k : nat) (i : Z) (cmds : Cmds) : M (result error Cmds) :=
  match k with
  | O => ret (Ok cmds)
  | S k' =>
      let* r := cmdStart {| Main.memMiB := MemMiB cfg;
                            Main.id := i;
                            Main.dirtyPct := dirtyPct;
                            Main.redirtyMs := Milliseconds redirty |} in
      match r with
      | Err e =>
          (* Stop already started ones *)
          stopHogs cmds ;; ret (Err e)
      | Ok cmd => startLoop cfg dirtyPct redirty k' (i + 1) (cmds ++ [Some cmd])
      end
  end.

Definition startHogs (cfg : Config) (n : Z) : M (result error Cmds) :=
  let '(dirtyPct, redirty) := profileParams (cfgProfile cfg) (Interval cfg) in
  startLoop cfg dirtyPct redirty (Z.to_nat n) 0 [].

(** [select { case <-ctx.Done(): ... case <-time.After(d): }];
    [true] when the context was done first. *)
Definition awaitWarmup (d : Duration) : M bool :=
  fun w =>
    match envCancelAt env with
    | Some t =>
        if t <=? clock w + d
        then Some (true, setClock (Z.max (clock w) t) w)
        else Some (false, setClock (clock w + d) w)
    | None => Some (false, setClock (clock w + d) w)
    end.

Definition appendStep (res : RunResult) (step : StepResult) : RunResult :=
  {| StartedAt := StartedAt res;
     resProfile := resProfile res;
     Steps := Steps res ++ [step] |}.

(** The body of the loop of [Run] for a positive [n].  The second
    component is [Some err] when [Run] returns from inside the loop. *)
Definition runStep (cfg : Config) (n : Z) (res : RunResult)
  : M (RunResult * option error) :=
  let* t0 := timeNow in
  let preMem := envReadMemInfo env t0 in
  let preK := envStatus env (KSMPath cfg) t0 in
  let ksmdBefore := envKsmdTicks env t0 in
  let step (alive : Z) (dur : Duration) postMem postK saved delta notes :=
    {| N := n; Alive := alive; stepDuration := dur;
       stepProfile := cfgProfile cfg; stepMemMiB := MemMiB cfg;
       stepWarmup := Warmup cfg;
       PreMemKB := preMem; PostMemKB := postMem;
       PreKSM := preK; PostKSM := postK;
       EstimatedSavedMiB := saved; KsmdTicksDelta := delta;
       Notes := notes |} in
  let* started := startHogs cfg n in
  match started with
  | Err err =>
      ret (appendStep res
             (step 0 0 None None F64.zero 0
                (String.append "Startfehler: " (errorText err))), None)
  | Ok cmds =>
      let* cancelled := awaitWarmup (Warmup cfg) in
      if cancelled : bool then
        stopHogs cmds ;; ret (res, Some ctxErr)
      else
        let* alive := countAlive cmds in
        let* t1 := timeNow in
        let postMem := envReadMemInfo env t1 in
        let postK := envStatus env (KSMPath cfg) t1 in
        let ksmdAfter := envKsmdTicks env t1 in
        let delta :=
          if (0 <? ksmdBefore) && (0 <? ksmdAfter) && (ksmdBefore <=? ksmdAfter)
          then wrap64 (ksmdAfter - ksmdBefore) else 0 in
        let saved := estimateSavedMiB (envPageSize env) postK in
        (* Cleanup *)
        stopHogs cmds ;;
        ret (appendStep res
               (step alive (Warmup cfg) postMem postK saved delta ""%string),
             None)
  end.

(** [for _, n := range cfg.Instances { ... }] *)
Fixpoint runLoop (cfg : Config) (ns : list Z) (res : RunResult)
  : M (RunResult * option error) :=
  match ns with
  | [] => ret (res, None)
  | n :: rest =>
      if n <=? 0 then runLoop cfg rest res
      else
        let* r := runStep cfg n res in
        match r with
        | (res', Some err) => ret (res', Some err)
        | (res', None) => runLoop cfg rest res'
        end
  end.

(** The defaults [Run] fills in. *)
Definition withDefaults (cfg : Config) : Config :=
  {| ExecPath := ExecPath cfg;
     OutDir := if String.eqb (OutDir cfg) "" then "results"%string else OutDir cfg;
     KSMPath := if String.eqb (KSMPath cfg) "" then "/sys/kernel/mm/ksm"%string
                else KSMPath cfg;
     cfgProfile := if String.eqb (cfgProfile cfg) "" then ProfileP1
                   else cfgProfile cfg;
Instances := Instances cfg;
MemMiB := if MemMiB cfg <=? 0 then 256 else MemMiB cfg;
Warmup := if Warmup cfg <=? 0 then 20 * Second else Warmup cfg;
Interval := Interval cfg |}.

Definition Run (cfg0 : Config) : M (option RunResult * option error) :=
  if String.eqb (ExecPath cfg0) "" then
    ret (None, Some (errorsNew "ExecPath fehlt (Pfad zum densityctl binary)"))
  else
    let cfg := withDefaults cfg0 in
    match Instances cfg with
    | [] => ret (None, Some (errorsNew "Instances ist leer"))
    | _ =>
        if negb (envMkdirAll env (OutDir cfg)) then
          ret (None, Some (osErr "mkdir"))
        else
          let* started := timeNow in
          let res := {| StartedAt := started;
                        resProfile := cfgProfile cfg;
                        Steps := [] |} in
          let* r := runLoop cfg (Instances cfg) res in
          match r with
          | (res', Some err) => ret (Some res', Some err)
          | (res', None) =>
              (* Write JSON *)
              let* t := timeNow in
              if negb (envWriteJSON env t) then
                ret (Some res', Some (osErr "write"))
              else
                (* Write Markdown summary: its error is dropped *)
                ret (Some res', None)
          end
    end.

End WithEnv.

End Bench.

(* ===================================================================== *)
(** ** Vocabulary of the statements *)
(* ===================================================================== *)

Module FloatValue.

(** [m * 2^k] for [k >= 0]. *)
Definition shl (m : positive) (k : Z) : positive :=
  match k with Zpos p => Pos.iter xO m p | _ => m end.

(** The float64 of a positive integer below 2^53: its bits, shifted to
    the left end of the mantissa. *)
Definition normal (a : positive) : F64.float64 :=
  S754_finite false (shl a (53 - Zpos (Pos.size a))) (Zpos (Pos.size a) - 53).

(** [f] is the positive finite float64 whose value is [num / 2^k],
    exactly: with the mantissa [m] and the exponent [e <= 0] of [f],
    [m * 2^e = num / 2^k]. *)
Definition exactly (f : F64.float64) (num k : Z) : Prop :=
  ∃ m e, f = S754_finite false m e ∧ e <= 0
         ∧ Z.pos m * 2 ^ k = num * 2 ^ (- e).

End FloatValue.

Module Facts.

Import GoInt OS Bench.

(** The pids a slice of commands refers to. *)
Definition pidsOf (cmds : Cmds) : list nat :=
  omap (fun c : option Cmd => c ≫= Process) cmds.

(** Does the process still answer a signal? *)
Definition answers (pid : nat) (ps : list Proc) : bool :=
  match ps !! pid with
  | Some p => bool_decide (status p ≠ Reaped)
  | None => false
  end.

(** [Signal], as it acts on the process table. *)
Definition sendTo (sig : Signal) (pid : nat) (ps : list Proc) : list Proc :=
  match ps !! pid with
  | Some p => if answers pid ps then <[pid := deliver sig p]> ps else ps
  | None => ps
  end.

(** The first loop of [stopHogs], as it acts on the process table. *)
Definition termTable (pids : list nat) (ps : list Proc) : list Proc :=
  foldl (fun acc pid => sendTo SIGTERM pid acc) ps pids.

(** Kill and Wait for every pid, as they act on the process table. *)
Definition reapAll (pids : list nat) (ps : list Proc) : list Proc :=
  foldl (fun acc pid => alter (setStatus Reaped) pid acc) ps pids.

(** The answer of one round of the polling. *)
Fixpoint allQuiet (cmds : Cmds) (ps : list Proc) : bool :=
  match cmds with
  | [] => true
  | c :: rest =>
      match c with
      | Some {| Process := Some pid; ProcessState := st |} =>
          match st with
          | Some true => allQuiet rest ps
          | _ => negb (answers pid ps) && allQuiet rest ps
          end
      | _ => allQuiet rest ps
      end
  end.

(** The world [stopHogs] leaves behind. *)
Definition stopWorld (cmds : Cmds) (w : World) : World :=
  {| procs := reapAll (pidsOf cmds) (procs w);
     clock := if allQuiet cmds (termTable (pidsOf cmds) (procs w))
              then clock w else clock w + 5 * Second;
     starts := starts w |}.

(** The answer of [countAlive]. *)
Fixpoint aliveCount (cmds : Cmds) (ps : list Proc) : Z :=
  match cmds with
  | [] => 0
  | c :: rest =>
      match c with
      | Some {| Process := Some pid |} =>
          (if answers pid ps then 1 else 0) + aliveCount rest ps
      | _ => aliveCount rest ps
      end
  end.

(** No command of [cmds] answers a signal any more: each of its processes
    has been reaped. *)
Definition settled (cmds : Cmds) (ps : list Proc) : Prop :=
  Forall (fun pid => answers pid ps = false) (pidsOf cmds).

Definition isReaped (p : Proc) : Prop := status p = Reaped.

(** A counter as [estimateSavedMiB] reads it: the zero value for a nil map
    and for an absent key. *)
Definition counter (ksmStats : option (gmap string Z)) (k : string) : Z :=
  from_option (fun m => mapGet m k) 0 ksmStats.

Section WithEnv.

Variable env : Env.

(** Does the call of [Start] with oracle index [n] succeed in [w]? *)
Definition startOk (w : World) (n : nat) : bool :=
  negb (ctxDone env w) &&
  match envLaunch env n with Launches _ => true | LaunchFails _ => false end.

(** The error of a failing [Start]. *)
Definition startErr (w : World) (n : nat) : error :=
  if ctxDone env w then ctxErr
  else match envLaunch env n with
       | LaunchFails msg => osErr msg
       | Launches _ => osErr EmptyString
       end.

(** The dirty fraction and the redirty interval of a configuration. *)
Definition dirtyOf (cfg : Config) : F64.float64 :=
  fst (profileParams (cfgProfile cfg) (Interval cfg)).
Definition redirtyOf (cfg : Config) : Duration :=
  snd (profileParams (cfgProfile cfg) (Interval cfg)).

(** The command line of workload [i]. *)
Definition hogArgs (cfg : Config) (i : Z) : Main.HogFlags :=
  {| Main.memMiB := MemMiB cfg;
     Main.id := i;
     Main.dirtyPct := dirtyOf cfg;
     Main.redirtyMs := Milliseconds (redirtyOf cfg) |}.

(** The process that the [Start] with oracle index [n] creates. *)
Definition newProc (cfg : Config) (n : nat) (i : Z) : Proc :=
  {| status := Running;
     obeysTerm := match envLaunch env n with Launches b => b | _ => false end;
     args := hogArgs cfg i |}.

(** The processes [k] successful calls of [Start] create, the first with
    oracle index [n] for workload [i]. *)
Fixpoint spawned (cfg : Config) (n : nat) (i : Z) (k : nat) : list Proc :=
  match k with
  | O => []
  | S k' => newProc cfg n i :: spawned cfg (S n) (i + 1) k'
  end.

(** How many of the next [k] calls of [Start] succeed before one fails. *)
Fixpoint launched (w : World) (n : nat) (k : nat) : nat :=
  match k with
  | O => O
  | S k' => if startOk w n then S (launched w (S n) k') else O
  end.

(** The world after [k] successful calls of [Start] and [extra] failed
    ones, before any teardown. *)
Definition launchWorld (cfg : Config) (w : World) (i : Z) (k extra : nat) : World :=
  {| procs := procs w ++ spawned cfg (starts w) i k;
     clock := clock w;
     starts := starts w + k + extra |}.

(** Is the context done before the warmup that starts in [w] is over? *)
Definition cancelsWarmup (cfg : Config) (w : World) : bool :=
  match envCancelAt env with
  | Some t => t <=? clock w + Warmup cfg
  | None => false
  end.

(** The time at which the [select] of the warmup returns. *)
Definition warmupEnd (cfg : Config) (w : World) : Z :=
  match envCancelAt env with
  | Some t => if t <=? clock w + Warmup cfg then Z.max (clock w) t
              else clock w + Warmup cfg
  | None => clock w + Warmup cfg
  end.

(** The step [Run] records when the spawn fails with [err]. *)
Definition failedStep (cfg : Config) (n : Z) (w : World) (err : error) : StepResult :=
  {| N := n; Alive := 0; stepDuration := 0;
     stepProfile := cfgProfile cfg; stepMemMiB := MemMiB cfg;
     stepWarmup := Warmup cfg;
     PreMemKB := envReadMemInfo env (clock w); PostMemKB := None;
     PreKSM := envStatus env (KSMPath cfg) (clock w); PostKSM := None;
     EstimatedSavedMiB := F64.zero; KsmdTicksDelta := 0;
     Notes := String.append "Startfehler: " (errorText err) |}.

(** The step [Run] records after a warmup that ended at [t1] with [alive]
    workloads still answering. *)
Definition measuredStep (cfg : Config) (n : Z) (w : World) (alive t1 : Z) : StepResult :=
  let ksmdBefore := envKsmdTicks env (clock w) in
  let ksmdAfter := envKsmdTicks env t1 in
  {| N := n; Alive := alive; stepDuration := Warmup cfg;
     stepProfile := cfgProfile cfg; stepMemMiB := MemMiB cfg;
     stepWarmup := Warmup cfg;
     PreMemKB := envReadMemInfo env (clock w);
     PostMemKB := envReadMemInfo env t1;
     PreKSM := envStatus env (KSMPath cfg) (clock w);
     PostKSM := envStatus env (KSMPath cfg) t1;
     EstimatedSavedMiB :=
       estimateSavedMiB (envPageSize env) (envStatus env (KSMPath cfg) t1);
     KsmdTicksDelta :=
       if (0 <? ksmdBefore) && (0 <? ksmdAfter) && (ksmdBefore <=? ksmdAfter)
       then wrap64 (ksmdAfter - ksmdBefore) else 0;
     Notes := EmptyString |}.

End WithEnv.

(** The handles of [k] processes, the first with pid [base]. *)
Fixpoint handles (base k : nat) : Cmds :=
  match k with
  | O => []
  | S k' => Some {| Process := Some base; ProcessState := None |}
            :: handles (S base) k'
  end.

(** What one iteration of the loop of [Run] returns for a positive [n],
    and the world it leaves. *)
Definition stepOutcome (env : Env) (cfg : Config) (n : Z) (res : RunResult) (w : World)
  : (RunResult * option error) * World :=
  let k := Z.to_nat n in
  let m := launched env w (starts w) k in
  let hs := handles (length (procs w)) m in
  if decide (m = k) then
    let w2 := setClock (warmupEnd env cfg w) (launchWorld env cfg w 0 k 0) in
    if cancelsWarmup env cfg w then ((res, Some ctxErr), stopWorld hs w2)
    else ((appendStep res
             (measuredStep env cfg n w (aliveCount hs (procs w2)) (clock w2)),
           None),
          stopWorld hs w2)
  else ((appendStep res (failedStep env cfg n w (startErr env w (starts w + m))),
         None),
        stopWorld hs (launchWorld env cfg w 0 m 1)).

(** What the loop of [Run] returns, and the world it leaves. *)
Fixpoint loopOutcome (env : Env) (cfg : Config) (ns : list Z) (res : RunResult)
    (w : World) : (RunResult * option error) * World :=
  match ns with
  | [] => ((res, None), w)
  | n :: rest =>
      if n <=? 0 then loopOutcome env cfg rest res w
      else match stepOutcome env cfg n res w with
           | ((res', Some err), w') => ((res', Some err), w')
           | ((res', None), w') => loopOutcome env cfg rest res' w'
           end
  end.

Definition isPositive (n : Z) : bool := 0 <? n.

(** [min, min + step, ...]: the [count] first values of a scale. *)
Definition scaleValues (min step : Z) (count : nat) : list Z :=
  (fun k : nat => min + Z.of_nat k * step) <$> seq 0 count.

(** The number of values of a scale from [min] to [max]. *)
Definition scaleCount (min max step : Z) : nat :=
  Z.to_nat ((max - min) / step + 1).

(** The result [Run] starts its loop with. *)
Definition startResult (cfg : Config) (w : World) : RunResult :=
  {| StartedAt := clock w; resProfile := cfgProfile cfg; Steps := [] |}.

(** The error [Run] returns after a loop that ended with [err]. *)
Definition finalError (env : Env) (err : option error) (w : World) : option error :=
  match err with
  | Some e => Some e
  | None => if envWriteJSON env (clock w) then None else Some (osErr "write")
  end.

End Facts.

(* ===================================================================== *)
(** ** Concrete scenarios *)
(* ===================================================================== *)

Module Scenario.

Import OS Bench.

(** An environment in which the [Start] with index [failAt] fails, every
    second workload ignores SIGTERM, and the context is done at [cancel]. *)
Definition demoEnv (failAt : nat) (cancel : option Z) : Env :=
  {| envPageSize := 4096;
     envLaunch := fun k => if (k =? failAt)%nat then LaunchFails "fork/exec"
                           else Launches (Nat.even k);
     envCancelAt := cancel;
     envReadMemInfo := fun _ => None;
     envStatus := fun _ _ =>
       Some {[ "pages_shared"%string := 10; "pages_sharing"%string := 1000 ]};
     envKsmdTicks := fun t => t;
     envMkdirAll := fun _ => true;
     envWriteJSON := fun _ => true |}.

(** An environment in which nothing fails and nothing is cancelled. *)
Definition calmEnv : Env := demoEnv 1000 None.

Definition idleWorld : World := {| procs := []; clock := 0; starts := 0 |}.

Definition demoConfig (exe : string) (ns : list Z) : Config :=
  {| ExecPath := exe; OutDir := EmptyString; KSMPath := EmptyString;
     cfgProfile := ProfileP1; Instances := ns;
     MemMiB := 64; Warmup := 0; Interval := 0 |}.

(** The context is done 30 seconds after the start of the run. *)
Definition cancelEnv : Env := demoEnv 1000 (Some (30 * Second)).

(** The context is done 5 seconds after the start of the run. *)
Definition earlyCancelEnv : Env := demoEnv 1000 (Some (5 * Second)).

Definition twoSteps : Config := demoConfig "densityctl" [1; 2].

(** Where the run of [twoSteps] under [cancelEnv] stands after its first
    step. *)
Definition afterFirstStep : (RunResult * option error) * World :=
  Facts.loopOutcome cancelEnv (withDefaults twoSteps) [1]
    (Facts.startResult (withDefaults twoSteps) idleWorld) idleWorld.

(** Statistics with 990 pages saved. *)
Definition demoStats : option (gmap string Z) :=
  Some {[ "pages_shared"%string := 10; "pages_sharing"%string := 1000 ]}.

End Scenario.

(* ===================================================================== *)
(** ** More of [strings] and [strconv]: what the ksm package, the reading
    of /proc and the command line use besides *)
(* ===================================================================== *)

Module Text.

Import GoInt.

(** The decimal digit [d], for [0 <= d < 10]. *)
Definition digitChar (d : Z) : ascii := Ascii.ascii_of_nat (48 + Z.to_nat d).

(** The digits of [n >= 0], the most significant first, put before
    [acc]. *)
Fixpoint formatDigits (fuel : nat) (n : Z) (acc : string) : string :=
  match fuel with
  | O => acc
  | S k =>
      let acc' := String (digitChar (n mod 10)) acc in
      if n <? 10 then acc' else formatDigits k (n / 10) acc'
  end.

(** [strconv.FormatInt(v, 10)] and [strconv.Itoa(v)]: an int64 has at
    most 19 digits. *)
Definition FormatInt (v : Z) : string :=
  if v <? 0 then String "-"%char (formatDigits 19 (- v) EmptyString)
  else formatDigits 19 v EmptyString.

Definition Itoa : Z -> string := FormatInt.

(** [strconv.ParseInt(s, 10, 64)] *)
Definition ParseInt : string -> option Z := Strconv.Atoi.

(** [strconv.ParseUint(s, 10, 64)]: digits only, no sign. *)
Definition ParseUint (s : string) : option Z :=
  match s with
  | EmptyString => None
  | _ =>
      match Strconv.parseDigits 0 s with
      | Some n => if n <? two64 then Some n else None
      | None => None
      end
  end.

(** The word that [s] starts with, and the fields after it. *)
Fixpoint fieldsFrom (s : string) : string * list string :=
  match s with
  | EmptyString => (EmptyString, [])
  | String c r =>
      let '(w, fs) := fieldsFrom r in
      if Strings.isSpace c
      then (EmptyString, match w with EmptyString => fs | _ => w :: fs end)
      else (String c w, fs)
  end.

(** [strings.Fields]: the maximal runs of bytes that are not white
    space. *)
Definition Fields (s : string) : list string :=
  let '(w, fs) := fieldsFrom s in
  match w with EmptyString => fs | _ => w :: fs end.

(** [strings.LastIndex(s, string(c))]; [None] is -1. *)
Fixpoint LastIndex (s : string) (c : ascii) : option nat :=
  match s with
  | EmptyString => None
  | String a r =>
      match LastIndex r c with
      | Some i => Some (S i)
      | None => if Ascii.eqb a c then Some O else None
      end
  end.

(** [s[n:]], for [n <= len(s)] *)
Fixpoint sliceFrom (n : nat) (s : string) : string :=
  match n, s with
  | S k, String _ r => sliceFrom k r
  | _, _ => s
  end.

(** [strings.TrimSuffix(s, string(c))] *)
Fixpoint TrimSuffix (s : string) (c : ascii) : string :=
  match s with
  | EmptyString => EmptyString
  | String a EmptyString => if Ascii.eqb a c then EmptyString else s
  | String a r => String a (TrimSuffix r c)
  end.

(** [strings.ToUpper], on ASCII *)
Definition upper (c : ascii) : ascii :=
  let n := Ascii.nat_of_ascii c in
  if (97 <=? n)%nat && (n <=? 122)%nat then Ascii.ascii_of_nat (n - 32) else c.

Fixpoint ToUpper (s : string) : string :=
  match s with
  | EmptyString => EmptyString
  | String c r => String (upper c) (ToUpper r)
  end.

(** Every byte of [s] satisfies [P]. *)
Fixpoint allChars (P : ascii -> bool) (s : string) : bool :=
  match s with
  | EmptyString => true
  | String c r => P c && allChars P r
  end.

Definition isDigit (c : ascii) : bool :=
  let n := Ascii.nat_of_ascii c in (48 <=? n)%nat && (n <=? 57)%nat.

(** A byte of a printed integer: a digit or the sign. *)
Definition isNumeric (c : ascii) : bool := isDigit c || Ascii.eqb c "-"%char.

(** A byte other than the one the separator of a scale is made of. *)
Definition notDot (c : ascii) : bool := negb (Ascii.eqb c "."%char).

(** A byte of a decimal number with an optional sign. *)
Definition isSigned (c : ascii) : bool :=
  isDigit c || Ascii.eqb c "-"%char || Ascii.eqb c "+"%char.

End Text.

(* ===================================================================== *)
(** ** Vocabulary of the statements about whole runs *)
(* ===================================================================== *)

Module Outcome.

Import GoInt OS Bench Facts.

(** The record of a step whose workloads ran through the warmup. *)
Definition measured (cfg : Config) (s : StepResult) : Prop :=
  Notes s = EmptyString ∧ stepDuration s = Warmup cfg.

(** The record of a step whose spawn failed with [e]. *)
Definition failed (e : error) (s : StepResult) : Prop :=
  Notes s = String.append "Startfehler: " (errorText e)
  ∧ Alive s = 0 ∧ stepDuration s = 0
  ∧ PostMemKB s = None ∧ PostKSM s = None
  ∧ EstimatedSavedMiB s = F64.zero ∧ KsmdTicksDelta s = 0.

(** What holds of every step that [Run] records under [cfg]. *)
Definition wellFormed (cfg : Config) (s : StepResult) : Prop :=
  0 < N s
  ∧ 0 <= Alive s <= N s
  ∧ stepProfile s = cfgProfile cfg
  ∧ stepMemMiB s = MemMiB cfg
  ∧ stepWarmup s = Warmup cfg
  ∧ 0 <= KsmdTicksDelta s
  ∧ (measured cfg s ∨ ∃ e, failed e s).

(** The checks at the head of [Run] fail. *)
Definition invalid (env : Env) (cfg0 : Config) : Prop :=
  ExecPath cfg0 = EmptyString ∨ Instances cfg0 = []
  ∨ envMkdirAll env (OutDir (withDefaults cfg0)) = false.

(** The number of steps a list of counts asks for. *)
Definition stepCount (ns : list Z) : Z :=
  Z.of_nat (length (List.filter isPositive ns)).

(** Every launch succeeds. *)
Definition launchesAll (env : Env) : Prop :=
  ∀ k, ∃ obeys, envLaunch env k = Launches obeys.

End Outcome.

(* ===================================================================== *)
(** ** Further scenarios *)
(* ===================================================================== *)

Module Cases.

Import OS Bench.

(** One workload that was started and is running. *)
Definition oneRunning : World :=
  {| procs := [ {| status := Running; obeysTerm := true;
                   args := {| Main.memMiB := 64; Main.id := 0;
                              Main.dirtyPct := F64.ofZ 0;
                              Main.redirtyMs := 0 |} |} ];
     clock := 0; starts := 1 |}.

(** An environment in which nothing fails, and [ksmd] has used 7 ticks
    by the time [t] (in seconds). *)
Definition steadyEnv (cancel : option Z) : Env :=
  {| envPageSize := 4096;
     envLaunch := fun k => Launches (Nat.even k);
     envCancelAt := cancel;
     envReadMemInfo := fun _ => None;
     envStatus := fun _ _ =>
       Some {[ "pages_shared"%string := 10; "pages_sharing"%string := 1000 ]};
     envKsmdTicks := fun t => 7;
     envMkdirAll := fun _ => true;
     envWriteJSON := fun _ => true |}.

End Cases.

(* ===================================================================== *)
(** ** Package ksm: the switches of KSM in sysfs

    The package reads and writes small files.  A file system is the
    content of its files and the listing of its directories.  Which paths
    can be written, how [filepath.Join] makes a path, and what the kernel
    does to the files while the program sleeps come from the host.  A
    write that fails leaves the file as it was. *)
(* ===================================================================== *)

Module Ksm.

Import GoInt Text.

(** [DefaultPath] ist der typische sysfs-Pfad fuer KSM Controls/Stats. *)
Definition DefaultPath : string := "/sys/kernel/mm/ksm".

(** [MergeAcrossNodes = -1] bedeutet "nicht aendern". *)
Record Config := {
  Path : string;
  PagesToScan : Z;
  SleepMillisecs : Z;
  MergeAcrossNodes : Z
}.

Definition normalized (c : Config) : Config :=
  {| Path := if String.eqb (Path c) "" then DefaultPath else Path c;
     PagesToScan := PagesToScan c;
     SleepMillisecs := SleepMillisecs c;
     MergeAcrossNodes := MergeAcrossNodes c |}.

(** [fs.DirEntry] *)
Record DirEntry := {
  Name : string;
  IsDir : bool
}.

Record Sys := {
  files : gmap string string;
  dirs : gmap string (list DirEntry);
  now : Z                               (* the clock, in nanoseconds *)
}.

Definition setFiles (fs : gmap string string) (s : Sys) : Sys :=
  {| files := fs; dirs := dirs s; now := now s |}.

Record Host := {
  Join : string -> string -> string;    (* filepath.Join *)
  canWrite : string -> bool;            (* does os.WriteFile succeed? *)
  drift : Z -> gmap string string -> gmap string string
                                        (* the files after a sleep until t *)
}.

Inductive error :=
  | errPagesToScan      (* pages_to_scan must be > 0 *)
  | errSleepMillisecs   (* sleep_millisecs must be >= 0 *)
  | errNoFields         (* keine numerischen KSM-Felder gefunden *)
  | errSyntax           (* an error of strconv.ParseInt *)
  | errOS (path : string). (* an error of package os *)

Section WithHost.

Variable host : Host.

Definition readInt (p : string) (s : Sys) : result error Z :=
  match files s !! p with
  | None => Err (errOS p)
  | Some b =>
      match ParseInt (Strings.TrimSpace b) with
      | Some v => Ok v
      | None => Err errSyntax
      end
  end.

Definition writeInt (p : string) (v : Z) (s : Sys) : option error * Sys :=
  if canWrite host p then (None, setFiles (<[p := FormatInt v]> (files s)) s)
  else (Some (errOS p), s).

(** [if err := m; err != nil { return err }; k] *)
Definition andThen (m k : Sys -> option error * Sys) (s : Sys)
  : option error * Sys :=
  match m s with
  | (Some e, s') => (Some e, s')
  | (None, s') => k s'
  end.

(** [Enable] setzt Tuning-Werte (wenn moeglich) und startet KSM (run=1).
    Wenn dryRun=true, werden keine Writes durchgefuehrt. *)
Definition Enable (cfg0 : Config) (dryRun : bool) (s : Sys) : option error * Sys :=
  let cfg := normalized cfg0 in
  if PagesToScan cfg <=? 0 then (Some errPagesToScan, s)
  else if SleepMillisecs cfg <? 0 then (Some errSleepMillisecs, s)
  else if dryRun then (None, s)
  else
    (* Erst tunen, dann starten. *)
    andThen (writeInt (Join host (Path cfg) "pages_to_scan") (PagesToScan cfg))
      (andThen (writeInt (Join host (Path cfg) "sleep_millisecs")
                  (SleepMillisecs cfg))
         (andThen (if 0 <=? MergeAcrossNodes cfg
                   then writeInt (Join host (Path cfg) "merge_across_nodes")
                          (MergeAcrossNodes cfg)
                   else fun s => (None, s))
            (writeInt (Join host (Path cfg) "run") 1))) s.

(** [time.Sleep(d)]: the clock advances, and the kernel does its work. *)
Definition sleep (d : Z) (s : Sys) : Sys :=
  {| files := drift host (now s + d) (files s);
     dirs := dirs s;
     now := now s + d |}.

(** [for time.Now().Before(deadline) { ... time.Sleep(500ms) }] of
    [Disable]; [None] is a loop that has not ended after [fuel]
    iterations. *)
Fixpoint awaitUnmerged (fuel : nat) (deadline : Z) (path : string) (s : Sys)
  : option Sys :=
  if now s <? deadline then
    match fuel with
    | O => None
    | S k =>
        match readInt (Join host path "pages_shared") s with
        | Ok 0 => Some s
        | _ => awaitUnmerged k deadline path (sleep (500 * Bench.Millisecond) s)
        end
    end
  else Some s.

(** [Disable] stoppt KSM.  Wenn unmerge=true, wird run=2 gesetzt und
    best-effort bis pages_shared=0 gewartet (oder timeout). *)
Definition Disable (fuel : nat) (path0 : string) (unmerge : bool)
    (timeout0 : Bench.Duration) (dryRun : bool) (s : Sys)
  : option (option error * Sys) :=
  let path := if String.eqb path0 "" then DefaultPath else path0 in
  let timeout := if timeout0 <=? 0 then 60 * Bench.Second else timeout0 in
  if dryRun then Some (None, s)
  else if unmerge then
    match writeInt (Join host path "run") 2 s with
    | (Some e, s1) => Some (Some e, s1)
    | (None, s1) =>
        let deadline := now s1 + timeout in
        match awaitUnmerged fuel deadline path s1 with
        | Some s2 => Some (writeInt (Join host path "run") 0 s2)
        | None => None
        end
    end
  else Some (writeInt (Join host path "run") 0 s).

(** The body of the loop of [Status]. *)
Definition statusEntry (path : string) (s : Sys) (out : gmap string Z)
    (e : DirEntry) : gmap string Z :=
  if IsDir e then out
  else match readInt (Join host path (Name e)) s with
       | Ok val => <[Name e := val]> out
       | Err _ => out
       end.

(** [Status] liest alle numerischen Dateien im KSM-sysfs-Verzeichnis
    aus.  Nicht-numerische Files/Dirs werden ignoriert.  The map is
    [None] when it is nil. *)
Definition Status (path0 : string) (s : Sys)
  : option (gmap string Z) * option error :=
  let path := if String.eqb path0 "" then DefaultPath else path0 in
  match dirs s !! path with
  | None => (None, Some (errOS path))
  | Some entries =>
      let out := foldl (statusEntry path s) ∅ entries in
      if decide (size out = 0%nat) then (Some out, Some errNoFields)
      else (Some out, None)
  end.

Definition ReadInt (path name : string) (s : Sys) : result error Z :=
  let path := if String.eqb path "" then DefaultPath else path in
  readInt (Join host path name) s.

Definition WriteInt (path name : string) (v : Z) (s : Sys) : option error * Sys :=
  let path := if String.eqb path "" then DefaultPath else path in
  writeInt (Join host path name) v s.

End WithHost.

(** *** /proc/meminfo *)

Definition want (key : string) : bool :=
  bool_decide (key ∈ ["MemTotal"; "MemFree"; "MemAvailable"; "SwapTotal";
                      "SwapFree"]%string).

(** The body of the loop of [ReadMemInfo], for one line. *)
Definition memInfoLine (out : gmap string Z) (line : string) : gmap string Z :=
  match Fields line with
  | p0 :: p1 :: _ =>
      let key := TrimSuffix p0 ":" in
      if want key then
        match ParseUint p1 with
        | Some val => <[key := val]> out
        | None => out
        end
      else out
  | _ => out
  end.

(** What a [bufio.Scanner] makes of an open file: the lines it yields,
    and whether it ends with an error. *)
Record Scan := {
  scanLines : list string;
  scanErr : bool
}.

(** [ReadMemInfo] liest ausgewaehlte Felder aus /proc/meminfo.  [src] is
    [None] when the file cannot be opened. *)
Definition ReadMemInfo (src : option Scan) : result error (gmap string Z) :=
  match src with
  | None => Err (errOS "/proc/meminfo")
  | Some sc =>
      let out := foldl memInfoLine ∅ (scanLines sc) in
      if scanErr sc then Err (errOS "/proc/meminfo") else Ok out
  end.

End Ksm.

(** Vocabulary of the statements about package ksm. *)
Module Sysfs.

Import Ksm.

(** The directory that an empty path stands for. *)
Definition dirOf (path : string) : string :=
  if String.eqb path "" then DefaultPath else path.

(** The file of a switch of KSM. *)
Definition knob (host : Host) (path name : string) : string :=
  Join host (dirOf path) name.

(** The files [Enable] may write. *)
Definition knobs (host : Host) (path : string) : list string :=
  [knob host path "pages_to_scan"; knob host path "sleep_millisecs";
   knob host path "merge_across_nodes"; knob host path "run"].

(** The time [Disable] is willing to wait. *)
Definition patience (timeout : Bench.Duration) : Bench.Duration :=
  if timeout <=? 0 then 60 * Bench.Second else timeout.

(** The text of a sysfs file: the decimal number and a newline. *)
Definition shown (v : Z) : string :=
  String.append (Text.FormatInt v) (String (Ascii.ascii_of_nat 10) EmptyString).

(** A host on which paths are made with a slash, every file can be
    written, and the kernel has unmerged all pages after 2 seconds. *)
Definition plainHost : Host :=
  {| Join := fun dir name => String.append dir (String "/"%char name);
     canWrite := fun _ => true;
     drift := fun t fs =>
       if 2 * Bench.Second <=? t
       then <["/sys/kernel/mm/ksm/pages_shared"%string := shown 0]> fs
       else fs |}.

(** KSM is running and shares 12 pages. *)
Definition running : Sys :=
  {| files := {[ "/sys/kernel/mm/ksm/run"%string := shown 1;
                 "/sys/kernel/mm/ksm/pages_shared"%string := shown 12 ]};
     dirs := {[ "/sys/kernel/mm/ksm"%string :=
                  [ {| Name := "pages_shared"; IsDir := false |};
                    {| Name := "run"; IsDir := false |} ] ]};
     now := 0 |}.

Definition conservative : Config :=
  {| Path := EmptyString; PagesToScan := 100; SleepMillisecs := 20;
     MergeAcrossNodes := -1 |}.

End Sysfs.

(* ===================================================================== *)
(** ** The memory of a workload

    [cmdHog] fills its buffer with copies of one page, the same for every
    workload, and then writes a marker at the start of each page it has
    selected; with a redirty interval it writes the markers again, with a
    new counter, at every tick.  A byte is a [Z] below 256, the buffer a
    list of bytes. *)
(* ===================================================================== *)

Module HogMem.

Import GoInt Main.

(** How a piece of straight-line code with loops ends: it returns, it
    panics, or it has not ended when the fuel is used up. *)
Inductive outcome (A : Type) : Type :=
  | Done (a : A)
  | Panic
  | OutOfFuel.
Arguments Done {A} a.
Arguments Panic {A}.
Arguments OutOfFuel {A}.

(** "DENS1TY0" als konstant *)
Definition templateWord : Z := 0x44454E5331545930.

(** [byte(v >> (8 * i))] *)
Definition byteOf (v : Z) (i : Z) : Z := Z.shiftr v (8 * i) mod 256.

(** The eight bytes [binary.LittleEndian.PutUint64] writes for [v]. *)
Definition leBytes (v : Z) : list Z := byteOf v <$> seqZ 0 8.

(** [binary.LittleEndian.PutUint64(b[off:], v)]: the slice expression
    panics unless [0 <= off <= len(b)], and [PutUint64] panics on a slice
    of fewer than 8 bytes. *)
Definition putAt (b : list Z) (off : Z) (v : Z) : outcome (list Z) :=
  if (0 <=? off) && (off + 8 <=? Z.of_nat (length b))
  then Done (take (Z.to_nat off) b ++ leBytes v ++ drop (Z.to_nat off + 8) b)
  else Panic.

(** [for i := 0; i < len(template); i += 8 { PutUint64(template[i:], ...) }] *)
Fixpoint fillTemplate (fuel : nat) (i : Z) (template : list Z)
  : outcome (list Z) :=
  if i <? Z.of_nat (length template) then
    match fuel with
    | O => OutOfFuel
    | S k =>
        match putAt template i templateWord with
        | Done t => fillTemplate k (wrap64 (i + 8)) t
        | other => other
        end
    end
  else Done template.

(** [copy(buf[off:off+pageSize], template)], for a slice expression that
    is in range *)
Definition copyAt (buf : list Z) (off pageSize : Z) (template : list Z)
  : list Z :=
  take (Z.to_nat off) buf
  ++ take (Z.to_nat pageSize) template
  ++ drop (Z.to_nat off + Z.to_nat pageSize) buf.

(** [for off := 0; off+pageSize <= len(buf); off += pageSize { copy(...) }] *)
Fixpoint copyPages (fuel : nat) (off pageSize : Z) (template buf : list Z)
  : outcome (list Z) :=
  if wrap64 (off + pageSize) <=? Z.of_nat (length buf) then
    match fuel with
    | O => OutOfFuel
    | S k =>
        if (0 <=? off) && (off <=? wrap64 (off + pageSize))
        then copyPages k (wrap64 (off + pageSize)) pageSize template
               (copyAt buf off pageSize template)
        else Panic
    end
  else Done buf.

(** [v := (uint64(id) << 32) ^ counter ^ 0xBADC0FFEE] *)
Definition marker (id counter : Z) : Z :=
  Z.lxor (Z.lxor (wrapU64 (Z.shiftl (wrapU64 id) 32)) counter) 0xBADC0FFEE.

(** [applyDirty]: write unique marker at beginning of the page *)
Fixpoint applyDirty (buf : list Z) (pageSize id : Z) (indices : list Z)
    (counter : Z) : outcome (list Z) :=
  match indices with
  | [] => Done buf
  | idx :: rest =>
      let off := wrap64 (idx * pageSize) in
      if wrap64 (off + 8) <=? Z.of_nat (length buf) then
        match putAt buf off (marker id counter) with
        | Done buf' => applyDirty buf' pageSize id rest counter
        | other => other
        end
      else applyDirty buf pageSize id rest counter
  end.

(** The ticks of the redirty loop of [cmdHog]:
    [counter++; applyDirty(buf, pageSize, id, indices, counter)] *)
Fixpoint redirty (ticks : nat) (buf : list Z) (pageSize id : Z)
    (indices : list Z) (counter : Z) : outcome (list Z) :=
  match ticks with
  | O => Done buf
  | S k =>
      let counter' := wrapU64 (counter + 1) in
      match applyDirty buf pageSize id indices counter' with
      | Done buf' => redirty k buf' pageSize id indices counter'
      | other => other
      end
  end.

(** The buffer of a workload that serves with the image [img], after
    [ticks] ticks of its ticker: the template is made and copied, the
    selected pages are marked with the counter 0, and marked again at
    every tick when there is a ticker. *)
Definition hogMemory (pageSize : Z) (f : HogFlags) (img : HogImage)
    (ticks : nat) : outcome (list Z) :=
  let buf := replicate (Z.to_nat (bufLen img)) 0 in
  if pageSize <? 0 then Panic            (* make([]byte, pageSize) *)
  else
    let template := replicate (Z.to_nat pageSize) 0 in
    match fillTemplate (S (Z.to_nat pageSize)) 0 template with
    | Done template =>
        match copyPages (S (Z.to_nat (bufLen img))) 0 pageSize template buf with
        | Done buf =>
            if 0 <? dirtyPages img then
              match applyDirty buf pageSize (id f) (indices img) 0 with
              | Done buf =>
                  if (0 <? redirtyMs f) && (0 <? Z.of_nat (length (indices img)))
                  then redirty ticks buf pageSize (id f) (indices img) 0
                  else Done buf
              | other => other
              end
            else Done buf
        | other => other
        end
    | other => other
    end.

(** *** Vocabulary *)

(** The byte of the template at the offset [i]. *)
Definition templateByte (i : Z) : Z := byteOf templateWord (i mod 8).

(** [binary.LittleEndian.Uint64(b[off:])] *)
Definition Uint64 (b : list Z) (off : nat) : Z :=
  foldr (fun byte acc => byte + 256 * acc) 0 (take 8 (drop off b)).

(** The byte at the position [i] of a buffer of [total] pages of which the
    pages [dirty] carry the marker [v]. *)
Definition expected (pageSize total : Z) (dirty : list Z) (v : Z) (i : Z) : Z :=
  if bool_decide (i / pageSize ∈ dirty) && (i mod pageSize <? 8)
  then byteOf v (i mod pageSize)
  else if i <? total * pageSize then templateByte (i mod pageSize)
  else 0.

End HogMem.

(** A workload of 1 MiB that keeps half of its 256 pages dirty. *)
Module SmallHog.

Import Main.

Definition flags (id : Z) : HogFlags :=
  {| memMiB := 1; id := id; dirtyPct := F64.ofZ 50; redirtyMs := 1000 |}.

Definition image (id : Z) : HogImage :=
  {| bufLen := 1048576; totalPages := 256; dirtyPages := 128;
     indices := dirtyIndices id 256 128 |}.

End SmallHog.

(* ===================================================================== *)
(** ** The command line: [densityctl bench] *)
(* ===================================================================== *)

Module Cli.

Import GoInt OS Bench.
Local Open Scope os_scope.

(** The flags of [bench] after [fs.Parse]. *)
Record BenchFlags := {
  profile : string;     (* --profile, default "P1" *)
  scale : string;       (* --scale, default "" *)
  instances : Z;        (* --instances, default 0 *)
  memMiB : Z;           (* --mem-mib, default 256 *)
  warmupSec : Z;        (* --warmup-sec, default 20 *)
  outDir : string;      (* --out, default "results" *)
  publish : string      (* --publish, default "" *)
}.

(** What [cmdBench] reads from outside, besides what [bench.Run]
    reads. *)
Record CliEnv := {
  cliBench : Env;
  cliExecutable : result string string;  (* os.Executable() *)
  cliDir : string -> string;             (* filepath.Dir *)
  cliWriteFile : string -> bool          (* os.WriteFile of the published file *)
}.

(** [context.Background()] is never done. *)
Definition background (env : Env) : Env :=
  {| envPageSize := envPageSize env;
     envLaunch := envLaunch env;
     envCancelAt := None;
     envReadMemInfo := envReadMemInfo env;
     envStatus := envStatus env;
     envKsmdTicks := envKsmdTicks env;
     envMkdirAll := envMkdirAll env;
     envWriteJSON := envWriteJSON env |}.

(** The errors of [parseScale], as errors. *)
Definition scaleError (e : Main.ScaleError) : error :=
  match e with
  | Main.ErrFormat => errorsNew "ungueltiges scale-Format"
  | Main.ErrAtoi => errorsNew "strconv.Atoi"
  | Main.ErrStep => errorsNew "step muss > 0 sein"
  | Main.ErrBounds => errorsNew "ungueltige Grenzen"
  end.

(** The counts [cmdBench] hands to [bench.Run]; [None] when
    [parseScale] does not return. *)
Definition benchInstances (fuel : nat) (fl : BenchFlags)
  : option (result error (list Z)) :=
  if negb (String.eqb (scale fl) "") then
    match Main.parseScale fuel (scale fl) with
    | Some (Ok out) => Some (Ok out)
    | Some (Err e) => Some (Err (scaleError e))
    | None => None
    end
  else if 0 <? instances fl then Some (Ok [instances fl])
  else Some (Err (errorsNew "bitte --scale oder --instances angeben")).

Definition benchConfig (exe : string) (fl : BenchFlags) (ns : list Z) : Config :=
  {| ExecPath := exe;
     OutDir := outDir fl;
     KSMPath := Ksm.DefaultPath;
     cfgProfile := Text.ToUpper (profile fl);
     Instances := ns;
     MemMiB := memMiB fl;
     Warmup := wrap64 (warmupSec fl * Second);
     Interval := 0 |}.

(** [cmdBench], after the parsing of its flags.  The first component of
    what it returns is the result it has written to the path of
    [--publish], if it has written one. *)
Definition cmdBench (cli : CliEnv) (fuel : nat) (fl : BenchFlags)
  : M (option RunResult * option error) :=
  match cliExecutable cli with
  | Err msg => ret (None, Some (osErr msg))
  | Ok exe =>
      match benchInstances fuel fl with
      | None => fun _ => None
      | Some (Err e) => ret (None, Some e)
      | Some (Ok ns) =>
          let* r := Run (background (cliBench cli)) (benchConfig exe fl ns) in
          match r with
          | (_, Some err) => ret (None, Some err)
          | (res, None) =>
              if String.eqb (publish fl) "" then ret (None, None)
              else if negb (envMkdirAll (cliBench cli) (cliDir cli (publish fl)))
              then ret (None, Some (osErr "mkdir"))
              else if negb (cliWriteFile cli (publish fl))
              then ret (None, Some (osErr "write"))
              else ret (res, None)
          end
      end
  end.

(** The command line of the README, on a machine where nothing fails. *)
Definition readmeFlags : BenchFlags :=
  {| profile := "p1"; scale := "10..80..10"; instances := 0; memMiB := 256;
     warmupSec := 20; outDir := "results";
     publish := "docs/data/benchmarks.latest.json" |}.

Definition readmeEnv : CliEnv :=
  {| cliBench := Cases.steadyEnv None;
     cliExecutable := Ok "/usr/local/bin/densityctl"%string;
     cliDir := fun _ => "docs/data"%string;
     cliWriteFile := fun _ => true |}.

End Cli.

(* ===================================================================== *)
(** ** Package bench: the CPU time of ksmd, from /proc *)
(* ===================================================================== *)

Module ProcStat.

Import GoInt Text.

Inductive error :=
  | errFormat      (* unexpected /proc/stat format *)
  | errFields      (* unexpected /proc/stat fields *)
  | errSyntax      (* an error of strconv.ParseInt *)
  | errNotFound    (* process nicht gefunden *)
  | errOS (path : string). (* an error of package os *)

(** [after[i]], for an index in range *)
Definition field (after : list string) (i : nat) : string :=
  default EmptyString (after !! i).

Definition parseProcStatUtimeStime (stat : string) : result error (Z * Z) :=
  (* Find the last ')' which ends comm field. *)
  match LastIndex stat ")" with
  | None => Err errFormat
  | Some i =>
      let after := Fields (sliceFrom (S i) stat) in
      (* utime (14) -> after index (14-3) = 11, stime -> 12 *)
      if (length after <? 13)%nat then Err errFields
      else
        match ParseInt (field after 11) with
        | None => Err errSyntax
        | Some ut =>
            match ParseInt (field after 12) with
            | None => Err errSyntax
            | Some st => Ok (ut, st)
            end
        end
  end.

Section WithHost.

Variable host : Ksm.Host.

(** The loop of [findPIDByComm] over the entries of /proc. *)
Fixpoint findComm (comm : string) (s : Ksm.Sys) (d : list Ksm.DirEntry)
  : result error Z :=
  match d with
  | [] => Err errNotFound
  | e :: rest =>
      if negb (Ksm.IsDir e) then findComm comm s rest
      else
        match Strconv.Atoi (Ksm.Name e) with
        | None => findComm comm s rest
        | Some pid =>
            let cpath :=
              Ksm.Join host (Ksm.Join host "/proc" (Ksm.Name e)) "comm" in
            match Ksm.files s !! cpath with
            | None => findComm comm s rest
            | Some b =>
                if String.eqb (Strings.TrimSpace b) comm then Ok pid
                else findComm comm s rest
            end
        end
  end.

Definition findPIDByComm (comm : string) (s : Ksm.Sys) : result error Z :=
  match Ksm.dirs s !! "/proc"%string with
  | None => Err (errOS "/proc")
  | Some d => findComm comm s d
  end.

Definition readKsmdTicks (s : Ksm.Sys) : result error Z :=
  match findPIDByComm "ksmd" s with
  | Err e => Err e
  | Ok pid =>
      let statPath :=
        Ksm.Join host (Ksm.Join host "/proc" (Itoa pid)) "stat" in
      match Ksm.files s !! statPath with
      | None => Err (errOS statPath)
      | Some b =>
          match parseProcStatUtimeStime b with
          | Err e => Err e
          | Ok (utime, stime) => Ok (wrap64 (utime + stime))
          end
      end
  end.

End WithHost.

(** *** Vocabulary *)

(** The entry of /proc is the directory of a process whose name is
    [comm]. *)
Definition isComm (host : Ksm.Host) (s : Ksm.Sys) (comm : string)
    (e : Ksm.DirEntry) : bool :=
  Ksm.IsDir e
  && match Strconv.Atoi (Ksm.Name e) with
     | Some _ =>
         match Ksm.files s
               !! Ksm.Join host (Ksm.Join host "/proc" (Ksm.Name e)) "comm" with
         | Some b => String.eqb (Strings.TrimSpace b) comm
         | None => false
         end
     | None => false
     end.

(** A field of a line: not empty, and without white space. *)
Definition isWord (w : string) : Prop :=
  w ≠ EmptyString ∧ allChars (fun c => negb (Strings.isSpace c)) w = true.

(** The fields [ws], each after one space, followed by [tail]. *)
Definition spaced (ws : list string) (tail : string) : string :=
  foldr (fun w acc => String " "%char (String.append w acc)) tail ws.

(** A byte other than the closing parenthesis. *)
Definition notParen (c : ascii) : bool := negb (Ascii.eqb c ")"%char).

Definition newline : string := String (Ascii.ascii_of_nat 10) EmptyString.

(** The line of /proc/[pid]/stat of a ksmd that has used 7 and 1234
    ticks. *)
Definition ksmdStat : string :=
  String.append "37 (ksmd) S 2 0 0 0 -1 2129984 0 0 0 0 7 1234 0 0 25 5 1 0 17 0 0"
    newline.

(** A /proc with the processes 1 (systemd) and 37 (ksmd), and a file
    that is no process. *)
Definition procfs : Ksm.Sys :=
  {| Ksm.files :=
       {[ "/proc/1/comm"%string := String.append "systemd" newline;
          "/proc/37/comm"%string := String.append "ksmd" newline;
          "/proc/37/stat"%string := ksmdStat ]};
     Ksm.dirs :=
       {[ "/proc"%string :=
            [ {| Ksm.Name := "1"; Ksm.IsDir := true |};
              {| Ksm.Name := "37"; Ksm.IsDir := true |};
              {| Ksm.Name := "meminfo"; Ksm.IsDir := false |} ] ]};
     Ksm.now := 0 |}.

(** Three lines of /proc/meminfo. *)
Definition meminfo : Ksm.Scan :=
  {| Ksm.scanLines :=
       [ "MemTotal:       16384256 kB"; "MemAvailable:    9000000 kB";
         "SwapTotal:             0 kB" ]%string;
     Ksm.scanErr := false |}.

End ProcStat.

(* ===================================================================== *)
(** ** Package bench: the figures of the report *)
(* ===================================================================== *)

Module Report.

(** [memMiB]: a value of /proc/meminfo, in kB, as MiB.  The map is
    [None] when it is nil. *)
Definition memMiB (m : option (gmap string Z)) (key : string) : F64.float64 :=
  match m with
  | None => F64.zero
  | Some m =>
      let kb := Bench.mapGet m key in
      F64.div (F64.ofZ kb) (F64.ofZ 1024)
  end.

End Report.

(* ===================================================================== *)
(** ** float64: signs *)
(* ===================================================================== *)

Section FloatSign.

Import F64.

Lemma binary_round_aux_sign sx mx ex lx :
  binary_round_aux prec emax sx mx ex lx = S754_nan ∨
  (∃ s', s' = sx ∧
     (binary_round_aux prec emax sx mx ex lx = S754_zero s' ∨
      binary_round_aux prec emax sx mx ex lx = S754_infinity s' ∨
      ∃ m e, binary_round_aux prec emax sx mx ex lx = S754_finite s' m e)).
Proof.
  unfold binary_round_aux.
  destruct (shr_fexp prec emax mx ex lx) as [mrs' e'].
  destruct (shr_fexp prec emax _ e' loc_Exact) as [mrs'' e''].
  destruct (shr_m mrs'') as [|m|m]; [right|right|left]; try done.
  - exists sx; auto.
  - exists sx; split; [done|]. destruct (e'' <=? emax - prec); eauto.
Qed.

Lemma signClear_round_aux mx ex lx :
  signClear (binary_round_aux prec emax false mx ex lx) = true.
Proof.
  destruct (binary_round_aux_sign false mx ex lx) as [->|(s & -> & [->|[->|(m & e & ->)]])];
    done.
Qed.

Lemma signClear_ofZ z : 0 <= z → signClear (ofZ z) = true.
Proof.
  intros Hz. unfold ofZ, binary_normalize.
  destruct z as [|m|m]; [done| |lia].
  unfold binary_round. destruct (shl_align _ _ _) as [mz ez].
  apply signClear_round_aux.
Qed.

Lemma signClear_mul x y :
  signClear x = true → signClear y = true → signClear (mul x y) = true.
Proof.
  destruct x as [sx|sx| |sx mx ex], y as [sy|sy| |sy my ey]; simpl;
    intros Hx Hy; try done;
    apply negb_true_iff in Hx, Hy; subst; try done.
  apply signClear_round_aux.
Qed.

Lemma signClear_div x y :
  signClear x = true → signClear y = true → signClear (div x y) = true.
Proof.
  destruct x as [sx|sx| |sx mx ex], y as [sy|sy| |sy my ey]; simpl;
    intros Hx Hy; try done;
    apply negb_true_iff in Hx, Hy; subst; try done.
  destruct (SFdiv_core_binary _ _ _ _ _ _) as [[mz ez] lz].
  apply signClear_round_aux.
Qed.

(** A float whose sign bit is clear does not compare below zero. *)
Lemma signClear_not_negative x : signClear x = true → ltb x zero = false.
Proof. destruct x as [s|[]| |[] m e]; done. Qed.

End FloatSign.


(* ===================================================================== *)
(** ** float64: operations that are exact *)
(* ===================================================================== *)

Section FloatExact.

Import F64 FloatValue.

Lemma iter_pos_iter {A} (f : A -> A) p x : SpecFloat.iter_pos f p x = Pos.iter f x p.
Proof.
  revert x. induction p as [p IH|p IH|]; intros x; simpl.
  - rewrite !IH. rewrite <- !Pos.iter_swap. reflexivity.
  - rewrite !IH. reflexivity.
  - reflexivity.
Qed.

Lemma digits2_size p : digits2_pos p = Pos.size p.
Proof. induction p; simpl; congruence. Qed.

Lemma shr_zeros (p m : positive) :
  SpecFloat.iter_pos shr_1 p (Build_shr_record (Zpos (Pos.iter xO m p)) false false)
  = Build_shr_record (Zpos m) false false.
Proof.
  rewrite iter_pos_iter. revert m.
  induction p using Pos.peano_ind; intros m.
  - reflexivity.
  - rewrite Pos.iter_succ. rewrite Pos.iter_succ_r.
    rewrite IHp. reflexivity.
Qed.

Lemma iter_xO_Z m p : Zpos (Pos.iter xO m p) = Zpos m * 2 ^ Zpos p.
Proof.
  induction p using Pos.peano_ind.
  - simpl. lia.
  - rewrite Pos.iter_succ, Pos2Z.inj_succ, Z.pow_succ_r by lia.
    rewrite Pos2Z.inj_xO, IHp. lia.
Qed.

Lemma size_iter_xO m p : Zpos (Pos.size (Pos.iter xO m p)) = Zpos (Pos.size m) + Zpos p.
Proof.
  induction p using Pos.peano_ind.
  - simpl. lia.
  - rewrite Pos.iter_succ. simpl Pos.size. lia.
Qed.


Lemma shl_Z m k : 0 <= k -> Zpos (shl m k) = Zpos m * 2 ^ k.
Proof. destruct k; simpl; try lia. intros _. apply iter_xO_Z. Qed.

Lemma size_shl m k : 0 <= k -> Zpos (Pos.size (shl m k)) = Zpos (Pos.size m) + k.
Proof. destruct k; simpl; try lia. intros _. apply size_iter_xO. Qed.

Lemma size_bounds m : 2 ^ (Zpos (Pos.size m) - 1) <= Zpos m < 2 ^ Zpos (Pos.size m).
Proof.
  pose proof (Pos.size_gt m) as Hgt. pose proof (Pos.size_le m) as Hle.
  apply Pos2Z.pos_lt_pos in Hgt. apply Pos2Z.pos_le_pos in Hle.
  rewrite Pos2Z.inj_pow in Hgt, Hle.
  change (Z.pos m~0) with (2 * Z.pos m) in Hle.
  split; [|exact Hgt].
  assert (H2 : 2 ^ Zpos (Pos.size m) = 2 * 2 ^ (Zpos (Pos.size m) - 1)).
  { rewrite <- Z.pow_succ_r by lia. f_equal. lia. }
  lia.
Qed.

(** A mantissa of 53 bits followed by [p] zeros rounds to itself. *)
Lemma round_aux_shift s m e k :
  Zpos (Pos.size m) = 53 -> 0 <= k -> -1074 <= e + k <= 971 ->
  binary_round_aux prec emax s (Zpos (shl m k)) e loc_Exact = S754_finite s m (e + k).
Proof.
  intros Hm Hk He. unfold binary_round_aux, shr_fexp.
  cbn [Zdigits2 shr_record_of_loc]. rewrite digits2_size, size_shl, Hm by assumption.
  assert (Hf : fexp prec emax (53 + k + e) - e = k).
  { unfold fexp, emin, prec, emax. lia. }
  rewrite Hf.
  assert (Hshr : shr (Build_shr_record (Zpos (shl m k)) false false) e k
                 = (Build_shr_record (Zpos m) false false, e + k)).
  { destruct k as [|p|p]; [|simpl; rewrite shr_zeros; reflexivity|lia].
    simpl. rewrite Z.add_0_r. reflexivity. }
  rewrite Hshr. cbn [shr_m loc_of_shr_record round_nearest_even Zdigits2 shr_record_of_loc].
  rewrite digits2_size, Hm.
  assert (Hf2 : fexp prec emax (53 + (e + k)) - (e + k) = 0).
  { unfold fexp, emin, prec, emax. lia. }
  rewrite Hf2. cbn [shr shr_m].
  replace (e + k <=? emax - prec) with true by (unfold emax, prec; lia).
  reflexivity.
Qed.

Lemma ofZ_exact a : Zpos (Pos.size a) <= 53 -> ofZ (Zpos a) = normal a.
Proof.
  intros Ha. unfold ofZ, binary_normalize, binary_round, normal.
  rewrite digits2_size.
  assert (Hf : fexp prec emax (Zpos (Pos.size a) + 0) = Zpos (Pos.size a) - 53).
  { unfold fexp, emin, prec, emax. lia. }
  rewrite Hf.
  assert (Hal : shl_align a 0 (Zpos (Pos.size a) - 53)
                = (shl a (53 - Zpos (Pos.size a)), Zpos (Pos.size a) - 53)).
  { unfold shl_align. rewrite Z.sub_0_r.
    destruct (Zpos (Pos.size a) - 53) as [|p|p] eqn:Hd.
    - replace (53 - Zpos (Pos.size a)) with 0 by lia. reflexivity.
    - lia.
    - replace (53 - Zpos (Pos.size a)) with (Zpos p) by lia. reflexivity. }
  rewrite Hal.
  replace (Zpos (Pos.size a) - 53)
    with (Zpos (Pos.size a) - 53 + 0) at 2 by lia.
  rewrite <- (round_aux_shift false (shl a (53 - Zpos (Pos.size a)))
                (Zpos (Pos.size a) - 53) 0).
  - reflexivity.
  - rewrite size_shl by lia. lia.
  - lia.
  - lia.
Qed.

Lemma size_mul_lower a b :
  Zpos (Pos.size a) + Zpos (Pos.size b) - 1 <= Zpos (Pos.size (a * b)).
Proof.
  destruct (size_bounds a) as [Ha _], (size_bounds b) as [Hb _].
  destruct (size_bounds (a * b)) as [_ Hab]. rewrite Pos2Z.inj_mul in Hab.
  assert (H : 2 ^ (Zpos (Pos.size a) - 1 + (Zpos (Pos.size b) - 1))
              < 2 ^ Zpos (Pos.size (a * b))).
  { rewrite Z.pow_add_r by lia.
    eapply Z.le_lt_trans; [|exact Hab]. apply Z.mul_le_mono_nonneg; lia. }
  apply Z.pow_lt_mono_r_iff in H; lia.
Qed.

(** The product of two integers is exact as long as it is below 2^53. *)
Lemma mul_exact a b :
  Zpos (Pos.size (a * b)) <= 53 -> mul (normal a) (normal b) = normal (a * b).
Proof.
  intros Hab. pose proof (size_mul_lower a b) as Hlow.
  assert (1 <= Zpos (Pos.size a)) by lia. assert (1 <= Zpos (Pos.size b)) by lia.
  unfold mul, normal. cbn [SFmul xorb].
  set (sa := Zpos (Pos.size a)) in *. set (sb := Zpos (Pos.size b)) in *.
  set (sab := Zpos (Pos.size (a * b))) in *.
  assert (Hm : (shl a (53 - sa) * shl b (53 - sb))%positive
               = shl (shl (a * b) (53 - sab)) (53 + sab - sa - sb)).
  { apply Pos2Z.inj. rewrite Pos2Z.inj_mul, !shl_Z by lia.
    rewrite Pos2Z.inj_mul.
    replace (Zpos a * 2 ^ (53 - sa) * (Zpos b * 2 ^ (53 - sb)))
      with (Zpos a * Zpos b * (2 ^ (53 - sa) * 2 ^ (53 - sb))) by lia.
    rewrite <- !Z.mul_assoc. rewrite <- !Z.pow_add_r by lia.
    do 3 f_equal. lia. }
  rewrite Hm. rewrite round_aux_shift.
  - f_equal. lia.
  - rewrite size_shl by lia. fold sab. lia.
  - lia.
  - lia.
Qed.

Lemma div_eucl_exact a b : 0 < b -> Z.div_eucl (a * b) b = (a, 0).
Proof.
  intros Hb. pose proof (Z.div_mul a b ltac:(lia)) as Hq.
  pose proof (Z.mod_mul a b ltac:(lia)) as Hr.
  unfold Z.div, Z.modulo in *. destruct (Z.div_eucl (a * b) b) as [q r].
  simpl in *. congruence.
Qed.

(** Dividing by 2^20 is exact. *)
Lemma div_mib_exact m e :
  Zpos (Pos.size m) = 53 -> -1000 <= e <= 900 ->
  div (S754_finite false m e) (ofZ (2 ^ 20)) = S754_finite false m (e - 20).
Proof.
  intros Hm He.
  change (ofZ (2 ^ 20)) with (S754_finite false 4503599627370496 (-32)).
  unfold div. cbn [SFdiv xorb]. unfold SFdiv_core_binary.
  cbn [Zdigits2]. rewrite digits2_size, Hm.
  change (Z.pos (digits2_pos 4503599627370496)) with 53.
  assert (He' : Z.min (fexp prec emax (53 + e - (53 + -32))) (e - -32) = e - 21).
  { unfold fexp, emin, prec, emax. lia. }
  rewrite He'.
  replace (e - -32 - (e - 21)) with 53 by lia.
  rewrite Z.shiftl_mul_pow2 by lia.
  replace (Z.pos m * 2 ^ 53) with (2 * Z.pos m * 4503599627370496) by lia.
  rewrite div_eucl_exact by lia.
  change (new_location 4503599627370496 0) with loc_Exact.
  change (2 * Z.pos m) with (Z.pos (shl m 1)).
  rewrite round_aux_shift by lia. f_equal. lia.
Qed.

(** An integer below 2^53 has at most 53 bits. *)
Lemma size_le_53 a : Zpos a < 2 ^ 53 → Zpos (Pos.size a) <= 53.
Proof.
  intros Ha. destruct (size_bounds a) as [Hlo _].
  destruct (Z.le_gt_cases (Zpos (Pos.size a)) 53) as [|Hgt]; [done|].
  assert (2 ^ 53 <= 2 ^ (Zpos (Pos.size a) - 1)) by (apply Z.pow_le_mono_r; lia).
  lia.
Qed.

(** [a * b / 2^20] in float64, for positive integers with [a * b < 2^53]. *)
Lemma mul_div_mib_exact a b :
  0 < a → 0 < b → a * b < 2 ^ 53 →
  exactly (div (mul (ofZ a) (ofZ b)) (ofZ (2 ^ 20))) (a * b) 20.
Proof.
  intros Ha Hb Hab. destruct a as [|a|a], b as [|b|b]; try lia.
  assert (Hsab : Zpos (Pos.size (a * b)) <= 53) by (apply size_le_53; lia).
  rewrite !ofZ_exact by (apply size_le_53; nia).
  rewrite mul_exact by done. unfold normal.
  rewrite div_mib_exact.
  - eexists _, _. split; [reflexivity|]. split; [lia|].
    rewrite shl_Z by lia. rewrite <- Z.mul_assoc, <- Z.pow_add_r by lia.
    rewrite Pos2Z.inj_mul. do 2 f_equal. lia.
  - rewrite size_shl by lia. lia.
  - lia.
Qed.

(** Multiplying by a power of two is exact. *)
Lemma mul_pow2_exact a e :
  Zpos (Pos.size a) <= 53 → -1000 <= e <= 900 →
  mul (normal a) (S754_finite false 4503599627370496 e)
  = S754_finite false (shl a (53 - Zpos (Pos.size a)))
      (Zpos (Pos.size a) - 53 + e + 52).
Proof.
  intros Ha He. unfold mul, normal. cbn [SFmul xorb].
  assert (Hm : (shl a (53 - Zpos (Pos.size a)) * 4503599627370496)%positive
               = shl (shl a (53 - Zpos (Pos.size a))) 52).
  { apply Pos2Z.inj. rewrite Pos2Z.inj_mul, !shl_Z by lia. lia. }
  rewrite Hm, round_aux_shift.
  - done.
  - rewrite size_shl by lia. lia.
  - lia.
  - lia.
Qed.

(** The integer part of a float64 that holds [a / 2^k]. *)
Lemma toInt_normal a k :
  Zpos (Pos.size a) <= 53 → 0 <= k →
  toInt (S754_finite false (shl a (53 - Zpos (Pos.size a)))
           (Zpos (Pos.size a) - 53 - k))
  = Zpos a / 2 ^ k.
Proof.
  intros Ha Hk. unfold toInt.
  pose proof (size_bounds a) as [_ Hhi].
  assert (Hlt : Zpos a < 2 ^ 53).
  { eapply Z.lt_le_trans; [exact Hhi|]. apply Z.pow_le_mono_r; lia. }
  assert (Hq : 0 <= Zpos a / 2 ^ k <= Zpos a).
  { split; [apply Z.div_pos; lia|].
    apply Z.div_le_upper_bound; [lia|]. assert (1 <= 2 ^ k) by lia. nia. }
  set (s := Zpos (Pos.size a)) in *. rewrite shl_Z by lia.
  assert (Hv : (if 0 <=? s - 53 - k
                then Zpos a * 2 ^ (53 - s) * 2 ^ (s - 53 - k)
                else Zpos a * 2 ^ (53 - s) / 2 ^ (- (s - 53 - k)))
               = Zpos a / 2 ^ k).
  { destruct (0 <=? s - 53 - k) eqn:Hs.
    - assert (s = 53 ∧ k = 0) as [-> ->] by lia. simpl. rewrite Z.div_1_r. lia.
    - replace (- (s - 53 - k)) with (k + (53 - s)) by lia.
      rewrite Z.pow_add_r by lia.
      rewrite Z.div_mul_cancel_r by lia. done. }
  rewrite Hv.
  replace (GoInt.inInt64b (Zpos a / 2 ^ k)) with true; [done|].
  unfold GoInt.inInt64b, GoInt.minInt64, GoInt.maxInt64, GoInt.two63. lia.
Qed.

End FloatExact.

(* ===================================================================== *)
(** ** The savings estimator *)
(* ===================================================================== *)

Section Estimator.

Import GoInt Bench Facts.

Lemma wrap64_id z : inInt64 z → wrap64 z = z.
Proof.
  unfold inInt64, wrap64, minInt64, maxInt64, two64, two63. intros H.
  rewrite Z.mod_small; lia.
Qed.

Lemma mib_constant : F64.mul (F64.ofZ 1024) (F64.ofZ 1024) = F64.ofZ (2 ^ 20).
Proof. reflexivity. Qed.

(** C1.  The estimate is exactly 0 when the statistics are absent or
    empty, when [pages_shared] is not positive, or when [pages_sharing]
    is below [pages_shared]; otherwise it is
    [(pages_sharing - pages_shared) * pageSize / 2^20], computed in
    float64, which is that quotient exactly as long as the saved bytes stay
    below 2^53; and it never compares below zero. *)
Theorem estimateSavedMiB_spec (pageSize : Z) (ksmStats : option (gmap string Z)) :
  let shared := counter ksmStats "pages_shared" in
  let sharing := counter ksmStats "pages_sharing" in
  0 < pageSize → inInt64 shared → inInt64 sharing →
  (ksmStats = None ∨ ksmStats = Some ∅ ∨ shared <= 0 ∨ sharing < shared →
     estimateSavedMiB pageSize ksmStats = F64.zero)
  ∧ (ksmStats ≠ None → 0 < shared → shared <= sharing →
     estimateSavedMiB pageSize ksmStats =
       F64.div (F64.mul (F64.ofZ (sharing - shared)) (F64.ofZ pageSize))
               (F64.ofZ (2 ^ 20)))
  ∧ (ksmStats ≠ None → 0 < shared → shared < sharing →
     (sharing - shared) * pageSize < 2 ^ 53 →
     FloatValue.exactly (estimateSavedMiB pageSize ksmStats)
       ((sharing - shared) * pageSize) 20)
  ∧ F64.ltb (estimateSavedMiB pageSize ksmStats) F64.zero = false
  ∧ F64.signClear (estimateSavedMiB pageSize ksmStats) = true.
Proof.
  intros shared sharing Hps Hsh Hsg.
  assert (Hval : ksmStats ≠ None → 0 < shared → shared <= sharing →
     estimateSavedMiB pageSize ksmStats =
       F64.div (F64.mul (F64.ofZ (sharing - shared)) (F64.ofZ pageSize))
               (F64.ofZ (2 ^ 20))).
  { intros Hs Hpos Hle. destruct ksmStats as [m|]; [|done]. simpl in shared, sharing.
    unfold estimateSavedMiB. fold shared sharing.
    destruct (_ || _ || _) eqn:Hg.
    { apply orb_true_iff in Hg as [Hg|Hg]; [apply orb_true_iff in Hg as [Hg|Hg]|]; lia. }
    rewrite wrap64_id, mib_constant; [done|].
    unfold inInt64, minInt64, maxInt64 in *. lia. }
  assert (Hsign : F64.signClear (estimateSavedMiB pageSize ksmStats) = true).
  { destruct ksmStats as [m|]; [|done]. simpl in shared, sharing.
    unfold estimateSavedMiB. fold shared sharing.
    destruct (_ || _ || _) eqn:Hg; [done|].
    apply orb_false_iff in Hg as [Hg H3]. apply orb_false_iff in Hg as [H1 H2].
    apply signClear_div; [|done].
    apply signClear_mul; apply signClear_ofZ; [|lia].
    rewrite wrap64_id; [lia|]. unfold inInt64, minInt64, maxInt64 in *. lia. }
  split; [|split; [done|split; [|split]]];
    [| |by apply signClear_not_negative|done].
  - intros [->|[->|H]]; [done|done|].
    destruct ksmStats as [m|]; [|done]. simpl in shared, sharing.
    unfold estimateSavedMiB. fold shared sharing.
    destruct (_ || _ || _) eqn:Hg; [done|].
    apply orb_false_iff in Hg as [Hg H3]. apply orb_false_iff in Hg as [H1 H2]. lia.
  - intros Hs Hpos Hlt Hsmall. rewrite Hval by (done || lia).
    apply mul_div_mib_exact; lia.
Qed.

End Estimator.

(** 1000 pages sharing 10 targets, with pages of 4096 bytes, save
    990 * 4096 / 2^20 = 3.8671875 MiB. *)
Lemma estimateSavedMiB_spec_witness :
  Bench.estimateSavedMiB 4096 Scenario.demoStats
  = F64.div (F64.mul (F64.ofZ (1000 - 10)) (F64.ofZ 4096)) (F64.ofZ (2 ^ 20))
  ∧ F64.ltb (Bench.estimateSavedMiB 4096 Scenario.demoStats) F64.zero = false.
Proof.
  destruct (estimateSavedMiB_spec 4096 Scenario.demoStats)
    as (_ & Hval & _ & Hneg & _).
  - lia.
  - vm_compute. split; discriminate.
  - vm_compute. split; discriminate.
  - split; [|exact Hneg]. apply Hval; [discriminate|vm_compute; reflexivity|].
    vm_compute. discriminate.
Defined.

(* ===================================================================== *)
(** ** Signals, Kill and Wait on the process table *)
(* ===================================================================== *)

Section Teardown.

Import GoInt OS Bench Facts.
Local Open Scope os_scope.

Lemma setProcs_same w : setProcs (procs w) w = w.
Proof. by destruct w. Qed.

Lemma setClock_same w : setClock (clock w) w = w.
Proof. by destruct w. Qed.

Lemma setStatus_same p : setStatus (status p) p = p.
Proof. by destruct p. Qed.

Lemma procSignal_eq pid sig w :
  procSignal pid sig w
  = Some (answers pid (procs w), setProcs (sendTo sig pid (procs w)) w).
Proof.
  unfold procSignal, sendTo, answers.
  destruct (procs w !! pid) as [p|] eqn:Hp; [|by rewrite setProcs_same].
  destruct (status p) eqn:Hs; simpl; try done.
  by rewrite setProcs_same.
Qed.

Lemma sendTo_lookup_ne sig pid ps i :
  i ≠ pid → sendTo sig pid ps !! i = ps !! i.
Proof.
  intros Hne. unfold sendTo. destruct (ps !! pid); [|done].
  destruct (answers pid ps); [|done]. by rewrite list_lookup_insert_ne.
Qed.

Lemma setStatus_deliver s sig p : setStatus s (deliver sig p) = setStatus s p.
Proof.
  unfold deliver. destruct (status p), sig; try done.
  by destruct (obeysTerm p).
Qed.

(** A signal changes nothing that Kill and Wait do not overwrite. *)
Lemma sendTo_lookup_reaped sig pid ps i :
  setStatus Reaped <$> sendTo sig pid ps !! i = setStatus Reaped <$> ps !! i.
Proof.
  destruct (decide (i = pid)) as [->|Hne]; [|by rewrite sendTo_lookup_ne].
  unfold sendTo. destruct (ps !! pid) as [p|] eqn:Hp; [|by rewrite Hp].
  destruct (answers pid ps); [|by rewrite Hp].
  rewrite list_lookup_insert_eq by (by eapply lookup_lt_Some).
  simpl. by rewrite setStatus_deliver.
Qed.

Lemma sendTo_Signal0 pid ps : sendTo Signal0 pid ps = ps.
Proof.
  unfold sendTo. destruct (ps !! pid) as [p|] eqn:Hp; [|done].
  destruct (answers pid ps); [|done].
  replace (deliver Signal0 p) with p by (unfold deliver; by destruct (status p)).
  by apply list_insert_id.
Qed.

Lemma termAll_eq cmds w :
  termAll cmds w = Some (tt, setProcs (termTable (pidsOf cmds) (procs w)) w).
Proof.
  revert w. induction cmds as [|c cmds IH]; intros w; simpl.
  - unfold ret. by rewrite setProcs_same.
  - destruct c as [[[pid|] st]|]; simpl; try apply IH.
    unfold bind. rewrite procSignal_eq, IH. by destruct w.
Qed.

Lemma probeAll_eq cmds b w :
  probeAll cmds b w = Some (b && allQuiet cmds (procs w), w).
Proof.
  revert b. induction cmds as [|c cmds IH]; intros b; simpl.
  - unfold ret. by rewrite andb_true_r.
  - destruct c as [[[pid|] [[]|]]|]; simpl; try apply IH.
    all: unfold bind; rewrite procSignal_eq, sendTo_Signal0, setProcs_same, IH.
    all: by destruct (answers pid (procs w)), b.
Qed.

Lemma pollLoop_eq fuel deadline cmds w (k : nat) :
  (k <= fuel)%nat →
  clock w + Z.of_nat k * (100 * Millisecond) = deadline →
  pollLoop fuel deadline cmds w
  = Some (tt, if allQuiet cmds (procs w) then w else setClock deadline w).
Proof.
  revert w k. induction fuel as [|fuel IH]; intros w k Hk Hd.
  - assert (k = 0%nat) as -> by lia. simpl in *.
    unfold bind, timeNow. replace (clock w <? deadline) with false by lia.
    unfold ret. replace deadline with (clock w) by lia.
    rewrite setClock_same. by destruct (allQuiet _ _).
  - simpl. unfold bind at 1. unfold timeNow at 1.
    destruct k as [|k].
    + simpl in Hd. replace (clock w <? deadline) with false by lia.
      unfold ret. replace deadline with (clock w) by lia.
      rewrite setClock_same. by destruct (allQuiet _ _).
    + replace (clock w <? deadline) with true by (unfold Millisecond in *; lia).
      unfold bind. rewrite probeAll_eq. simpl.
      destruct (allQuiet cmds (procs w)) eqn:Hq; [done|].
      unfold timeSleep. rewrite (IH _ k); simpl; [|lia|unfold Millisecond in *; lia].
      by rewrite Hq.
Qed.

Lemma setProcs_setProcs a b w : setProcs a (setProcs b w) = setProcs a w.
Proof. done. Qed.

Lemma insert_reaped pid (ps : list Proc) p q :
  ps !! pid = Some p → setStatus Reaped q = setStatus Reaped p →
  <[pid := setStatus Reaped q]> ps = alter (setStatus Reaped) pid ps.
Proof.
  intros Hp Hq. apply list_eq; intros i.
  destruct (decide (i = pid)) as [->|Hne].
  - rewrite list_lookup_insert_eq by (by eapply lookup_lt_Some).
    rewrite list_lookup_alter_eq, Hp. simpl. by rewrite Hq.
  - by rewrite list_lookup_insert_ne, list_lookup_alter_ne.
Qed.

Lemma alter_reaped_id pid (ps : list Proc) :
  answers pid ps = false → alter (setStatus Reaped) pid ps = ps.
Proof.
  unfold answers. intros Ha. apply list_eq; intros i.
  destruct (decide (i = pid)) as [->|Hne]; [|by rewrite list_lookup_alter_ne].
  rewrite list_lookup_alter_eq. destruct (ps !! pid) as [p|]; [|done].
  simpl. apply bool_decide_eq_false in Ha.
  destruct (status p) eqn:Hs; try (exfalso; apply Ha; congruence).
  by rewrite <- Hs, setStatus_same.
Qed.

Lemma kill_wait_eq pid w :
  (procKill pid ;; procWait pid) w
  = Some (answers pid (procs w),
          setProcs (alter (setStatus Reaped) pid (procs w)) w).
Proof.
  unfold bind, procKill. rewrite procSignal_eq.
  destruct (answers pid (procs w)) eqn:Ha.
  - unfold answers in Ha. unfold procWait, sendTo, answers. simpl.
    destruct (procs w !! pid) as [p|] eqn:Hp; [|done].
    rewrite Ha. rewrite list_lookup_insert_eq by (by eapply lookup_lt_Some).
    apply bool_decide_eq_true in Ha.
    assert (status (deliver SIGKILL p) = Ended) as Hd
      by (unfold deliver; destruct (status p) eqn:Hs; simpl; congruence).
    rewrite Hd. rewrite list_insert_insert_eq, setProcs_setProcs.
    by rewrite (insert_reaped _ _ p) by (done || apply setStatus_deliver).
  - rewrite alter_reaped_id by done.
    unfold sendTo. rewrite Ha.
    replace (match procs w !! pid with Some _ | _ => procs w end)
      with (procs w) by (by destruct (procs w !! pid)).
    rewrite setProcs_same. unfold procWait. unfold answers in Ha.
    destruct (procs w !! pid) as [p|]; [|done].
    apply bool_decide_eq_false in Ha.
    destruct (status p); try done; exfalso; by apply Ha.
Qed.

Lemma killAll_eq cmds w :
  killAll cmds w = Some (tt, setProcs (reapAll (pidsOf cmds) (procs w)) w).
Proof.
  revert w. induction cmds as [|c cmds IH]; intros w; simpl.
  - unfold ret. by rewrite setProcs_same.
  - destruct c as [[[pid|] st]|]; simpl; try apply IH.
    pose proof (kill_wait_eq pid w) as Hkw. unfold bind in *.
    destruct (procKill pid w) as [[b1 w1]|]; [|done].
    destruct (procWait pid w1) as [[b2 w2]|]; [|done].
    injection Hkw as _ ->. by rewrite IH.
Qed.

Lemma reapAll_lookup pids ps i :
  reapAll pids ps !! i
  = if decide (i ∈ pids) then setStatus Reaped <$> ps !! i else ps !! i.
Proof.
  revert ps. induction pids as [|pid pids IH]; intros ps; [done|].
  change (reapAll (pid :: pids) ps)
    with (reapAll pids (alter (setStatus Reaped) pid ps)).
  rewrite IH. destruct (decide (i = pid)) as [->|Hne].
  - rewrite list_lookup_alter_eq.
    rewrite (decide_True (P := pid ∈ pid :: pids)) by constructor.
    destruct (decide (pid ∈ pids)); [|done]. by destruct (ps !! pid).
  - rewrite list_lookup_alter_ne by done.
    destruct (decide (i ∈ pids)).
    + by rewrite decide_True by (by constructor).
    + by rewrite decide_False by (by intros [?|?]%elem_of_cons).
Qed.

Lemma reapAll_length pids ps : length (reapAll pids ps) = length ps.
Proof.
  revert ps. induction pids as [|pid pids IH]; intros ps; [done|].
  change (reapAll (pid :: pids) ps)
    with (reapAll pids (alter (setStatus Reaped) pid ps)).
  by rewrite IH, length_alter.
Qed.

Lemma termTable_lookup_reaped pids ps i :
  setStatus Reaped <$> termTable pids ps !! i = setStatus Reaped <$> ps !! i.
Proof.
  revert ps. induction pids as [|pid pids IH]; intros ps; [done|].
  change (termTable (pid :: pids) ps) with (termTable pids (sendTo SIGTERM pid ps)).
  by rewrite IH, sendTo_lookup_reaped.
Qed.

Lemma termTable_lookup_ne pids ps i :
  i ∉ pids → termTable pids ps !! i = ps !! i.
Proof.
  revert ps. induction pids as [|pid pids IH]; intros ps Hi; [done|].
  change (termTable (pid :: pids) ps) with (termTable pids (sendTo SIGTERM pid ps)).
  apply not_elem_of_cons in Hi as [Hne Hi].
  rewrite IH by done. by apply sendTo_lookup_ne.
Qed.

(** What SIGTERM did is overwritten by Kill and Wait. *)
Lemma reapAll_termTable pids ps :
  reapAll pids (termTable pids ps) = reapAll pids ps.
Proof.
  apply list_eq; intros i. rewrite !reapAll_lookup.
  destruct (decide (i ∈ pids)).
  - apply termTable_lookup_reaped.
  - by apply termTable_lookup_ne.
Qed.

(** [stopHogs] always returns, with a nil error. *)
Lemma stopHogs_eq cmds w : stopHogs cmds w = Some (None, stopWorld cmds w).
Proof.
  unfold stopHogs, bind. rewrite termAll_eq. cbv beta iota.
  unfold timeNow at 1. cbv beta iota.
  rewrite (pollLoop_eq _ _ _ _ pollFuel); [|done|by vm_compute].
  cbn [procs clock setProcs].
  destruct (allQuiet cmds (termTable (pidsOf cmds) (procs w))) eqn:Hq.
  - rewrite killAll_eq. unfold ret, stopWorld. rewrite Hq. cbn [procs setProcs].
    by rewrite reapAll_termTable.
  - rewrite killAll_eq. unfold ret, stopWorld. rewrite Hq. cbn [procs setProcs setClock].
    by rewrite reapAll_termTable.
Qed.

Lemma settled_stopWorld cmds w : settled cmds (procs (stopWorld cmds w)).
Proof.
  unfold settled, stopWorld. cbn [procs]. apply Forall_forall. intros pid Hpid.
  unfold answers. rewrite reapAll_lookup, decide_True by done.
  by destruct (procs w !! pid).
Qed.

Lemma reapAll_settled pids ps :
  Forall (fun pid => answers pid ps = false) pids → reapAll pids ps = ps.
Proof.
  induction 1 as [|pid pids Hpid _ IH]; [done|].
  change (reapAll (pid :: pids) ps)
    with (reapAll pids (alter (setStatus Reaped) pid ps)).
  by rewrite alter_reaped_id.
Qed.

Lemma termTable_settled pids ps :
  Forall (fun pid => answers pid ps = false) pids → termTable pids ps = ps.
Proof.
  induction 1 as [|pid pids Hpid _ IH]; [done|].
  change (termTable (pid :: pids) ps) with (termTable pids (sendTo SIGTERM pid ps)).
  unfold sendTo at 1. rewrite Hpid.
  by replace (match ps !! pid with Some _ | _ => ps end) with ps
    by (by destruct (ps !! pid)).
Qed.

Lemma allQuiet_settled cmds ps : settled cmds ps → allQuiet cmds ps = true.
Proof.
  unfold settled. induction cmds as [|c cmds IH]; [done|]. simpl.
  destruct c as [[[pid|] st]|]; simpl; try done.
  intros [Hpid Hrest]%Forall_cons. rewrite Hpid, IH by done.
  by destruct st as [[]|].
Qed.

(** A second teardown of the same commands changes nothing. *)
Lemma stopWorld_settled cmds w : settled cmds (procs w) → stopWorld cmds w = w.
Proof.
  intros Hs. unfold stopWorld.
  rewrite termTable_settled, reapAll_settled, allQuiet_settled by done.
  by destruct w.
Qed.

Lemma stopWorld_clock cmds w :
  clock (stopWorld cmds w) = clock w
  ∨ clock (stopWorld cmds w) = clock w + 5 * Second.
Proof. unfold stopWorld. cbn [clock]. destruct (allQuiet _ _); auto. Qed.

End Teardown.

(* ===================================================================== *)
(** ** Launching a batch *)
(* ===================================================================== *)

Section Launch.

Import GoInt OS Bench Facts.
Local Open Scope os_scope.

Variable env : Env.
Variable cfg : Config.

Lemma cmdStart_eq i w :
  cmdStart env {| Main.memMiB := MemMiB cfg; Main.id := i;
                  Main.dirtyPct := dirtyOf cfg;
                  Main.redirtyMs := Milliseconds (redirtyOf cfg) |} w
  = if startOk env w (starts w)
    then Some (Ok {| Process := Some (length (procs w)); ProcessState := None |},
               launchWorld env cfg w i 1 0)
    else Some (Err (startErr env w (starts w)), launchWorld env cfg w i 0 1).
Proof.
  unfold cmdStart, startOk, startErr, launchWorld. simpl.
  destruct (ctxDone env w); simpl.
  - rewrite app_nil_r. do 3 f_equal. lia.
  - destruct (envLaunch env (starts w)) eqn:E; simpl.
    + rewrite app_nil_r. do 3 f_equal. lia.
    + unfold setProcs, newProc, hogArgs. rewrite E. simpl. do 3 f_equal. lia.
Qed.

Lemma startOk_clock w1 w2 n : clock w1 = clock w2 → startOk env w1 n = startOk env w2 n.
Proof. unfold startOk, ctxDone. by intros ->. Qed.

Lemma startErr_clock w1 w2 n : clock w1 = clock w2 → startErr env w1 n = startErr env w2 n.
Proof. unfold startErr, ctxDone. by intros ->. Qed.

Lemma launched_clock w1 w2 n k :
  clock w1 = clock w2 → launched env w1 n k = launched env w2 n k.
Proof.
  intros Hc. revert n. induction k as [|k IH]; intros n; [done|]. simpl.
  by rewrite (startOk_clock w1 w2), IH.
Qed.

Lemma launchWorld_step w i k e :
  launchWorld env cfg (launchWorld env cfg w i 1 0) (i + 1) k e
  = launchWorld env cfg w i (S k) e.
Proof.
  unfold launchWorld. cbn [procs starts clock spawned].
  rewrite <- app_assoc, Nat.add_0_r, Nat.add_1_r. cbn [app]. f_equal. lia.
Qed.

(** The loop of [startHogs]: either every launch succeeds, or the first
    failure tears down what was launched and is returned. *)
Lemma startLoop_eq k i cmds w :
  let m := launched env w (starts w) k in
  startLoop env cfg (dirtyOf cfg) (redirtyOf cfg) k i cmds w
  = if decide (m = k)
    then Some (Ok (cmds ++ handles (length (procs w)) k), launchWorld env cfg w i k 0)
    else Some (Err (startErr env w (starts w + m)),
               stopWorld (cmds ++ handles (length (procs w)) m)
                         (launchWorld env cfg w i m 1)).
Proof.
  revert i cmds w. induction k as [|k IH]; intros i cmds w m.
  - subst m. simpl. unfold ret, launchWorld. simpl.
    rewrite !app_nil_r, !Nat.add_0_r. by destruct w.
  - simpl. unfold bind. rewrite cmdStart_eq. subst m. simpl.
    destruct (startOk env w (starts w)) eqn:Hok.
    + rewrite IH. clear IH.
      set (w1 := launchWorld env cfg w i 1 0).
      assert (starts w1 = S (starts w)) as -> by (simpl; lia).
      assert (length (procs w1) = S (length (procs w))) as ->
        by (simpl; rewrite length_app; simpl; lia).
      rewrite (launched_clock w1 w), (startErr_clock w1 w) by done.
      subst w1. rewrite !launchWorld_step.
      set (m := launched env w (S (starts w)) k).
      rewrite <- !app_assoc. cbn [app handles].
      replace (S (starts w) + m)%nat with (starts w + S m)%nat by lia.
      destruct (decide (m = k)) as [Hm|Hm].
      * by rewrite decide_True by lia.
      * by rewrite decide_False by lia.
    + rewrite decide_False by lia. cbn [handles]. rewrite app_nil_r, Nat.add_0_r.
      by rewrite stopHogs_eq.
Qed.

Lemma startHogs_eq n w :
  let k := Z.to_nat n in
  let m := launched env w (starts w) k in
  startHogs env cfg n w
  = if decide (m = k)
    then Some (Ok (handles (length (procs w)) k), launchWorld env cfg w 0 k 0)
    else Some (Err (startErr env w (starts w + m)),
               stopWorld (handles (length (procs w)) m)
                         (launchWorld env cfg w 0 m 1)).
Proof.
  intros k m. unfold startHogs.
  rewrite (surjective_pairing (profileParams _ _)).
  fold (dirtyOf cfg) (redirtyOf cfg). subst k m. by rewrite startLoop_eq.
Qed.

End Launch.

(* ===================================================================== *)
(** ** One step of the run *)
(* ===================================================================== *)

Section Step.

Import GoInt OS Bench Facts.
Local Open Scope os_scope.

Variable env : Env.

Lemma countAliveFrom_eq cmds a w :
  countAliveFrom cmds a w = Some (a + aliveCount cmds (procs w), w).
Proof.
  revert a. induction cmds as [|c cmds IH]; intros a; simpl.
  - unfold ret. by rewrite Z.add_0_r.
  - destruct c as [[[pid|] st]|]; simpl; try apply IH.
    unfold bind. rewrite procSignal_eq, sendTo_Signal0, setProcs_same, IH.
    do 2 f_equal. destruct (answers pid (procs w)); lia.
Qed.

Lemma countAlive_eq cmds w :
  countAlive cmds w = Some (aliveCount cmds (procs w), w).
Proof. unfold countAlive. by rewrite countAliveFrom_eq. Qed.

Lemma awaitWarmup_eq cfg w w1 :
  clock w1 = clock w →
  awaitWarmup env (Warmup cfg) w1
  = Some (cancelsWarmup env cfg w, setClock (warmupEnd env cfg w) w1).
Proof.
  intros Hc. unfold awaitWarmup, cancelsWarmup, warmupEnd. rewrite Hc.
  destruct (envCancelAt env) as [t|]; [|done].
  by destruct (t <=? clock w + Warmup cfg).
Qed.

(** [runStep] always returns. *)
Lemma runStep_eq cfg n res w :
  runStep env cfg n res w = Some (stepOutcome env cfg n res w).
Proof.
  unfold runStep, stepOutcome, bind. unfold timeNow at 1. cbv beta iota.
  rewrite startHogs_eq. cbv zeta.
  set (k := Z.to_nat n). set (m := launched env w (starts w) k).
  destruct (decide (m = k)) as [Hm|Hm]; [|done].
  rewrite (awaitWarmup_eq cfg w) by done.
  rewrite Hm.
  destruct (cancelsWarmup env cfg w).
  - by rewrite stopHogs_eq.
  - rewrite countAlive_eq. unfold timeNow. by rewrite stopHogs_eq.
Qed.

Lemma pidsOf_handles base k : pidsOf (handles base k) = seq base k.
Proof.
  revert base. induction k as [|k IH]; intros base; [done|].
  unfold pidsOf in *. simpl. by rewrite IH.
Qed.

Lemma spawned_length cfg n i k : length (spawned env cfg n i k) = k.
Proof.
  revert n i. induction k as [|k IH]; intros n i; [done|]. simpl. by rewrite IH.
Qed.

(** Reaping the processes appended last leaves the earlier ones alone. *)
Lemma reapAll_suffix (ps qs : list Proc) :
  reapAll (seq (length ps) (length qs)) (ps ++ qs)
  = ps ++ (setStatus Reaped <$> qs).
Proof.
  apply list_eq; intros i. rewrite reapAll_lookup.
  destruct (decide (i < length ps)%nat) as [Hlt|Hge].
  - rewrite decide_False by (rewrite elem_of_seq; lia).
    by rewrite !lookup_app_l.
  - rewrite !lookup_app_r by lia. rewrite list_lookup_fmap.
    destruct (decide (i ∈ seq (length ps) (length qs))) as [Hi|Hi]; [done|].
    rewrite elem_of_seq in Hi.
    rewrite (lookup_ge_None_2 qs) by lia. done.
Qed.

Lemma stopWorld_batch cfg w i m extra t :
  procs (stopWorld (handles (length (procs w)) m)
           (setClock t (launchWorld env cfg w i m extra)))
  = procs w ++ (setStatus Reaped <$> spawned env cfg (starts w) i m).
Proof.
  unfold stopWorld, launchWorld. cbn [procs setClock].
  rewrite pidsOf_handles.
  rewrite <- (spawned_length cfg (starts w) i m) at 1.
  apply reapAll_suffix.
Qed.

(** Whatever the outcome of a step, every process it launched has been
    reaped when it ends, and no other process has changed. *)
Lemma stepOutcome_procs cfg n res w :
  procs (stepOutcome env cfg n res w).2
  = procs w ++ (setStatus Reaped <$>
                  spawned env cfg (starts w) 0 (launched env w (starts w) (Z.to_nat n))).
Proof.
  unfold stepOutcome.
  set (k := Z.to_nat n). set (m := launched env w (starts w) k).
  destruct (decide (m = k)) as [Hm|Hm].
  - rewrite <- Hm. destruct (cancelsWarmup env cfg w); apply stopWorld_batch.
  - cbn [snd]. rewrite <- (setClock_same (launchWorld env cfg w 0 m 1)).
    apply stopWorld_batch.
Qed.

Lemma Forall_isReaped_fmap (qs : list Proc) :
  Forall isReaped (setStatus Reaped <$> qs).
Proof. apply Forall_fmap, Forall_true. done. Qed.

Lemma launched_first_failure w n k m :
  (m < k)%nat →
  (∀ j, (j < m)%nat → startOk env w (n + j) = true) →
  startOk env w (n + m) = false →
  launched env w n k = m.
Proof.
  revert n m. induction k as [|k IH]; intros n m Hlt Hok Hfail; [lia|].
  simpl. destruct m as [|m].
  - rewrite Nat.add_0_r in Hfail. by rewrite Hfail.
  - rewrite <- (Nat.add_0_r n) at 1. rewrite (Hok 0%nat) by lia.
    f_equal. apply IH; [lia| |].
    + intros j Hj. replace (S n + j)%nat with (n + S j)%nat by lia. apply Hok. lia.
    + by replace (S n + m)%nat with (n + S m)%nat by lia.
Qed.

Lemma runLoop_eq cfg ns res w :
  runLoop env cfg ns res w = Some (loopOutcome env cfg ns res w).
Proof.
  revert res w. induction ns as [|n ns IH]; intros res w; simpl; [done|].
  destruct (n <=? 0); [apply IH|].
  unfold bind. rewrite runStep_eq.
  destruct (stepOutcome env cfg n res w) as [[res' [err|]] w']; [done|apply IH].
Qed.

End Step.

(* ===================================================================== *)
(** ** Teardown and rollback *)
(* ===================================================================== *)

Section TeardownClaims.

Import GoInt OS Bench Facts.


Variable env : Env.


End TeardownClaims.


(* ===================================================================== *)
(** ** The run *)
(* ===================================================================== *)

Section RunFacts.

Import GoInt OS Bench Facts.

Variable env : Env.

Lemma String_eqb_empty s : String.eqb s EmptyString = false ↔ s ≠ EmptyString.
Proof. by destruct s. Qed.

(** Past its checks, [Run] is its loop followed by the write of the
    report. *)
Lemma Run_eq cfg0 w :
  ExecPath cfg0 ≠ EmptyString → Instances cfg0 ≠ [] →
  envMkdirAll env (OutDir (withDefaults cfg0)) = true →
  Run env cfg0 w
  = let cfg := withDefaults cfg0 in
    let out := loopOutcome env cfg (Instances cfg0) (startResult cfg w) w in
    Some ((Some out.1.1, finalError env out.1.2 out.2), out.2).
Proof.
  intros Hexe Hns Hmk. unfold Run.
  apply String_eqb_empty in Hexe. rewrite Hexe.
  cbn [Instances withDefaults].
  destruct (Instances cfg0) as [|n ns] eqn:Hi; [done|].
  rewrite Hmk. cbn [negb]. unfold bind, timeNow at 1. cbv beta iota.
  rewrite runLoop_eq. fold (startResult (withDefaults cfg0) w).
  cbv zeta.
  destruct (loopOutcome env (withDefaults cfg0) (n :: ns) _ w) as [[res' [err|]] w'];
    [done|].
  unfold timeNow, finalError. cbn [fst snd].
  by destruct (envWriteJSON env (clock w')).
Qed.

Lemma loopOutcome_app cfg pre post res w :
  loopOutcome env cfg (pre ++ post) res w
  = match loopOutcome env cfg pre res w with
    | ((res1, None), w1) => loopOutcome env cfg post res1 w1
    | out => out
    end.
Proof.
  revert res w. induction pre as [|n pre IH]; intros res w; simpl; [done|].
  destruct (n <=? 0); [apply IH|].
  destruct (stepOutcome env cfg n res w) as [[res' [err|]] w']; [done|apply IH].
Qed.

(** Non-positive counts are passed over. *)
Lemma loopOutcome_filter cfg ns res w :
  loopOutcome env cfg ns res w
  = loopOutcome env cfg (List.filter isPositive ns) res w.
Proof.
  revert res w. induction ns as [|n ns IH]; intros res w; simpl; [done|].
  unfold isPositive at 1.
  destruct (n <=? 0) eqn:Hn.
  - replace (0 <? n) with false by lia. apply IH.
  - replace (0 <? n) with true by lia. simpl. rewrite Hn.
    destruct (stepOutcome env cfg n res w) as [[res' [err|]] w']; [done|apply IH].
Qed.

(** Every process launched during the loop has been reaped when the loop
    ends, and no other process has changed. *)
Lemma loopOutcome_procs cfg ns res w :
  ∃ news, procs (loopOutcome env cfg ns res w).2 = procs w ++ news
          ∧ Forall isReaped news.
Proof.
  revert res w. induction ns as [|n ns IH]; intros res w; simpl.
  - exists []. by rewrite app_nil_r.
  - destruct (n <=? 0); [apply IH|].
    pose proof (stepOutcome_procs env cfg n res w) as Hstep.
    destruct (stepOutcome env cfg n res w) as [[res' [err|]] w']; simpl in *.
    + eexists. split; [exact Hstep|apply Forall_isReaped_fmap].
    + destruct (IH res' w') as (news & Hp & Hr).
      eexists. rewrite Hp, Hstep, <- app_assoc. split; [done|].
      apply Forall_app. split; [apply Forall_isReaped_fmap|done].
Qed.

(** A step that is not cancelled records one result, for its count. *)
Lemma stepOutcome_recorded cfg n res w :
  cancelsWarmup env cfg w = false →
  ∃ step, (stepOutcome env cfg n res w).1 = (appendStep res step, None)
          ∧ N step = n.
Proof.
  intros Hc. unfold stepOutcome. rewrite Hc.
  destruct (decide _); eexists; (split; [reflexivity|done]).
Qed.

Lemma cancelsWarmup_never cfg w :
  envCancelAt env = None → cancelsWarmup env cfg w = false.
Proof. unfold cancelsWarmup. by intros ->. Qed.

(** Without a cancellation the loop records exactly one step for each
    positive count, in the order of the counts. *)
Lemma loopOutcome_steps cfg ns res w :
  envCancelAt env = None →
  (loopOutcome env cfg ns res w).1.2 = None
  ∧ N <$> Steps (loopOutcome env cfg ns res w).1.1
    = (N <$> Steps res) ++ List.filter isPositive ns.
Proof.
  intros Hnc. revert res w. induction ns as [|n ns IH]; intros res w; simpl.
  - by rewrite app_nil_r.
  - unfold isPositive at 1. destruct (n <=? 0) eqn:Hn.
    + replace (0 <? n) with false by lia. apply IH.
    + replace (0 <? n) with true by lia.
      destruct (stepOutcome_recorded cfg n res w) as (step & Hs & HN);
        [by apply cancelsWarmup_never|].
      destruct (stepOutcome env cfg n res w) as [[res' err] w']. simpl in Hs.
      injection Hs as -> ->.
      destruct (IH (appendStep res step) w') as [IH1 IH2]. split; [done|].
      rewrite IH2. cbn [appendStep Steps]. rewrite fmap_app, <- app_assoc.
      by rewrite <- HN.
Qed.

End RunFacts.

Section RunClaims.

Import GoInt OS Bench Facts.

Variable env : Env.

(** C6.  Let the loop of [Run] have reached a count [n] with the results
    [res1] recorded so far, and let the spawn for [n] succeed.  If the
    context is done before the warmup is over, [Run] returns [res1] (every
    step recorded before, and nothing else) together with the error of the
    context, and when it returns every process of the current step has
    been reaped.  (At the very instant the warmup ends the [select] may
    take either branch; the statement is about a context done before.) *)
Theorem Run_cancelled_in_warmup (cfg0 : Config) (w : World)
    (pre post : list Z) (n : Z) (res1 : RunResult) (w1 w2 : World)
    (cmds : Cmds) (t : Z) :
  let cfg := withDefaults cfg0 in
  ExecPath cfg0 ≠ EmptyString →
  envMkdirAll env (OutDir cfg) = true →
  Instances cfg0 = pre ++ n :: post → 0 < n →
  runLoop env cfg pre (startResult cfg w) w = Some ((res1, None), w1) →
  startHogs env cfg n w1 = Some (Ok cmds, w2) →
  envCancelAt env = Some t → t < clock w2 + Warmup cfg →
  ∃ w', Run env cfg0 w = Some ((Some res1, Some ctxErr), w')
    ∧ (∀ pid, pid ∈ pidsOf cmds →
         ∃ p, procs w' !! pid = Some p ∧ status p = Reaped)
    ∧ settled cmds (procs w').
Proof.
  intros cfg Hexe Hmk Hns Hn Hpre Hstart Hcancel Ht.
  rewrite runLoop_eq in Hpre. injection Hpre as Hpre.
  rewrite startHogs_eq in Hstart. cbv zeta in Hstart.
  set (k := Z.to_nat n) in *.
  destruct (decide (launched env w1 (starts w1) k = k)) as [Hm|Hm]; [|done].
  injection Hstart as <- <-.
  assert (Hc : cancelsWarmup env cfg w1 = true).
  { unfold cancelsWarmup. rewrite Hcancel. cbn [clock launchWorld] in Ht.
    apply Z.leb_le. lia. }
  set (hs := handles (length (procs w1)) k).
  set (w' := stopWorld hs (setClock (warmupEnd env cfg w1)
                             (launchWorld env cfg w1 0 k 0))).
  assert (Hout : loopOutcome env cfg (Instances cfg0) (startResult cfg w) w
                 = ((res1, Some ctxErr), w')).
  { rewrite Hns, loopOutcome_app, Hpre. simpl.
    replace (n <=? 0) with false by lia.
    unfold stepOutcome. fold k. rewrite Hm, decide_True, Hc by done. done. }
  exists w'. split.
  { rewrite Run_eq; [|done|by rewrite Hns; destruct pre|done].
    cbv zeta. fold cfg. by rewrite Hout. }
  split; [|apply settled_stopWorld].
  intros pid Hpid. subst w' hs. rewrite stopWorld_batch.
  rewrite pidsOf_handles in Hpid. apply elem_of_seq in Hpid.
  rewrite lookup_app_r by lia. rewrite list_lookup_fmap.
  destruct (lookup_lt_is_Some_2 (spawned env cfg (starts w1) 0 k)
              (pid - length (procs w1))) as [p Hp].
  { rewrite spawned_length. lia. }
  rewrite Hp. by eexists.
Qed.


(** C10.  The loop of [Run] passes over every count that is not positive:
    it behaves as on the list without them, and such a count adds no step,
    starts nothing and changes nothing.  A non-empty list of such counts
    alone therefore is no configuration error: past its other checks [Run]
    returns a result without steps, with a nil error when the report is
    written, and leaves the world as it was. *)
Theorem Run_skips_nonpositive (cfg0 : Config) (w : World) :
  let cfg := withDefaults cfg0 in
  (∀ ns res w1,
     runLoop env cfg ns res w1
     = runLoop env cfg (List.filter isPositive ns) res w1)
  ∧ (∀ n rest res w1, n <= 0 →
     runLoop env cfg (n :: rest) res w1 = runLoop env cfg rest res w1)
  ∧ (∀ ns res w1, Forall (fun n => n <= 0) ns →
     runLoop env cfg ns res w1 = Some ((res, None), w1))
  ∧ (Instances cfg0 ≠ [] → Forall (fun n => n <= 0) (Instances cfg0) →
     ExecPath cfg0 ≠ EmptyString → envMkdirAll env (OutDir cfg) = true →
     Run env cfg0 w
     = Some ((Some (startResult cfg w), finalError env None w), w)
     ∧ Steps (startResult cfg w) = []
     ∧ (envWriteJSON env (clock w) = true → finalError env None w = None)).
Proof.
  intros cfg.
  assert (Hall : ∀ ns res w1, Forall (fun n => n <= 0) ns →
            loopOutcome env cfg ns res w1 = ((res, None), w1)).
  { intros ns res w1 Hall. induction Hall as [|n ns Hn _ IH]; [done|].
    simpl. by replace (n <=? 0) with true by lia. }
  split; [intros; by rewrite !runLoop_eq, <- loopOutcome_filter|].
  split; [intros n rest res w1 Hn; simpl; by replace (n <=? 0) with true by lia|].
  split; [intros; by rewrite runLoop_eq, Hall|].
  intros Hns Hnon Hexe Hmk. split; [|split; [done|]].
  - rewrite Run_eq by done. cbv zeta. fold cfg. by rewrite Hall.
  - unfold finalError. by intros ->.
Qed.

End RunClaims.

(** The context is done in the second warmup: the first step is returned,
    the two workloads of the second step are reaped. *)
Lemma Run_cancelled_in_warmup_witness :
  ∃ w', Bench.Run Scenario.cancelEnv Scenario.twoSteps Scenario.idleWorld
        = Some ((Some Scenario.afterFirstStep.1.1, Some Bench.ctxErr), w')
    ∧ (∀ pid, pid ∈ Facts.pidsOf (Facts.handles 1 2) →
         ∃ p, OS.procs w' !! pid = Some p ∧ OS.status p = OS.Reaped)
    ∧ Facts.settled (Facts.handles 1 2) (OS.procs w').
Proof.
  apply (Run_cancelled_in_warmup Scenario.cancelEnv Scenario.twoSteps
           Scenario.idleWorld [1] [] 2 Scenario.afterFirstStep.1.1
           Scenario.afterFirstStep.2
           (Facts.launchWorld Scenario.cancelEnv
              (Bench.withDefaults Scenario.twoSteps)
              Scenario.afterFirstStep.2 0 2 0)
           (Facts.handles 1 2) (30 * Bench.Second)).
  - discriminate.
  - reflexivity.
  - reflexivity.
  - lia.
  - vm_compute. reflexivity.
  - vm_compute. reflexivity.
  - reflexivity.
  - vm_compute. reflexivity.
Defined.



(** Counts [1; 2], nothing fails: every workload is alive after its
    warmup, and after the run the three processes have been reaped; the run
    lasted two warmups of 20s and two teardowns of 5s. *)
Example Run_two_steps :
  ∃ res w',
    Bench.Run Scenario.calmEnv Scenario.twoSteps Scenario.idleWorld
    = Some ((Some res, None), w')
    ∧ (fun s => (Bench.N s, Bench.Alive s, Bench.Notes s)) <$> Bench.Steps res
      = [(1, 1, EmptyString); (2, 2, EmptyString)]
    ∧ OS.status <$> OS.procs w' = [OS.Reaped; OS.Reaped; OS.Reaped]
    ∧ OS.clock w' = 50 * Bench.Second.
Proof. eexists _, _. split; [vm_compute; reflexivity|]. by vm_compute. Qed.

(** The counts [0; -3]: no step, no error, and the world as it was. *)
Lemma Run_skips_nonpositive_witness :
  Bench.Run Scenario.calmEnv (Scenario.demoConfig "densityctl" [0; -3])
    Scenario.idleWorld
  = Some ((Some (Facts.startResult
                   (Bench.withDefaults (Scenario.demoConfig "densityctl" [0; -3]))
                   Scenario.idleWorld), None), Scenario.idleWorld)
  ∧ Bench.Steps (Facts.startResult
                   (Bench.withDefaults (Scenario.demoConfig "densityctl" [0; -3]))
                   Scenario.idleWorld) = [].
Proof.
  destruct (Run_skips_nonpositive Scenario.calmEnv
              (Scenario.demoConfig "densityctl" [0; -3]) Scenario.idleWorld)
    as (_ & _ & _ & Hrun).
  destruct Hrun as (Hrun & Hsteps & Hwrite).
  - discriminate.
  - repeat constructor; lia.
  - discriminate.
  - reflexivity.
  - split; [|exact Hsteps]. rewrite Hrun, Hwrite; reflexivity.
Defined.

(** Counts that are not positive only: a result without steps, no error,
    and the world as it was. *)
Example Run_nonpositive_only :
  Bench.Run Scenario.calmEnv (Scenario.demoConfig "densityctl" [0; -3])
    Scenario.idleWorld
  = Some ((Some {| Bench.StartedAt := 0; Bench.resProfile := Bench.ProfileP1;
                   Bench.Steps := [] |}, None), Scenario.idleWorld).
Proof. vm_compute. reflexivity. Qed.

(* ===================================================================== *)
(** ** The parameters of the workloads *)
(* ===================================================================== *)

Section Profiles.

Import GoInt OS Bench Facts.

Lemma spawned_args env cfg n i k p :
  p ∈ spawned env cfg n i k → ∃ j, i <= j < i + Z.of_nat k ∧ args p = hogArgs cfg j.
Proof.
  revert n i. induction k as [|k IH]; intros n i; simpl.
  - by intros ?%elem_of_nil.
  - intros [->|Hp]%elem_of_cons.
    + exists i. split; [lia|done].
    + destruct (IH _ _ Hp) as (j & Hj & Hargs). exists j. split; [lia|done].
Qed.

(** C4.  The switch of [startHogs] maps P1 to 0% without redirty, P2 to
    5% without redirty, and P3 to 50% with the interval of the
    configuration when that is positive and one second otherwise; any other
    profile is treated as P1.  The interval matters for P3 only.  Every
    workload that [startHogs] launches is started with the dirty fraction
    of the profile and with its interval in whole milliseconds. *)
Theorem profileParams_spec (interval : Duration) :
  profileParams ProfileP1 interval = (F64.ofZ 0, 0)
  ∧ profileParams ProfileP2 interval = (F64.ofZ 5, 0)
  ∧ profileParams ProfileP3 interval
    = (F64.ofZ 50, if 0 <? interval then interval else 1 * Second)
  ∧ (∀ p, p ≠ ProfileP1 → p ≠ ProfileP2 → p ≠ ProfileP3 →
       profileParams p interval = (F64.ofZ 0, 0))
  ∧ (∀ p i1 i2, p ≠ ProfileP3 → profileParams p i1 = profileParams p i2)
  ∧ (∀ env cfg n w cmds w',
       startHogs env cfg n w = Some (Ok cmds, w') →
       length cmds = Z.to_nat n
       ∧ ∀ pid, pid ∈ pidsOf cmds →
           ∃ p, procs w' !! pid = Some p
                ∧ status p = Running
                ∧ Main.dirtyPct (args p)
                  = (profileParams (cfgProfile cfg) (Interval cfg)).1
                ∧ Main.redirtyMs (args p)
                  = Milliseconds (profileParams (cfgProfile cfg) (Interval cfg)).2
                ∧ Main.memMiB (args p) = MemMiB cfg).
Proof.
  split; [done|]. split; [done|]. split; [done|]. split; [|split].
  - intros p H1 H2 H3. unfold profileParams.
    apply String.eqb_neq in H1, H2, H3. by rewrite H1, H2, H3.
  - intros p i1 i2 H3. unfold profileParams.
    apply String.eqb_neq in H3. rewrite H3.
    by destruct (String.eqb p ProfileP1), (String.eqb p ProfileP2).
  - intros env cfg n w cmds w' Hstart.
    rewrite startHogs_eq in Hstart. cbv zeta in Hstart.
    destruct (decide _) as [Hm|Hm]; [|done]. injection Hstart as <- <-.
    assert (Hlen : ∀ base k, length (handles base k) = k).
    { intros base k. revert base. induction k as [|k IH]; intros base; [done|].
      simpl. by rewrite IH. }
    split; [apply Hlen|].
    intros pid Hpid. rewrite pidsOf_handles in Hpid. apply elem_of_seq in Hpid.
    unfold launchWorld. cbn [procs].
    rewrite lookup_app_r by lia.
    destruct (lookup_lt_is_Some_2 (spawned env cfg (starts w) 0 (Z.to_nat n))
                (pid - length (procs w))) as [p Hp].
    { rewrite spawned_length. lia. }
    exists p. split; [done|].
    assert (Hin : p ∈ spawned env cfg (starts w) 0 (Z.to_nat n))
      by (by eapply list_elem_of_lookup_2).
    destruct (spawned_args _ _ _ _ _ _ Hin) as (j & _ & Hargs).
    rewrite Hargs. split; [|done].
    clear -Hin. revert Hin. generalize (starts w), 0, (Z.to_nat n).
    intros s i k. revert s i. induction k as [|k IH]; intros s i; simpl.
    + by intros ?%elem_of_nil.
    + intros [->|Hp]%elem_of_cons; [done|by eapply IH].
Qed.

End Profiles.

(* ===================================================================== *)
(** ** The workload process *)
(* ===================================================================== *)

Section Hog.

Import GoInt Main FloatValue.

Lemma wrapU64_index id j :
  wrapU64 (wrapU64 (wrapU64 id * 1315423911) + wrapU64 (wrapU64 j * 2654435761))
  = (id * 1315423911 + j * 2654435761) mod 2 ^ 64.
Proof.
  unfold wrapU64, two64.
  rewrite !Z.mul_mod_idemp_l by lia.
  by rewrite <- Z.add_mod by lia.
Qed.

Lemma dirtyIndices_nil id total dirty : dirty <= 0 → dirtyIndices id total dirty = [].
Proof. intros H. unfold dirtyIndices. by rewrite seqZ_nil. Qed.

(** For the dirty fractions 0, 50 and 100 the count is the exact one. *)
Lemma dirtyCount_exact total :
  0 < total < 2 ^ 53 →
  dirtyCount total (F64.ofZ 0) = 0
  ∧ dirtyCount total (F64.ofZ 50) = total * 50 / 100
  ∧ dirtyCount total (F64.ofZ 100) = total * 100 / 100.
Proof.
  intros Ht. destruct total as [|a|a]; try lia.
  assert (Ha : Zpos (Pos.size a) <= 53) by (apply size_le_53; lia).
  unfold dirtyCount. rewrite ofZ_exact by done.
  change (F64.div (F64.ofZ 0) (F64.ofZ 100)) with (S754_zero false).
  change (F64.div (F64.ofZ 50) (F64.ofZ 100))
    with (S754_finite false 4503599627370496 (-53)).
  change (F64.div (F64.ofZ 100) (F64.ofZ 100))
    with (S754_finite false 4503599627370496 (-52)).
  split; [done|]. rewrite !mul_pow2_exact by (done || lia). split.
  - replace (Zpos (Pos.size a) - 53 + -53 + 52)
      with (Zpos (Pos.size a) - 53 - 1) by lia.
    rewrite toInt_normal by (done || lia).
    change (2 ^ 1) with 2.
    rewrite <- (Z.div_mul_cancel_r (Zpos a) 2 50) by lia. done.
  - replace (Zpos (Pos.size a) - 53 + -52 + 52)
      with (Zpos (Pos.size a) - 53 - 0) by lia.
    rewrite toInt_normal by (done || lia).
    rewrite Z.div_mul by lia. change (2 ^ 0) with 1. by rewrite Z.div_1_r.
Qed.



(** With the default 256 MiB and pages of 4096 bytes, the dirty fractions
    of the three profiles give the exact counts. *)
Example dirtyCount_profiles :
  dirtyCount 65536 (F64.ofZ 0) = 0
  ∧ dirtyCount 65536 (F64.ofZ 5) = 65536 * 5 / 100
  ∧ dirtyCount 65536 (F64.ofZ 50) = 65536 * 50 / 100.
Proof. by vm_compute. Qed.

Lemma hogSize_small m : 0 <= m < 2 ^ 43 → hogSize m = m * 2 ^ 20.
Proof.
  intros Hm. unfold hogSize.
  rewrite (wrap64_id (m * 1024)) by (unfold inInt64, minInt64, maxInt64, two63; lia).
  rewrite wrap64_id by (unfold inInt64, minInt64, maxInt64, two63; lia). lia.
Qed.

(** Where the product does not overflow, the checks of [cmdHog] reject what
    they are meant to reject, before any allocation. *)
Lemma cmdHog_rejects pageSize f :
  (memMiB f <= 0 → cmdHog pageSize f = HogRejected ErrMemMiB)
  ∧ (0 < memMiB f →
     F64.ltb (dirtyPct f) (F64.ofZ 0) = true ∨ F64.ltb (F64.ofZ 100) (dirtyPct f) = true →
     cmdHog pageSize f = HogRejected ErrDirtyPct)
  ∧ (0 < memMiB f < 2 ^ 43 →
     F64.ltb (dirtyPct f) (F64.ofZ 0) = false →
     F64.ltb (F64.ofZ 100) (dirtyPct f) = false →
     2 ^ 31 - 1 < memMiB f * 2 ^ 20 →
     cmdHog pageSize f = HogRejected ErrTooBig).
Proof.
  unfold cmdHog. split; [|split].
  - intros H. by replace (memMiB f <=? 0) with true by lia.
  - intros H [-> | ->]; replace (memMiB f <=? 0) with false by lia; [done|].
    by rewrite orb_true_r.
  - intros H -> -> Hbig. replace (memMiB f <=? 0) with false by lia. simpl.
    rewrite hogSize_small by lia.
    by replace (MaxInt32 <? memMiB f * 2 ^ 20) with true by (unfold MaxInt32; lia).
Qed.

(** C9, where the code departs from it.  A request of 2^44 MiB (2^64
    bytes) passes the size check, because the product wraps to 0 in int64:
    a buffer of length 0 is allocated and the process serves.  A request of
    2^43 MiB wraps to a negative size and panics in [make]; and a dirty
    fraction that is not a number passes the range check. *)
Theorem cmdHog_oversized_accepted (pageSize : Z) :
  MaxInt32 < 2 ^ 44 * 2 ^ 20
  ∧ hogSize (2 ^ 44) = 0
  ∧ cmdHog pageSize {| memMiB := 2 ^ 44; id := 0; dirtyPct := F64.ofZ 0;
                       redirtyMs := 0 |}
    = HogServing {| bufLen := 0; totalPages := 0; dirtyPages := 0; indices := [] |}
  ∧ cmdHog pageSize {| memMiB := 2 ^ 43; id := 0; dirtyPct := F64.ofZ 0;
                       redirtyMs := 0 |}
    = HogPanic
  ∧ cmdHog 4096 {| memMiB := 1; id := 0; dirtyPct := S754_nan; redirtyMs := 0 |}
    = HogPanic.
Proof.
  split; [done|]. split; [done|]. split; [|split; done].
  unfold cmdHog. cbn [memMiB dirtyPct id].
  change (hogSize (2 ^ 44)) with 0.
  change (Z.quot 0 pageSize) with 0. done.
Qed.

End Hog.

(* ===================================================================== *)
(** ** The scale of a benchmark *)
(* ===================================================================== *)

Section Scale.

Import GoInt Main Facts.

Lemma scaleValues_S min step count :
  scaleValues min step (S count) = min :: scaleValues (min + step) step count.
Proof.
  unfold scaleValues. simpl. f_equal; [lia|].
  rewrite <- fmap_S_seq, <- list_fmap_compose.
  apply list_fmap_ext. intros _ k _. simpl. lia.
Qed.

(** The loop of [parseScale] ends when the counter cannot overflow, and
    yields the values from [i] to [max] in steps of [step]. *)
Lemma scaleLoop_ok (count : nat) (fuel : nat) (i max step : Z) :
  0 < step → max + step <= maxInt64 → minInt64 <= i →
  (i <= max → Z.of_nat count = (max - i) / step + 1) →
  (max < i → count = 0%nat) →
  (count <= fuel)%nat →
  scaleLoop fuel i max step = Some (scaleValues i step count).
Proof.
  intros Hstep Hmax. revert fuel i.
  induction count as [|count IH]; intros fuel i Hi Hle Hgt Hfuel.
  - assert (max < i).
    { destruct (decide (max < i)); [done|].
      assert (0 <= (max - i) / step) by (apply Z.div_pos; lia). lia. }
    destruct fuel; simpl; by replace (i <=? max) with false by lia.
  - assert (i <= max) by (destruct (decide (i <= max)); [done|lia]).
    destruct fuel as [|fuel]; [lia|]. simpl.
    replace (i <=? max) with true by lia.
    rewrite wrap64_id by (unfold inInt64, minInt64, maxInt64 in *; lia).
    assert (Hdiv : (max - i) / step = Z.of_nat count) by lia.
    rewrite (IH fuel (i + step)); [by rewrite scaleValues_S|lia| | |lia].
    + intros Hnext.
      replace (max - (i + step)) with ((max - i) + (-1) * step) by lia.
      rewrite Z.div_add by lia. lia.
    + intros Hnext. destruct count as [|count]; [done|].
      assert (step * 1 <= max - i).
      { transitivity (step * ((max - i) / step)); [nia|].
        apply Z.mul_div_le. lia. }
      lia.
Qed.

Lemma scaleRange_ok fuel min max step :
  0 < min → min <= max → 0 < step → max + step <= maxInt64 →
  (scaleCount min max step <= fuel)%nat →
  scaleRange fuel min max step
  = Some (Ok (scaleValues min step (scaleCount min max step))).
Proof.
  intros Hmin Hle Hstep Hmax Hfuel. unfold scaleRange.
  replace (min <=? 0) with false by lia.
  replace (max <=? 0) with false by lia.
  replace (max <? min) with false by lia. simpl.
  assert (0 <= (max - min) / step) by (apply Z.div_pos; lia).
  rewrite (scaleLoop_ok (scaleCount min max step)); try done.
  - unfold minInt64, two63. lia.
  - intros _. unfold scaleCount. lia.
  - lia.
Qed.



End Scale.

(* ===================================================================== *)
(** ** Printing and parsing of integers *)
(* ===================================================================== *)

Section TextFacts.

Import GoInt Strings Strconv Text.

Lemma digitVal_digitChar d : 0 <= d < 10 → digitVal (digitChar d) = Some d.
Proof.
  intros Hd. unfold digitVal, digitChar.
  rewrite Ascii.nat_ascii_embedding by lia.
  replace ((48 <=? 48 + Z.to_nat d)%nat && (48 + Z.to_nat d <=? 57)%nat)
    with true by (symmetry; apply andb_true_iff; split; apply Nat.leb_le; lia).
  f_equal. lia.
Qed.

(** Reading the digits of [n] back continues the number read so far. *)
Lemma parseDigits_formatDigits fuel n acc :
  0 <= n < 10 ^ Z.of_nat (S fuel) →
  ∃ k, 0 < k ∧ ∀ a, parseDigits a (formatDigits (S fuel) n acc)
                    = parseDigits (a * 10 ^ k + n) acc.
Proof.
  revert n acc. induction fuel as [|fuel IH]; intros n acc Hn.
  - change (10 ^ Z.of_nat 1) with 10 in Hn. exists 1. split; [lia|]. intros a.
    cbn [formatDigits]. replace (n <? 10) with true by lia. cbn [parseDigits].
    rewrite Z.mod_small by lia. rewrite digitVal_digitChar by lia.
    by rewrite Z.pow_1_r.
  - remember (S fuel) as f eqn:Hf. cbn [formatDigits]. destruct (n <? 10) eqn:Hlt.
    + exists 1. split; [lia|]. intros a. cbn [parseDigits].
      rewrite Z.mod_small by lia. rewrite digitVal_digitChar by lia.
      by rewrite Z.pow_1_r.
    + subst f.
      destruct (IH (n / 10) (String (digitChar (n mod 10)) acc)) as (k & Hk & IHk).
      { rewrite (Nat2Z.inj_succ (S fuel)), Z.pow_succ_r in Hn by lia.
        split; [apply Z.div_pos; lia|]. apply Z.div_lt_upper_bound; lia. }
      exists (k + 1). split; [lia|]. intros a. rewrite IHk. cbn [parseDigits].
      rewrite digitVal_digitChar by (apply Z.mod_pos_bound; lia).
      f_equal. rewrite Z.pow_add_r, Z.pow_1_r by lia.
      pose proof (Z.div_mod n 10). lia.
Qed.

(** The first byte of a printed number is a digit. *)
Lemma formatDigits_head fuel n acc :
  0 <= n →
  ∃ d r, 0 <= d < 10 ∧ formatDigits (S fuel) n acc = String (digitChar d) r.
Proof.
  revert n acc. induction fuel as [|fuel IH]; intros n acc Hn.
  - cbn [formatDigits]. exists (n mod 10). destruct (n <? 10); eexists;
      (split; [apply Z.mod_pos_bound; lia|done]).
  - remember (S fuel) as f eqn:Hf. cbn [formatDigits]. destruct (n <? 10).
    + exists (n mod 10). eexists. split; [apply Z.mod_pos_bound; lia|done].
    + subst f. apply IH. apply Z.div_pos; lia.
Qed.

Lemma isDigit_digitChar d : 0 <= d < 10 → isDigit (digitChar d) = true.
Proof.
  intros Hd. unfold isDigit, digitChar.
  rewrite Ascii.nat_ascii_embedding by lia.
  apply andb_true_iff; split; apply Nat.leb_le; lia.
Qed.

Lemma allChars_impl (P Q : ascii -> bool) s :
  (∀ c, P c = true → Q c = true) → allChars P s = true → allChars Q s = true.
Proof.
  intros HPQ. induction s as [|c r IH]; [done|]. cbn [allChars].
  rewrite !andb_true_iff. intros [Hc Hr]. auto.
Qed.

Lemma allChars_app P s t :
  allChars P (s ++ t) = allChars P s && allChars P t.
Proof.
  induction s as [|c r IH]; [done|]. simpl. by rewrite IH, andb_assoc.
Qed.

Lemma formatDigits_digits fuel n acc :
  0 <= n → allChars isDigit acc = true →
  allChars isDigit (formatDigits fuel n acc) = true.
Proof.
  revert n acc. induction fuel as [|fuel IH]; intros n acc Hn Hacc; [done|].
  cbn [formatDigits].
  assert (allChars isDigit (String (digitChar (n mod 10)) acc) = true).
  { cbn [allChars]. rewrite Hacc, isDigit_digitChar; [done|].
    apply Z.mod_pos_bound; lia. }
  destruct (n <? 10); [done|]. apply IH; [apply Z.div_pos; lia|done].
Qed.

Lemma FormatInt_numeric v : allChars isNumeric (FormatInt v) = true.
Proof.
  unfold FormatInt. destruct (v <? 0) eqn:Hv.
  - cbn [allChars]. apply andb_true_iff. split; [done|].
    apply (allChars_impl isDigit); [by intros c Hc; unfold isNumeric; rewrite Hc|].
    apply formatDigits_digits; [lia|done].
  - apply (allChars_impl isDigit); [by intros c Hc; unfold isNumeric; rewrite Hc|].
    apply formatDigits_digits; [lia|done].
Qed.

Lemma FormatInt_nonempty v : FormatInt v ≠ EmptyString.
Proof.
  unfold FormatInt. destruct (v <? 0) eqn:Hv; [done|].
  destruct (formatDigits_head 18 v EmptyString) as (d & r & _ & ->); [lia|done].
Qed.

Lemma isNumeric_not_space c : isNumeric c = true → isSpace c = false.
Proof.
  unfold isNumeric, isDigit, isSpace. intros H.
  apply orb_true_iff in H as [H | H].
  - apply andb_true_iff in H as [H1 H2].
    apply Nat.leb_le in H1. apply Nat.leb_le in H2.
    apply orb_false_iff. split.
    + apply andb_false_iff. right. apply Nat.leb_gt. lia.
    + apply Nat.eqb_neq. lia.
  - apply Ascii.eqb_eq in H. by subst c.
Qed.

Lemma trimLeft_id s :
  allChars (fun c => negb (isSpace c)) s = true → trimLeft s = s.
Proof.
  destruct s as [|c r]; [done|]. cbn [allChars trimLeft].
  intros [Hc _]%andb_true_iff. by destruct (isSpace c).
Qed.

Lemma trimRight_id s :
  s ≠ EmptyString → allChars (fun c => negb (isSpace c)) s = true →
  trimRight s = Some s.
Proof.
  induction s as [|c r IH]; [done|]. intros _. cbn [allChars trimRight].
  intros [Hc Hr]%andb_true_iff. destruct r as [|c' r'].
  - simpl. by destruct (isSpace c).
  - by rewrite IH.
Qed.

(** [strings.TrimSpace] leaves a string without white space as it is. *)
Lemma TrimSpace_id s :
  allChars (fun c => negb (isSpace c)) s = true → TrimSpace s = s.
Proof.
  intros Hs. unfold TrimSpace. rewrite trimLeft_id by done.
  destruct s as [|c r]; [done|]. by rewrite trimRight_id.
Qed.

Lemma TrimSpace_FormatInt v : TrimSpace (FormatInt v) = FormatInt v.
Proof.
  apply TrimSpace_id. apply (allChars_impl isNumeric); [|apply FormatInt_numeric].
  intros c Hc. by rewrite isNumeric_not_space.
Qed.

Lemma Atoi_FormatInt v : inInt64 v → Atoi (FormatInt v) = Some v.
Proof.
  intros Hv.
  assert (Hr : inInt64b v = true).
  { unfold inInt64, inInt64b in *. apply andb_true_iff. lia. }
  assert (Hpow : 10 ^ Z.of_nat 19 = 10000000000000000000) by done.
  unfold FormatInt. destruct (v <? 0) eqn:Hneg.
  - unfold Atoi. change (Ascii.eqb "-" "-") with true. cbn [orb].
    destruct (formatDigits_head 18 (- v) EmptyString) as (d & r & Hd & Hhead); [lia|].
    destruct (parseDigits_formatDigits 18 (- v) EmptyString) as (k & Hk & Hparse).
    { unfold inInt64, minInt64, two63 in Hv. lia. }
    rewrite Hparse. rewrite Hhead. cbn [parseDigits].
    rewrite Z.mul_0_l, Z.add_0_l, Z.opp_involutive. by rewrite Hr.
  - destruct (formatDigits_head 18 v EmptyString) as (d & r & Hd & Hhead); [lia|].
    destruct (parseDigits_formatDigits 18 v EmptyString) as (k & Hk & Hparse).
    { unfold inInt64, maxInt64, two63 in Hv. lia. }
    unfold Atoi. rewrite Hhead.
    assert (Hdig := isDigit_digitChar d Hd).
    assert (Ascii.eqb (digitChar d) "-" = false) as ->.
    { apply Ascii.eqb_neq. intros E. rewrite E in Hdig. done. }
    assert (Ascii.eqb (digitChar d) "+" = false) as ->.
    { apply Ascii.eqb_neq. intros E. rewrite E in Hdig. done. }
    cbn [orb]. rewrite <- Hhead, Hparse. cbn [parseDigits].
    rewrite Z.mul_0_l, Z.add_0_l. by rewrite Hr.
Qed.

Lemma trimLeft_spaces w s :
  allChars isSpace w = true → trimLeft (w ++ s) = trimLeft s.
Proof.
  induction w as [|c r IH]; [done|]. cbn [allChars].
  intros [Hc Hr]%andb_true_iff. simpl. rewrite Hc. auto.
Qed.

Lemma trimRight_spaces w : allChars isSpace w = true → trimRight w = None.
Proof.
  induction w as [|c r IH]; [done|]. cbn [allChars trimRight].
  intros [Hc Hr]%andb_true_iff. by rewrite IH, Hc.
Qed.

Lemma trimRight_padded s w :
  s ≠ EmptyString → allChars (fun c => negb (isSpace c)) s = true →
  allChars isSpace w = true → trimRight (s ++ w) = Some s.
Proof.
  intros Hne Hs Hw. induction s as [|c r IH]; [done|].
  cbn [allChars] in Hs. apply andb_true_iff in Hs as [Hc Hr].
  simpl. destruct r as [|c' r'].
  - simpl. rewrite trimRight_spaces by done. by destruct (isSpace c).
  - by rewrite IH.
Qed.

(** [strings.TrimSpace] removes the white space around a word. *)
Lemma TrimSpace_padded w1 s w2 :
  s ≠ EmptyString → allChars (fun c => negb (isSpace c)) s = true →
  allChars isSpace w1 = true → allChars isSpace w2 = true →
  TrimSpace (w1 ++ s ++ w2) = s.
Proof.
  intros Hne Hs Hw1 Hw2. unfold TrimSpace.
  rewrite trimLeft_spaces by done.
  assert (trimLeft (s ++ w2) = (s ++ w2)%string) as ->.
  { destruct s as [|c r]; [done|]. cbn [allChars] in Hs.
    apply andb_true_iff in Hs as [Hc Hr]. simpl. by destruct (isSpace c). }
  by rewrite trimRight_padded.
Qed.

End TextFacts.

(* ===================================================================== *)
(** ** The text of a scale *)
(* ===================================================================== *)

Section ScaleText.

Import GoInt Strings Strconv Text Main.

Lemma splitFrom_nonnil sep k s : splitFrom sep k s ≠ [].
Proof.
  revert k. induction s as [|c r IH]; intros k; [done|]. cbn [splitFrom].
  destruct k; [|apply IH]. destruct (String.prefix sep (String c r)); [done|].
  specialize (IH 0%nat). by destruct (splitFrom sep 0 r).
Qed.

(** A word without a dot stays in the piece it starts. *)
Lemma splitFrom_word a rest :
  allChars notDot a = true →
  splitFrom ".." 0 (a ++ rest)
  = match splitFrom ".." 0 rest with
    | p :: ps => (a ++ p)%string :: ps
    | [] => [a]
    end.
Proof.
  induction a as [|c r IH]; intros Ha.
  - change (EmptyString ++ rest)%string with rest.
    pose proof (splitFrom_nonnil ".." 0 rest).
    by destruct (splitFrom ".." 0 rest).
  - cbn [allChars] in Ha. apply andb_true_iff in Ha as [Hc Hr].
    change (String c r ++ rest)%string with (String c (r ++ rest)).
    cbn [splitFrom].
    assert (String.prefix ".." (String c (r ++ rest)) = false) as ->.
    { cbn [String.prefix]. unfold notDot in Hc. apply negb_true_iff in Hc.
      destruct (Ascii.ascii_dec "." c) as [E|Hne]; [|done].
      subst c. done. }
    rewrite IH by done.
    pose proof (splitFrom_nonnil ".." 0 rest).
    by destruct (splitFrom ".." 0 rest).
Qed.

Lemma splitFrom_sep rest :
  splitFrom ".." 0 (".." ++ rest) = EmptyString :: splitFrom ".." 0 rest.
Proof. by destruct rest. Qed.

Lemma append_empty (a : string) : (a ++ EmptyString)%string = a.
Proof.
  induction a as [|c r IH]; [done|].
  change (String c r ++ EmptyString)%string with (String c (r ++ EmptyString)).
  by rewrite IH.
Qed.

Lemma Split_word a : allChars notDot a = true → Split a ".." = [a].
Proof.
  intros Ha. unfold Split. rewrite <- (append_empty a) at 1.
  rewrite splitFrom_word by done. simpl. by rewrite append_empty.
Qed.

Lemma Split_two a b :
  allChars notDot a = true → allChars notDot b = true →
  Split (a ++ ".." ++ b) ".." = [a; b].
Proof.
  intros Ha Hb. unfold Split. rewrite splitFrom_word by done.
  rewrite splitFrom_sep. fold (Split b ".."). rewrite Split_word by done.
  by rewrite append_empty.
Qed.

Lemma Split_three a b c :
  allChars notDot a = true → allChars notDot b = true →
  allChars notDot c = true →
  Split (a ++ ".." ++ b ++ ".." ++ c) ".." = [a; b; c].
Proof.
  intros Ha Hb Hc. unfold Split. rewrite splitFrom_word by done.
  rewrite splitFrom_sep. fold (Split (b ++ ".." ++ c) "..").
  rewrite Split_two by done. by rewrite append_empty.
Qed.

Lemma parseDigits_digits acc s n :
  parseDigits acc s = Some n → allChars isDigit s = true.
Proof.
  revert acc. induction s as [|c r IH]; intros acc; [done|].
  cbn [parseDigits allChars]. unfold digitVal, isDigit.
  destruct (_ && _); [|done]. intros H. exact (IH _ H).
Qed.

Lemma Atoi_signed s v : Atoi s = Some v → allChars isSigned s = true.
Proof.
  assert (Hd : ∀ t n, parseDigits 0 t = Some n → allChars isSigned t = true).
  { intros t n H. apply (allChars_impl isDigit); [|by eapply parseDigits_digits].
    intros c Hc. unfold isSigned. by rewrite Hc. }
  destruct s as [|c r]; [done|]. unfold Atoi.
  destruct (Ascii.eqb c "-") eqn:Hm; [|destruct (Ascii.eqb c "+") eqn:Hp];
    cbn [orb].
  - destruct r as [|c' r']; [done|].
    destruct (parseDigits 0 (String c' r')) eqn:Hparse; [|done]. intros _.
    change (allChars isSigned (String c (String c' r')))
      with (isSigned c && allChars isSigned (String c' r')).
    apply andb_true_iff; split; [|exact (Hd _ _ Hparse)].
    unfold isSigned. by rewrite Hm, orb_true_r.
  - destruct r as [|c' r']; [done|].
    destruct (parseDigits 0 (String c' r')) eqn:Hparse; [|done]. intros _.
    change (allChars isSigned (String c (String c' r')))
      with (isSigned c && allChars isSigned (String c' r')).
    apply andb_true_iff; split; [|exact (Hd _ _ Hparse)].
    unfold isSigned. by rewrite Hp, orb_true_r.
  - destruct (parseDigits 0 (String c r)) eqn:Hparse; [|done]. intros _. eauto.
Qed.

Section Trimmed.

Variable P : ascii -> bool.
Hypothesis P_space : ∀ c, isSpace c = true → P c = true.

Lemma trimLeft_chars s : allChars P (trimLeft s) = true → allChars P s = true.
Proof.
  induction s as [|c r IH]; [done|]. cbn [trimLeft allChars].
  destruct (isSpace c) eqn:Hc; [|done]. intros H.
  by rewrite (P_space c Hc), IH.
Qed.

Lemma trimRight_chars s :
  match trimRight s with
  | Some t => allChars P t = true → allChars P s = true
  | None => allChars P s = true
  end.
Proof.
  induction s as [|c r IH]; [done|]. cbn [trimRight].
  destruct (trimRight r) as [t|].
  - cbn [allChars]. intros [Hc Ht]%andb_true_iff. by rewrite Hc, IH.
  - cbn [allChars]. destruct (isSpace c) eqn:Hc.
    + by rewrite (P_space c Hc), IH.
    + cbn [allChars]. intros [Hp _]%andb_true_iff. by rewrite Hp, IH.
Qed.

Lemma TrimSpace_chars s : allChars P (TrimSpace s) = true → allChars P s = true.
Proof.
  intros H. apply trimLeft_chars. unfold TrimSpace in H.
  pose proof (trimRight_chars (trimLeft s)) as Hr.
  destruct (trimRight (trimLeft s)); auto.
Qed.

End Trimmed.

(** A text that [parseScale] reads as a number holds no dot. *)
Lemma reads_notDot s v : Atoi (TrimSpace s) = Some v → allChars notDot s = true.
Proof.
  intros H. apply TrimSpace_chars.
  - intros c Hc. unfold notDot. apply negb_true_iff, Ascii.eqb_neq.
    intros ->. done.
  - apply (allChars_impl isSigned); [|by eapply Atoi_signed].
    intros c Hc. unfold notDot. apply negb_true_iff, Ascii.eqb_neq.
    intros ->. done.
Qed.

(** A printed integer is read back as itself, with or without white
    space around it. *)
Lemma reads_FormatInt w1 v w2 :
  inInt64 v → allChars isSpace w1 = true → allChars isSpace w2 = true →
  Atoi (TrimSpace (w1 ++ FormatInt v ++ w2)) = Some v.
Proof.
  intros Hv Hw1 Hw2. rewrite TrimSpace_padded; try done.
  - by apply Atoi_FormatInt.
  - apply FormatInt_nonempty.
  - apply (allChars_impl isNumeric); [|apply FormatInt_numeric].
    intros c Hc. by rewrite isNumeric_not_space.
Qed.

Lemma parseScale_two fuel a b min max :
  Atoi (TrimSpace a) = Some min → Atoi (TrimSpace b) = Some max →
  parseScale fuel (a ++ ".." ++ b) = scaleRange fuel min max 1.
Proof.
  intros Ha Hb. unfold parseScale.
  rewrite Split_two by (by eapply reads_notDot). by rewrite Ha, Hb.
Qed.

Lemma parseScale_three fuel a b c min max step :
  Atoi (TrimSpace a) = Some min → Atoi (TrimSpace b) = Some max →
  Atoi (TrimSpace c) = Some step →
  parseScale fuel (a ++ ".." ++ b ++ ".." ++ c)
  = if step <=? 0 then Some (Err ErrStep) else scaleRange fuel min max step.
Proof.
  intros Ha Hb Hc. unfold parseScale.
  rewrite Split_three by (by eapply reads_notDot). by rewrite Ha, Hb, Hc.
Qed.

(** Once the counter has passed the largest int it is negative, and
    below any bound again: with the largest int as its bound the loop has
    no exit. *)
Lemma scaleLoop_maxInt fuel i step : scaleLoop fuel i maxInt64 step = None
                                     ∨ maxInt64 < i.
Proof.
  revert i. induction fuel as [|fuel IH]; intros i.
  - simpl. destruct (i <=? maxInt64) eqn:Hi; [by left|right; lia].
  - cbn [scaleLoop]. destruct (i <=? maxInt64) eqn:Hi; [|right; lia]. left.
    destruct (IH (wrap64 (i + step))) as [-> | Hbig]; [done|].
    exfalso. unfold wrap64, maxInt64 in Hbig.
    pose proof (Z.mod_pos_bound (i + step + two63) two64).
    unfold two64, two63 in *. lia.
Qed.

End ScaleText.

Section ScaleTextClaims.

Import GoInt Strings Strconv Text Main.

Lemma Atoi_range s v : Atoi s = Some v → inInt64 v.
Proof.
  unfold Atoi. destruct s as [|c r]; [done|].
  destruct (if _ : bool then r else String c r); [done|].
  destruct (parseDigits 0 _); [|done]. cbv zeta.
  destruct (inInt64b _) eqn:Hr; [|done]. intros [= <-].
  unfold inInt64b in Hr. apply andb_true_iff in Hr. unfold inInt64. lia.
Qed.



(** X3.  The loop of [parseScale] has no bound of its own.  With the
    largest int as the upper bound the counter wraps around to a negative
    value instead of passing the bound, so the loop does not end: for
    "a..9223372036854775807", with or without a step, [parseScale] returns
    neither a list nor an error, however long it runs. *)
Theorem parseScale_maxInt_no_exit (fuel : nat) (a c : string) (min step : Z) :
  Atoi (TrimSpace a) = Some min → 0 < min →
  Atoi (TrimSpace c) = Some step → 0 < step →
  parseScale fuel (a ++ ".." ++ "9223372036854775807") = None
  ∧ parseScale fuel (a ++ ".." ++ "9223372036854775807" ++ ".." ++ c) = None.
Proof.
  intros Ha Hmin Hc Hstep.
  assert (Hmax : Atoi (TrimSpace "9223372036854775807") = Some maxInt64) by done.
  assert (Hloop : ∀ s, scaleRange fuel min maxInt64 s = None).
  { intros s. unfold scaleRange.
    assert (min <= maxInt64) by (apply Atoi_range in Ha; apply Ha).
    replace (min <=? 0) with false by lia.
    replace (maxInt64 <=? 0) with false by done.
    replace (maxInt64 <? min) with false by lia. cbn [orb].
    destruct (scaleLoop_maxInt fuel min s) as [-> | ?]; [done|lia]. }
  split.
  - rewrite (parseScale_two fuel a _ min maxInt64) by done. apply Hloop.
  - rewrite (parseScale_three fuel a _ c min maxInt64 step) by done.
    replace (step <=? 0) with false by lia. apply Hloop.
Qed.


Lemma parseScale_maxInt_no_exit_witness :
  parseScale 1000 "1..9223372036854775807" = None.
Proof.
  destruct (parseScale_maxInt_no_exit 1000 "1" "1" 1 1) as [H _];
    [reflexivity|lia|reflexivity|lia|].
  exact H.
Defined.

End ScaleTextClaims.

(* ===================================================================== *)
(** ** Liveness probe and duration of the teardown *)
(* ===================================================================== *)

Section Probe.

Import GoInt OS Bench Facts.

Lemma pidsOf_started pid st rest :
  pidsOf (Some {| Process := Some pid; ProcessState := st |} :: rest)
  = pid :: pidsOf rest.
Proof. done. Qed.

Lemma pidsOf_unstarted st rest :
  pidsOf (Some {| Process := None; ProcessState := st |} :: rest) = pidsOf rest.
Proof. done. Qed.

Lemma pidsOf_nil_handle rest : pidsOf (None :: rest) = pidsOf rest.
Proof. done. Qed.

Lemma aliveCount_bounds cmds ps :
  0 <= aliveCount cmds ps <= Z.of_nat (length (pidsOf cmds)).
Proof.
  induction cmds as [|c rest IH]; [done|].
  destruct c as [[[pid|] st]|]; cbn [aliveCount];
    rewrite ?pidsOf_started, ?pidsOf_unstarted, ?pidsOf_nil_handle; try done.
  cbn [length]. destruct (answers pid ps); lia.
Qed.

Lemma aliveCount_zero cmds ps : aliveCount cmds ps = 0 ↔ settled cmds ps.
Proof.
  unfold settled. induction cmds as [|c rest IH]; [by split; [constructor|]|].
  destruct c as [[[pid|] st]|]; cbn [aliveCount];
    rewrite ?pidsOf_started, ?pidsOf_unstarted, ?pidsOf_nil_handle; try done.
  pose proof (aliveCount_bounds rest ps).
  rewrite Forall_cons, <- IH. destruct (answers pid ps); split; try lia.
  all: try (by intros [? ?]). all: try (intros ?; split; [done|lia]).
Qed.

(** Signals never reap: a process answers after a signal if and only if
    it answered before. *)
Lemma answers_sendTo sig pid ps i : answers i (sendTo sig pid ps) = answers i ps.
Proof.
  unfold sendTo. destruct (ps !! pid) as [p|] eqn:Hp; [|done].
  destruct (answers pid ps) eqn:Ha; [|done].
  unfold answers in *. rewrite Hp in Ha.
  destruct (decide (i = pid)) as [->|Hne].
  - rewrite list_lookup_insert_eq by (by eapply lookup_lt_Some).
    rewrite Hp, Ha. apply bool_decide_eq_true in Ha. apply bool_decide_eq_true.
    unfold deliver. destruct (status p) eqn:Hs, sig; try done;
      cbn [status setStatus]; try (by rewrite Hs); try done.
    destruct (obeysTerm p); cbn [status setStatus]; [done|by rewrite Hs].
  - by rewrite list_lookup_insert_ne.
Qed.

Lemma answers_termTable pids ps i : answers i (termTable pids ps) = answers i ps.
Proof.
  revert ps. induction pids as [|pid pids IH]; intros ps; [done|].
  cbn [termTable foldl]. fold (termTable pids (sendTo SIGTERM pid ps)).
  by rewrite IH, answers_sendTo.
Qed.

Lemma allQuiet_termTable cmds pids ps :
  allQuiet cmds (termTable pids ps) = allQuiet cmds ps.
Proof.
  induction cmds as [|c rest IH]; [done|].
  destruct c as [[[pid|] [[|]|]]|]; cbn [allQuiet]; rewrite ?answers_termTable, ?IH; done.
Qed.

End Probe.

Section ProbeClaims.

Import GoInt OS Bench Facts.

Lemma pidsOf_length cmds : (length (pidsOf cmds) <= length cmds)%nat.
Proof.
  induction cmds as [|c rest IH]; [done|].
  destruct c as [[[pid|] st]|];
    rewrite ?pidsOf_started, ?pidsOf_unstarted, ?pidsOf_nil_handle;
    cbn [length]; lia.
Qed.

Lemma allQuiet_answering cmds ps pid st :
  Some {| Process := Some pid; ProcessState := st |} ∈ cmds →
  st ≠ Some true → answers pid ps = true → allQuiet cmds ps = false.
Proof.
  intros Hin Hst Ha. induction cmds as [|c rest IH]; [by apply elem_of_nil in Hin|].
  apply elem_of_cons in Hin as [<- | Hin].
  - cbn [allQuiet]. destruct st as [[|]|]; [done| |]; by rewrite Ha.
  - specialize (IH Hin). destruct c as [[[pid'|] [[|]|]]|]; cbn [allQuiet];
      rewrite ?IH, ?andb_false_r; done.
Qed.

(** X4.  [countAlive] is a probe: it returns, it leaves every process as
    it was, and its answer lies between 0 and the number of handles; the
    answer is 0 exactly when no handle's process answers a signal any more,
    which is the case after [stopHogs]. *)
Theorem countAlive_probe (cmds : Cmds) (w : World) :
  ∃ alive,
    countAlive cmds w = Some (alive, w)
    ∧ 0 <= alive <= Z.of_nat (length cmds)
    ∧ (alive = 0 ↔ settled cmds (procs w))
    ∧ ∃ w', stopHogs cmds w = Some (None, w')
            ∧ countAlive cmds w' = Some (0, w').
Proof.
  exists (aliveCount cmds (procs w)). split; [apply countAlive_eq|].
  split; [|split].
  - pose proof (aliveCount_bounds cmds (procs w)).
    pose proof (pidsOf_length cmds). lia.
  - apply aliveCount_zero.
  - exists (stopWorld cmds w). split; [apply stopHogs_eq|].
    rewrite countAlive_eq. do 2 f_equal.
    apply aliveCount_zero, settled_stopWorld.
Qed.

(** X5.  The teardown cannot see a workload end.  A process that has
    ended is a zombie until it is waited for, and a zombie accepts signal
    0; [stopHogs] waits for its children only after the polling.  So as
    soon as one handle (with no [ProcessState] that says exited) has a
    process that was not reaped before, the polling runs to its deadline:
    [stopHogs] takes the whole 5 seconds, however fast the workloads obey
    SIGTERM. *)
Theorem stopHogs_full_wait (cmds : Cmds) (w : World) (pid : nat)
    (st : option bool) :
  Some {| Process := Some pid; ProcessState := st |} ∈ cmds →
  st ≠ Some true →
  answers pid (procs w) = true →
  ∃ w', stopHogs cmds w = Some (None, w')
        ∧ clock w' = clock w + 5 * Second
        ∧ settled cmds (procs w').
Proof.
  intros Hin Hst Ha. exists (stopWorld cmds w).
  split; [apply stopHogs_eq|]. split; [|apply settled_stopWorld].
  cbn [stopWorld clock]. rewrite allQuiet_termTable.
  by rewrite (allQuiet_answering cmds (procs w) pid st).
Qed.

End ProbeClaims.

(* ===================================================================== *)
(** ** Whole runs *)
(* ===================================================================== *)

Section RunShape.

Import GoInt OS Bench Facts Outcome.

Variable env : Env.

Lemma Run_invalid cfg0 w :
  invalid env cfg0 → ∃ e, Run env cfg0 w = Some ((None, Some e), w).
Proof.
  unfold invalid, Run. destruct (String.eqb (ExecPath cfg0) "") eqn:He.
  { intros _. by eexists. }
  cbn [Instances withDefaults]. destruct (Instances cfg0) as [|n ns].
  { intros _. by eexists. }
  intros [Hx | [Hx | Hx]].
  - apply String_eqb_empty in He. done.
  - done.
  - rewrite Hx. by eexists.
Qed.

Lemma invalid_dec cfg0 :
  invalid env cfg0
  ∨ (ExecPath cfg0 ≠ EmptyString ∧ Instances cfg0 ≠ []
     ∧ envMkdirAll env (OutDir (withDefaults cfg0)) = true).
Proof.
  unfold invalid. destruct (ExecPath cfg0) as [|c r]; [by left; left|].
  destruct (Instances cfg0); [by left; right; left|].
  destruct (envMkdirAll env _); [by right|by left; right; right].
Qed.

(** What holds before the loop and is kept by every step holds after the
    loop. *)
Lemma loopOutcome_inv (I : RunResult → World → Prop) cfg ns res w :
  (∀ n res w, 0 < n → I res w →
     I (stepOutcome env cfg n res w).1.1 (stepOutcome env cfg n res w).2) →
  I res w →
  I (loopOutcome env cfg ns res w).1.1 (loopOutcome env cfg ns res w).2.
Proof.
  intros Hstep. revert res w. induction ns as [|n ns IH]; intros res w HI; [done|].
  cbn [loopOutcome]. destruct (n <=? 0) eqn:Hn; [by apply IH|].
  specialize (Hstep n res w ltac:(lia) HI).
  destruct (stepOutcome env cfg n res w) as [[res' [err|]] w']; [done|].
  by apply IH.
Qed.

Lemma aliveCount_handles base k ps :
  0 <= aliveCount (handles base k) ps <= Z.of_nat k.
Proof.
  pose proof (aliveCount_bounds (handles base k) ps) as H.
  by rewrite pidsOf_handles, length_seq in H.
Qed.

Lemma stepOutcome_wellFormed cfg n res w :
  (∀ t, inInt64 (envKsmdTicks env t)) → 0 < n →
  Forall (wellFormed cfg) (Steps res) →
  Forall (wellFormed cfg) (Steps (stepOutcome env cfg n res w).1.1).
Proof.
  intros Hticks Hn Hres. unfold stepOutcome.
  destruct (decide _) as [Hm|Hm]; [destruct (cancelsWarmup env cfg w)|];
    cbn [fst snd appendStep Steps]; [done| |].
  - apply Forall_app. split; [done|]. apply Forall_singleton.
    unfold wellFormed, measuredStep.
    cbn [N Alive stepProfile stepMemMiB stepWarmup KsmdTicksDelta].
    split; [done|]. split.
    { rewrite Hm. pose proof (aliveCount_handles (length (procs w)) (Z.to_nat n)
        (procs (setClock (warmupEnd env cfg w) (launchWorld env cfg w 0 (Z.to_nat n) 0)))).
      lia. }
    do 3 (split; [done|]). split; [|by left].
    destruct (_ && _) eqn:Hc; [|done].
    apply andb_true_iff in Hc as [[H1 H2]%andb_true_iff H3].
    pose proof (Hticks (clock w)) as Hb.
    pose proof (Hticks (clock (setClock (warmupEnd env cfg w)
      (launchWorld env cfg w 0 (Z.to_nat n) 0)))) as Ha.
    rewrite wrap64_id; [lia|].
    unfold inInt64, minInt64, maxInt64, two63 in *. lia.
  - apply Forall_app. split; [done|]. apply Forall_singleton.
    unfold wellFormed, failedStep.
    cbn [N Alive stepProfile stepMemMiB stepWarmup KsmdTicksDelta].
    split; [done|]. split; [lia|]. do 3 (split; [done|]). split; [done|].
    right. eexists. unfold failed. cbn. done.
Qed.

Lemma warmupEnd_bounds cfg w :
  0 <= Warmup cfg → clock w <= warmupEnd env cfg w <= clock w + Warmup cfg.
Proof.
  intros HW. unfold warmupEnd. destruct (envCancelAt env) as [t|]; [|lia].
  destruct (t <=? clock w + Warmup cfg) eqn:Ht; lia.
Qed.

(** A step lasts at most its warmup and the 5 seconds of a teardown. *)
Lemma stepOutcome_clock cfg n res w :
  0 <= Warmup cfg →
  clock w <= clock (stepOutcome env cfg n res w).2
          <= clock w + (Warmup cfg + 5 * Second).
Proof.
  intros HW. pose proof (warmupEnd_bounds cfg w HW) as Hend.
  unfold stepOutcome. destruct (decide _) as [Hm|Hm];
    [destruct (cancelsWarmup env cfg w)|]; cbn [snd].
  1,2: match goal with |- context [stopWorld ?hs ?w2] =>
         destruct (stopWorld_clock hs w2) as [-> | ->] end;
       cbn [clock setClock]; unfold Second, Millisecond; lia.
  match goal with |- context [stopWorld ?hs ?w2] =>
    destruct (stopWorld_clock hs w2) as [-> | ->] end;
    cbn [clock launchWorld]; unfold Second, Millisecond; lia.
Qed.

Lemma loopOutcome_clock cfg ns res w :
  0 <= Warmup cfg →
  clock w <= clock (loopOutcome env cfg ns res w).2
          <= clock w + stepCount ns * (Warmup cfg + 5 * Second).
Proof.
  intros HW. unfold stepCount. revert res w.
  induction ns as [|n ns IH]; intros res w; cbn [loopOutcome List.filter].
  - cbn. lia.
  - unfold isPositive at 1 3. destruct (n <=? 0) eqn:Hn.
    + replace (0 <? n) with false by lia. apply IH.
    + replace (0 <? n) with true by lia. cbn [length].
      pose proof (stepOutcome_clock cfg n res w HW) as Hs.
      assert (0 <= Z.of_nat (length (List.filter isPositive ns))
                   * (Warmup cfg + 5 * Second)).
      { unfold Second, Millisecond. nia. }
      destruct (stepOutcome env cfg n res w) as [[res' [err|]] w']; cbn [snd] in *.
      * nia.
      * specialize (IH res' w'). nia.
Qed.

Lemma launched_all w n k :
  envCancelAt env = None → launchesAll env → launched env w n k = k.
Proof.
  intros Hc Hl. revert n. induction k as [|k IH]; intros n; [done|].
  cbn [launched]. unfold startOk, ctxDone. rewrite Hc.
  destruct (Hl n) as [b ->]. cbn. by rewrite IH.
Qed.

(** With no cancellation and no failing launch, a step lasts exactly its
    warmup and the 5 seconds of a teardown. *)
Lemma stepOutcome_clock_exact cfg n res w :
  envCancelAt env = None → launchesAll env → 0 < n →
  clock (stepOutcome env cfg n res w).2 = clock w + (Warmup cfg + 5 * Second).
Proof.
  intros Hc Hl Hn. unfold stepOutcome.
  rewrite launched_all by done. rewrite decide_True by done.
  rewrite cancelsWarmup_never by done. cbn [snd stopWorld clock].
  rewrite allQuiet_termTable.
  destruct (Z.to_nat n) as [|k] eqn:Hk; [lia|].
  rewrite (allQuiet_answering _ _ (length (procs w)) None).
  - unfold warmupEnd. rewrite Hc. cbn [setClock clock]. lia.
  - cbn [handles]. apply elem_of_cons. by left.
  - done.
  - cbn [setClock procs launchWorld spawned]. unfold answers.
    rewrite lookup_app_r by lia. rewrite Nat.sub_diag. done.
Qed.

Lemma loopOutcome_clock_exact cfg ns res w :
  envCancelAt env = None → launchesAll env →
  clock (loopOutcome env cfg ns res w).2
  = clock w + stepCount ns * (Warmup cfg + 5 * Second).
Proof.
  intros Hc Hl. unfold stepCount. revert res w.
  induction ns as [|n ns IH]; intros res w; cbn [loopOutcome List.filter].
  - cbn. lia.
  - unfold isPositive at 1 3. destruct (n <=? 0) eqn:Hn.
    + replace (0 <? n) with false by lia. apply IH.
    + replace (0 <? n) with true by lia. cbn [length].
      pose proof (stepOutcome_clock_exact cfg n res w Hc Hl ltac:(lia)) as Hs.
      destruct (stepOutcome_recorded env cfg n res w) as (step & Hrec & _);
        [by apply cancelsWarmup_never|].
      destruct (stepOutcome env cfg n res w) as [[res' err] w'].
      cbn [fst snd] in *. injection Hrec as -> ->.
      rewrite IH, Hs. lia.
Qed.

(** A context that is done before a step starts makes every launch of
    the step fail at once. *)
Lemma stepOutcome_ctx_done cfg n res w t :
  envCancelAt env = Some t → t <= clock w → 0 < n →
  stepOutcome env cfg n res w
  = ((appendStep res (failedStep env cfg n w ctxErr), None),
     {| procs := procs w; clock := clock w; starts := S (starts w) |}).
Proof.
  intros Hc Ht Hn.
  assert (Hdone : ctxDone env w = true).
  { unfold ctxDone. rewrite Hc. lia. }
  assert (Hl : launched env w (starts w) (Z.to_nat n) = 0%nat).
  { destruct (Z.to_nat n); [done|]. cbn [launched]. unfold startOk.
    by rewrite Hdone. }
  unfold stepOutcome. rewrite Hl. rewrite decide_False by lia.
  unfold startErr. rewrite Hdone. f_equal.
  unfold stopWorld, launchWorld. cbn [handles pidsOf omap reapAll termTable
    foldl allQuiet procs clock starts spawned].
  rewrite app_nil_r. f_equal. lia.
Qed.

Lemma failedStep_clock cfg n w1 w2 e :
  clock w1 = clock w2 → failedStep env cfg n w1 e = failedStep env cfg n w2 e.
Proof. unfold failedStep. by intros ->. Qed.

Lemma loopOutcome_ctx_done cfg ns res w t :
  envCancelAt env = Some t → t <= clock w →
  ∃ res' w',
    loopOutcome env cfg ns res w = ((res', None), w')
    ∧ Steps res'
      = Steps res ++ ((λ n, failedStep env cfg n w ctxErr)
                        <$> List.filter isPositive ns)
    ∧ StartedAt res' = StartedAt res ∧ resProfile res' = resProfile res
    ∧ procs w' = procs w ∧ clock w' = clock w.
Proof.
  intros Hc Ht. revert res w Ht.
  induction ns as [|n ns IH]; intros res w Ht; cbn [loopOutcome List.filter].
  - exists res, w. by rewrite app_nil_r.
  - unfold isPositive at 1. destruct (n <=? 0) eqn:Hn.
    + replace (0 <? n) with false by lia. by apply IH.
    + replace (0 <? n) with true by lia.
      rewrite (stepOutcome_ctx_done cfg n res w t) by (done || lia).
      destruct (IH (appendStep res (failedStep env cfg n w ctxErr))
                  {| procs := procs w; clock := clock w; starts := S (starts w) |})
        as (res' & w' & -> & Hsteps & Hstart & Hprof & Hprocs & Hclock); [done|].
      exists res', w'. split; [done|]. rewrite Hsteps.
      cbn [appendStep Steps fmap list_fmap]. rewrite <- app_assoc.
      split; [|done]. do 2 f_equal;
        apply list_fmap_ext; intros _ m _; by apply failedStep_clock.
Qed.

End RunShape.

Section RunShapeClaims.

Import GoInt OS Bench Facts Outcome.

Variable env : Env.

(** X6.  [Run] returns, whatever the environment does, and it leaves no
    workload behind: every process it has launched has been reaped when it
    returns, on every path (an error of a launch, a cancellation, a failed
    write of the report), and no other process has changed.  It returns
    no result exactly when one of its checks fails, and then it has not
    launched anything. *)
Theorem Run_returns_reaped (cfg0 : Config) (w : World) :
  ∃ res err w' news,
    Run env cfg0 w = Some ((res, err), w')
    ∧ procs w' = procs w ++ news
    ∧ Forall isReaped news
    ∧ (res = None ↔ invalid env cfg0)
    ∧ (res = None → w' = w ∧ err ≠ None).
Proof.
  destruct (invalid_dec env cfg0) as [Hbad | (Hexe & Hns & Hmk)].
  - destruct (Run_invalid env cfg0 w Hbad) as [e He].
    exists None, (Some e), w, []. rewrite app_nil_r. by repeat split.
  - rewrite Run_eq by done. cbv zeta.
    destruct (loopOutcome_procs env (withDefaults cfg0) (Instances cfg0)
                (startResult (withDefaults cfg0) w) w) as (news & Hp & Hr).
    eexists _, _, _, news. split; [done|]. split; [done|]. split; [done|].
    split; [|done]. split; [done|].
    unfold invalid. intros [? | [? | Hx]]; [done|done|]. by rewrite Hmk in Hx.
Qed.

(** X7.  Every step that [Run] records is well formed: its count is
    positive, the number of workloads alive lies between 0 and the count,
    the profile, the memory and the warmup are those of the configuration
    after defaults, the tick delta of ksmd is not negative, and the step is
    either a measured one (no note, the duration is the warmup) or a failed
    one (the note "Startfehler: ..." with the error, nothing alive, no
    measurement after the warmup, saving 0). *)
Theorem Run_steps_wellFormed (cfg0 : Config) (w : World)
    (res : RunResult) (err : option error) (w' : World) :
  (∀ t, inInt64 (envKsmdTicks env t)) →
  Run env cfg0 w = Some ((Some res, err), w') →
  Forall (wellFormed (withDefaults cfg0)) (Steps res)
  ∧ StartedAt res = clock w
  ∧ resProfile res = cfgProfile (withDefaults cfg0)
  ∧ 0 < MemMiB (withDefaults cfg0) ∧ 0 < Warmup (withDefaults cfg0).
Proof.
  intros Hticks Hrun.
  assert (Hdef : 0 < MemMiB (withDefaults cfg0) ∧ 0 < Warmup (withDefaults cfg0)).
  { cbn [withDefaults MemMiB Warmup]. unfold Second, Millisecond.
    destruct (MemMiB cfg0 <=? 0) eqn:?, (Warmup cfg0 <=? 0) eqn:?; lia. }
  destruct (invalid_dec env cfg0) as [Hbad | (Hexe & Hns & Hmk)].
  { destruct (Run_invalid env cfg0 w Hbad) as [e He]. congruence. }
  rewrite Run_eq in Hrun by done. cbv zeta in Hrun.
  injection Hrun as <- _ _.
  pose proof (loopOutcome_inv env
    (λ r _, Forall (wellFormed (withDefaults cfg0)) (Steps r)
            ∧ StartedAt r = clock w
            ∧ resProfile r = cfgProfile (withDefaults cfg0))
    (withDefaults cfg0) (Instances cfg0) (startResult (withDefaults cfg0) w) w)
    as Hinv.
  cbv beta in Hinv. destruct Hinv as (H1 & H2 & H3); [| |done].
  - intros n r w1 Hn (Hr1 & Hr2 & Hr3). split.
    + by apply stepOutcome_wellFormed.
    + unfold stepOutcome. destruct (decide _);
        [destruct (cancelsWarmup env _ w1)|]; done.
  - by split; [constructor|].
Qed.



End RunShapeClaims.

(** One running workload that obeys SIGTERM: the teardown still takes 5
    seconds. *)
Lemma stopHogs_full_wait_witness :
  ∃ w', Bench.stopHogs (Facts.handles 0 1) Cases.oneRunning = Some (None, w')
        ∧ OS.clock w' = OS.clock Cases.oneRunning + 5 * Bench.Second
        ∧ Facts.settled (Facts.handles 0 1) (OS.procs w').
Proof.
  apply (stopHogs_full_wait (Facts.handles 0 1) Cases.oneRunning 0%nat None).
  - apply elem_of_cons. left. reflexivity.
  - discriminate.
  - reflexivity.
Defined.

(** The two steps of a run over the counts [1; 2] are well formed. *)
Lemma Run_steps_wellFormed_witness :
  ∃ res,
    Forall (Outcome.wellFormed (Bench.withDefaults Scenario.twoSteps))
      (Bench.Steps res)
    ∧ Bench.N <$> Bench.Steps res = [1; 2].
Proof.
  eexists. split.
  - eapply (Run_steps_wellFormed (Cases.steadyEnv None) Scenario.twoSteps
              Scenario.idleWorld).
    + intros t. vm_compute. split; discriminate.
    + vm_compute. reflexivity.
  - reflexivity.
Defined.


(* ===================================================================== *)
(** ** Package ksm *)
(* ===================================================================== *)

Section KsmFacts.

Import GoInt Text Ksm.

Variable host : Host.

Lemma readInt_written p v fs s :
  inInt64 v → files s = <[p := FormatInt v]> fs → readInt p s = Ok v.
Proof.
  intros Hv Hs. unfold readInt. rewrite Hs, lookup_insert_eq.
  rewrite TrimSpace_FormatInt. unfold ParseInt. by rewrite Atoi_FormatInt.
Qed.

Lemma readInt_files p s1 s2 :
  files s1 !! p = files s2 !! p → readInt p s1 = readInt p s2.
Proof. unfold readInt. by intros ->. Qed.

Lemma writeInt_cases p v s :
  (canWrite host p = true
   ∧ writeInt host p v s = (None, setFiles (<[p := FormatInt v]> (files s)) s))
  ∨ (canWrite host p = false ∧ writeInt host p v s = (Some (errOS p), s)).
Proof. unfold writeInt. destruct (canWrite host p); [left|right]; done. Qed.

Lemma knobs_distinct path :
  NoDup (Sysfs.knobs host path) →
  Sysfs.knob host path "pages_to_scan" ≠ Sysfs.knob host path "sleep_millisecs"
  ∧ Sysfs.knob host path "pages_to_scan" ≠ Sysfs.knob host path "merge_across_nodes"
  ∧ Sysfs.knob host path "pages_to_scan" ≠ Sysfs.knob host path "run"
  ∧ Sysfs.knob host path "sleep_millisecs" ≠ Sysfs.knob host path "merge_across_nodes"
  ∧ Sysfs.knob host path "sleep_millisecs" ≠ Sysfs.knob host path "run"
  ∧ Sysfs.knob host path "merge_across_nodes" ≠ Sysfs.knob host path "run".
Proof.
  unfold Sysfs.knobs. rewrite !NoDup_cons, !not_elem_of_cons.
  intros ((H1 & H2 & H3 & _) & (H4 & H5 & _) & (H6 & _) & _). done.
Qed.

Lemma not_knob path p :
  p ∉ Sysfs.knobs host path →
  p ≠ Sysfs.knob host path "pages_to_scan"
  ∧ p ≠ Sysfs.knob host path "sleep_millisecs"
  ∧ p ≠ Sysfs.knob host path "merge_across_nodes"
  ∧ p ≠ Sysfs.knob host path "run".
Proof.
  unfold Sysfs.knobs. rewrite !not_elem_of_cons. intros (? & ? & ? & ? & _). done.
Qed.

(** The polling of [Disable] ends: when the deadline is at most [k]
    sleeps away, after at most [k] sleeps. *)
Lemma awaitUnmerged_ends (k fuel : nat) deadline path s :
  (k <= fuel)%nat → deadline <= now s + Z.of_nat k * (500 * Bench.Millisecond) →
  ∃ s2 (j : nat),
    awaitUnmerged host fuel deadline path s = Some s2
    ∧ (j <= k)%nat
    ∧ now s2 = now s + Z.of_nat j * (500 * Bench.Millisecond)
    ∧ dirs s2 = dirs s
    ∧ (j ≠ 0%nat → now s2 < deadline + 500 * Bench.Millisecond)
    ∧ (now s2 < deadline →
       readInt (Join host path "pages_shared") s2 = Ok 0).
Proof.
  revert fuel s. induction k as [|k IH]; intros fuel s Hk Hd.
  - exists s, 0%nat. destruct fuel; cbn [awaitUnmerged];
      replace (now s <? deadline) with false by lia;
      repeat split; try done; lia.
  - destruct fuel as [|fuel]; [lia|]. cbn [awaitUnmerged].
    destruct (now s <? deadline) eqn:Hnow.
    2: { exists s, 0%nat. repeat split; try done; lia. }
    assert (Hstep :
      ∃ s2 j, awaitUnmerged host fuel deadline path
                (sleep host (500 * Bench.Millisecond) s) = Some s2
        ∧ (j <= S k)%nat
        ∧ now s2 = now s + Z.of_nat j * (500 * Bench.Millisecond)
        ∧ dirs s2 = dirs s
        ∧ (j ≠ 0%nat → now s2 < deadline + 500 * Bench.Millisecond)
        ∧ (now s2 < deadline →
           readInt (Join host path "pages_shared") s2 = Ok 0)).
    { destruct (IH fuel (sleep host (500 * Bench.Millisecond) s))
        as (s2 & j & Hs2 & Hj & Hnow2 & Hdirs & Hlate & Hread).
      - lia.
      - cbn [sleep now]. lia.
      - exists s2, (S j). split; [done|]. split; [lia|].
        cbn [sleep now dirs] in *. split; [lia|]. split; [done|]. split; [|done].
        intros _. destruct j as [|j]; [|by apply Hlate].
        unfold Bench.Millisecond in *. lia. }
    destruct (readInt (Join host path "pages_shared") s) as [[| |]|] eqn:Hr;
      try exact Hstep.
    exists s, 0%nat. repeat split; try done; lia.
Qed.

(** What the loop of [Status] has collected. *)
Lemma statusEntry_fold path s entries name v :
  foldl (statusEntry host path s) ∅ entries !! name = Some v
  ↔ (∃ e, e ∈ entries ∧ Name e = name ∧ IsDir e = false)
    ∧ readInt (Join host path name) s = Ok v.
Proof.
  induction entries as [|e entries IH] using rev_ind.
  - cbn [foldl]. rewrite lookup_empty. split; [done|].
    intros [(e & He & _) _]. by apply elem_of_nil in He.
  - rewrite foldl_snoc. unfold statusEntry at 1.
    assert (Hin : ∀ P : DirEntry → Prop,
              (∃ x, x ∈ entries ++ [e] ∧ P x) ↔ (∃ x, x ∈ entries ∧ P x) ∨ P e).
    { intros P. split.
      - intros (x & [Hx | Hx%list_elem_of_singleton]%elem_of_app & HP);
          [left; eauto|right; by subst x].
      - intros [(x & Hx & HP) | HP]; [exists x|exists e];
          (split; [|done]); apply elem_of_app; [by left|right].
        by apply list_elem_of_singleton. }
    rewrite (Hin (λ x, Name x = name ∧ IsDir x = false)).
    destruct (IsDir e) eqn:Hdir.
    { rewrite IH. split; [intros [? ?]; by auto|].
      intros [[? | [_ ?]] ?]; [done|congruence]. }
    destruct (readInt (Join host path (Name e)) s) as [val|err] eqn:Hread.
    + destruct (decide (Name e = name)) as [<-|Hne].
      * rewrite lookup_insert_eq, Hread. split; [intros [= <-]; by auto|].
        by intros [_ [= <-]].
      * rewrite lookup_insert_ne by done. rewrite IH.
        split; [intros [? ?]; by auto|]. intros [[? | [? _]] ?]; done.
    + rewrite IH. split; [intros [? ?]; by auto|].
      intros [[? | [<- _]] ?]; [done|congruence].
Qed.


(** X10.  [Enable] tunes first and starts last.  It writes nothing but
    the four switches below the path; it writes nothing at all in a dry
    run and when a parameter is rejected (pages_to_scan <= 0,
    sleep_millisecs < 0), and a rejected parameter is an error in a dry
    run too.  Whenever it returns an error, the switch "run" is as it was:
    KSM is started only after every tuning value has been written.  When
    it returns nil outside a dry run, "run" reads 1, pages_to_scan and
    sleep_millisecs read the configured values, and merge_across_nodes
    reads the configured value if that is >= 0 and is untouched if it is
    negative. *)
Theorem Enable_tunes_then_starts (cfg : Config) (dryRun : bool) (s : Sys) :
  let knob := Sysfs.knob host (Path cfg) in
  NoDup (Sysfs.knobs host (Path cfg)) →
  inInt64 (PagesToScan cfg) → inInt64 (SleepMillisecs cfg) →
  inInt64 (MergeAcrossNodes cfg) →
  ∃ e s',
    Enable host cfg dryRun s = (e, s')
    ∧ dirs s' = dirs s ∧ now s' = now s
    ∧ (∀ p, p ∉ Sysfs.knobs host (Path cfg) → files s' !! p = files s !! p)
    ∧ (dryRun = true ∨ PagesToScan cfg <= 0 ∨ SleepMillisecs cfg < 0 → s' = s)
    ∧ (PagesToScan cfg <= 0 ∨ SleepMillisecs cfg < 0 → e ≠ None)
    ∧ (e ≠ None → files s' !! knob "run" = files s !! knob "run")
    ∧ (e = None → dryRun = false →
       0 < PagesToScan cfg ∧ 0 <= SleepMillisecs cfg
       ∧ readInt (knob "run") s' = Ok 1
       ∧ readInt (knob "pages_to_scan") s' = Ok (PagesToScan cfg)
       ∧ readInt (knob "sleep_millisecs") s' = Ok (SleepMillisecs cfg)
       ∧ (0 <= MergeAcrossNodes cfg →
          readInt (knob "merge_across_nodes") s' = Ok (MergeAcrossNodes cfg))
       ∧ (MergeAcrossNodes cfg < 0 →
          files s' !! knob "merge_across_nodes"
          = files s !! knob "merge_across_nodes")).
Proof.
  intros knob Hnd Hp Hs Hm.
  destruct (knobs_distinct _ Hnd) as (D1 & D2 & D3 & D4 & D5 & D6).
  fold knob in D1, D2, D3, D4, D5, D6.
  unfold Enable. cbn [normalized PagesToScan SleepMillisecs MergeAcrossNodes Path].
  fold (Sysfs.dirOf (Path cfg)).
  change (Join host (Sysfs.dirOf (Path cfg))) with knob.
  destruct (PagesToScan cfg <=? 0) eqn:E1.
  { exists (Some errPagesToScan), s. repeat split; try done; lia. }
  destruct (SleepMillisecs cfg <? 0) eqn:E2.
  { exists (Some errSleepMillisecs), s. repeat split; try done; lia. }
  destruct dryRun.
  { exists None, s. repeat split; try done; lia. }
  pose proof (not_eq_sym D1). pose proof (not_eq_sym D2).
  pose proof (not_eq_sym D3). pose proof (not_eq_sym D4).
  pose proof (not_eq_sym D5). pose proof (not_eq_sym D6).
  assert (inInt64 1) by (by vm_compute).
  unfold andThen, writeInt.
  destruct (canWrite host (knob "pages_to_scan")),
    (canWrite host (knob "sleep_millisecs")),
    (0 <=? MergeAcrossNodes cfg) eqn:E3,
    (canWrite host (knob "merge_across_nodes")),
    (canWrite host (knob "run")).
  all: eexists _, _; (split; [reflexivity|]).
  all: split; [done|]; split; [done|].
  all: split;
    [intros p (? & ? & ? & ?)%not_knob; cbn [setFiles files];
     by rewrite ?lookup_insert_ne by done|].
  all: split; [lia|]; split; [lia|].
  all: split;
    [intros He; first [by destruct He
                      |cbn [setFiles files]; by rewrite ?lookup_insert_ne by done]|].
  all: try (intros [=]; fail).
  all: intros _ _; split; [lia|]; split; [lia|].
  all: repeat split; try (intros; lia).
  all: try (intros; cbn [setFiles files]; by rewrite ?lookup_insert_ne by done).
  all: intros; unfold readInt; cbn [setFiles files];
    rewrite ?lookup_insert_ne by done;
    rewrite lookup_insert_eq, TrimSpace_FormatInt; unfold ParseInt;
    by rewrite Atoi_FormatInt.
Qed.


(** X11.  A value written with [WriteInt] is the value [ReadInt] reads:
    the decimal text that [strconv.FormatInt] prints is parsed back by
    [strconv.ParseInt] for every int64, also with the white space (the
    newline) that sysfs puts around a number.  The write touches no other
    file, and writing the same value again changes nothing. *)
Theorem WriteInt_ReadInt (path name : string) (v : Z) (s : Sys) :
  inInt64 v →
  canWrite host (Sysfs.knob host path name) = true →
  ∃ s',
    WriteInt host path name v s = (None, s')
    ∧ ReadInt host path name s' = Ok v
    ∧ (∀ p, p ≠ Sysfs.knob host path name → files s' !! p = files s !! p)
    ∧ dirs s' = dirs s ∧ now s' = now s
    ∧ WriteInt host path name v s' = (None, s')
    ∧ (∀ w1 w2 s0,
         allChars Strings.isSpace w1 = true → allChars Strings.isSpace w2 = true →
         files s0 !! Sysfs.knob host path name
         = Some (w1 ++ FormatInt v ++ w2)%string →
         ReadInt host path name s0 = Ok v).
Proof.
  intros Hv Hw. unfold WriteInt, ReadInt, writeInt.
  fold (Sysfs.dirOf path). fold (Sysfs.knob host path name). rewrite Hw.
  eexists. split; [done|]. split; [by apply (readInt_written _ v (files s))|].
  split; [intros p Hp; cbn [setFiles files]; by rewrite lookup_insert_ne|].
  split; [done|]. split; [done|]. split.
  - unfold setFiles. cbn [files dirs now]. by rewrite insert_insert_eq.
  - intros w1 w2 s0 Hw1 Hw2 Hfile. unfold readInt. rewrite Hfile.
    unfold ParseInt. by rewrite reads_FormatInt.
Qed.

(** X12.  [Disable] ends, and it ends with the switch "run" at 0.  With
    enough fuel for the polling (one iteration for each half second of the
    timeout, and one more) it returns after less than the timeout plus
    half a second, and at once when unmerging is not asked for; a timeout
    <= 0 stands for 60 seconds.  It returns nil exactly when "run" can be
    written, and then "run" reads 0.  A dry run changes nothing. *)
Theorem Disable_stops (fuel : nat) (path : string) (unmerge : bool)
    (timeout : Bench.Duration) (s : Sys) :
  let T := Sysfs.patience timeout in
  let run := Sysfs.knob host path "run" in
  (Z.to_nat (T / (500 * Bench.Millisecond)) + 1 <= fuel)%nat →
  ∃ e s',
    Disable host fuel path unmerge timeout false s = Some (e, s')
    ∧ dirs s' = dirs s
    ∧ now s <= now s' < now s + T + 500 * Bench.Millisecond
    ∧ (unmerge = false → now s' = now s)
    ∧ (e = None ↔ canWrite host run = true)
    ∧ (e = None → readInt run s' = Ok 0)
    ∧ (e = None → unmerge = true → now s' < now s + T →
       Sysfs.knob host path "pages_shared" ≠ run →
       readInt (Sysfs.knob host path "pages_shared") s' = Ok 0)
    ∧ Disable host fuel path unmerge timeout true s = Some (None, s).
Proof.
  intros T run Hfuel.
  assert (HT : 0 < T).
  { subst T. unfold Sysfs.patience, Bench.Second, Bench.Millisecond.
    destruct (timeout <=? 0) eqn:?; lia. }
  assert (H0 : inInt64 0) by (by vm_compute).
  unfold Disable. cbv zeta. fold (Sysfs.dirOf path).
  change (if timeout <=? 0 then 60 * Bench.Second else timeout) with T. change (Join host (Sysfs.dirOf path) "run") with run.
  assert (Hlast : ∀ s2, ∃ e s',
            writeInt host run 0 s2 = (e, s')
            ∧ dirs s' = dirs s2 ∧ now s' = now s2
            ∧ (e = None ↔ canWrite host run = true)
            ∧ (e = None → readInt run s' = Ok 0)
            ∧ (∀ p, p ≠ run → files s' !! p = files s2 !! p)).
  { intros s2. unfold writeInt. destruct (canWrite host run); eexists _, _;
      (split; [reflexivity|]); repeat split; try done.
    - intros _. by apply (readInt_written _ 0 (files s2)).
    - intros p Hp. cbn [setFiles files]. by rewrite lookup_insert_ne. }
  destruct unmerge.
  - destruct (writeInt_cases run 2 s) as [[Hw ->] | [Hw ->]].
    2: { exists (Some (errOS run)), s. split; [done|]. split; [done|].
         split; [unfold Bench.Millisecond; lia|]. split; [done|].
         split; [by rewrite Hw|]. by repeat split. }
    set (s1 := setFiles _ s).
    destruct (awaitUnmerged_ends
                (Z.to_nat (T / (500 * Bench.Millisecond)) + 1) fuel
                (now s1 + T) (Sysfs.dirOf path) s1)
      as (s2 & j & -> & Hj & Hnow & Hdirs & Hlate & Hread); [done| |].
    { pose proof (Z.mod_pos_bound T (500 * Bench.Millisecond)
                    ltac:(by vm_compute)).
      pose proof (Z.div_mod T (500 * Bench.Millisecond) ltac:(by vm_compute)).
      assert (0 <= T / (500 * Bench.Millisecond)) by (apply Z.div_pos; [lia|done]).
      unfold Bench.Millisecond in *. lia. }
    destruct (Hlast s2) as (e & s' & -> & Hd' & Hn' & Hiff & Hzero & Hframe).
    exists e, s'. split; [done|]. subst s1. cbn [setFiles dirs now] in *.
    split; [congruence|]. split.
    { rewrite Hn', Hnow. destruct j as [|j].
      - unfold Bench.Millisecond. lia.
      - specialize (Hlate ltac:(done)). unfold Bench.Millisecond in *. lia. }
    split; [done|]. split; [done|]. split; [done|]. split; [|done].
    intros _ _ Hearly Hne. rewrite Hn' in Hearly.
    rewrite <- Hread by lia. apply readInt_files. by apply Hframe.
  - destruct (Hlast s) as (e & s' & -> & Hd' & Hn' & Hiff & Hzero & Hframe).
    exists e, s'. split; [done|]. split; [done|].
    split; [unfold Bench.Millisecond; lia|]. split; [done|].
    split; [done|]. split; [done|]. by split.
Qed.

(** X13.  [Status] reports exactly the numeric files of the directory:
    a name is in the map, with the value [v], if and only if the directory
    lists a file (not a directory) of that name and the file reads as the
    integer [v].  The error is nil exactly when the map is not empty;
    otherwise it is the error "keine numerischen KSM-Felder gefunden",
    returned with an empty but non-nil map. *)
Theorem Status_numeric_files (path : string) (s : Sys) (entries : list DirEntry) :
  dirs s !! Sysfs.dirOf path = Some entries →
  ∃ out,
    (Status host path s).1 = Some out
    ∧ (∀ name v,
         out !! name = Some v
         ↔ (∃ e, e ∈ entries ∧ Name e = name ∧ IsDir e = false)
           ∧ readInt (Sysfs.knob host path name) s = Ok v)
    ∧ ((Status host path s).2 = None ↔ ∃ name v, out !! name = Some v)
    ∧ ((Status host path s).2 ≠ None →
       out = ∅ ∧ (Status host path s).2 = Some errNoFields).
Proof.
  intros Hdir. unfold Status. fold (Sysfs.dirOf path). rewrite Hdir.
  set (out := foldl _ _ _).
  exists out. split; [by destruct (decide _)|]. split.
  { intros name v. apply statusEntry_fold. }
  destruct (decide (size out = 0%nat)) as [Hz|Hnz]; cbn [fst snd].
  - apply map_size_empty_iff in Hz. split; [|done].
    split; [done|]. intros (name & v & Hv). by rewrite Hz, lookup_empty in Hv.
  - split; [|done]. split; [|done]. intros _.
    assert (out ≠ ∅) as Hne by (by rewrite <- map_size_empty_iff).
    apply map_choose in Hne as (name & v & Hv). eauto.
Qed.

End KsmFacts.

(** The defaults of the command line, on a host where every file can be
    written. *)
Lemma Enable_tunes_then_starts_witness :
  ∃ s', Ksm.Enable Sysfs.plainHost Sysfs.conservative false Sysfs.running
        = (None, s')
    ∧ Ksm.readInt "/sys/kernel/mm/ksm/run" s' = Ok 1
    ∧ Ksm.readInt "/sys/kernel/mm/ksm/pages_to_scan" s' = Ok 100.
Proof.
  destruct (Enable_tunes_then_starts Sysfs.plainHost Sysfs.conservative false
              Sysfs.running)
    as (e & s' & Hrun & _ & _ & _ & _ & _ & _ & Hok).
  - apply (bool_decide_unpack _). vm_compute. reflexivity.
  - vm_compute. split; discriminate.
  - vm_compute. split; discriminate.
  - vm_compute. split; discriminate.
  - assert (e = None) as -> by (vm_compute in Hrun; congruence).
    destruct (Hok eq_refl eq_refl) as (_ & _ & H1 & H2 & _).
    exists s'. split; [exact Hrun|]. split; [exact H1|exact H2].
Defined.

Lemma WriteInt_ReadInt_witness :
  ∃ s', Ksm.WriteInt Sysfs.plainHost "" "sleep_millisecs" (-20) Sysfs.running
        = (None, s')
    ∧ Ksm.ReadInt Sysfs.plainHost "" "sleep_millisecs" s' = Ok (-20).
Proof.
  destruct (WriteInt_ReadInt Sysfs.plainHost "" "sleep_millisecs" (-20)
              Sysfs.running) as (s' & H1 & H2 & _).
  - vm_compute. split; discriminate.
  - reflexivity.
  - exists s'. split; [exact H1|exact H2].
Defined.

(** A timeout of 3 seconds, seven iterations of fuel: [Disable] returns
    nil with the switch at 0. *)
Lemma Disable_stops_witness :
  ∃ s', Ksm.Disable Sysfs.plainHost 7 "" true (3 * Bench.Second) false
          Sysfs.running = Some (None, s')
    ∧ Ksm.readInt "/sys/kernel/mm/ksm/run" s' = Ok 0.
Proof.
  destruct (Disable_stops Sysfs.plainHost 7 "" true (3 * Bench.Second)
              Sysfs.running) as (e & s' & Hrun & _ & _ & _ & Hiff & Hzero & _).
  - vm_compute. lia.
  - assert (e = None) as -> by (by apply Hiff).
    exists s'. split; [exact Hrun|]. by apply Hzero.
Defined.

Lemma Status_numeric_files_witness :
  ∃ out, (Ksm.Status Sysfs.plainHost "" Sysfs.running).1 = Some out
    ∧ out !! "pages_shared"%string = Some 12.
Proof.
  destruct (Status_numeric_files Sysfs.plainHost "" Sysfs.running
              [ {| Ksm.Name := "pages_shared"; Ksm.IsDir := false |};
                {| Ksm.Name := "run"; Ksm.IsDir := false |} ])
    as (out & Hout & Hiff & _).
  - reflexivity.
  - exists out. split; [exact Hout|]. apply Hiff.
    split; [|vm_compute; reflexivity].
    eexists. split; [apply elem_of_cons; left; reflexivity|].
    split; reflexivity.
Defined.

(* ===================================================================== *)
(** ** The memory of a workload *)
(* ===================================================================== *)

Section HogMemory.

Import GoInt Main HogMem.

Lemma leBytes_length v : length (leBytes v) = 8%nat.
Proof. done. Qed.

Lemma leBytes_lookup v (k : nat) :
  (k < 8)%nat → leBytes v !! k = Some (byteOf v (Z.of_nat k)).
Proof.
  intros Hk. unfold leBytes. rewrite list_lookup_fmap.
  rewrite lookup_seqZ_lt by lia. done.
Qed.

(** A write of 8 bytes in range changes these 8 bytes and no other. *)
Lemma putAt_lookup b off v :
  0 <= off → off + 8 <= Z.of_nat (length b) →
  ∃ b', putAt b off v = Done b'
    ∧ length b' = length b
    ∧ ∀ i : nat,
        b' !! i = if (off <=? Z.of_nat i) && (Z.of_nat i <? off + 8)
                  then Some (byteOf v (Z.of_nat i - off))
                  else b !! i.
Proof.
  intros H0 Hlen. unfold putAt.
  replace ((0 <=? off) && (off + 8 <=? Z.of_nat (length b))) with true
    by (symmetry; apply andb_true_iff; lia).
  eexists. split; [done|]. split.
  - rewrite !length_app, length_take, length_drop, leBytes_length. lia.
  - intros i. destruct (decide (Z.of_nat i < off)) as [Hlt|Hge].
    + replace (off <=? Z.of_nat i) with false by lia. cbn [andb].
      rewrite lookup_app_l by (rewrite length_take; lia).
      rewrite lookup_take_lt by lia. done.
    + rewrite lookup_app_r by (rewrite length_take; lia).
      rewrite length_take, Nat.min_l by lia.
      replace (off <=? Z.of_nat i) with true by lia. cbn [andb].
      destruct (Z.of_nat i <? off + 8) eqn:Hin.
      * rewrite lookup_app_l by (rewrite leBytes_length; lia).
        rewrite leBytes_lookup by lia. do 2 f_equal. lia.
      * rewrite lookup_app_r by (rewrite leBytes_length; lia).
        rewrite leBytes_length, lookup_drop. f_equal. lia.
Qed.

Lemma wrap64_small z : 0 <= z < 2 ^ 63 → wrap64 z = z.
Proof.
  intros Hz. apply wrap64_id. unfold inInt64, minInt64, maxInt64, two63. lia.
Qed.

(** The loop that makes the template writes the constant over the whole
    page, when the page is made of 8-byte words. *)
Lemma fillTemplate_spec (m fuel : nat) i t :
  0 <= i → i mod 8 = 0 →
  Z.of_nat (length t) = i + 8 * Z.of_nat m → Z.of_nat (length t) < 2 ^ 62 →
  (m <= fuel)%nat →
  ∃ t', fillTemplate fuel i t = Done t'
    ∧ length t' = length t
    ∧ ∀ p : nat,
        t' !! p = if (i <=? Z.of_nat p) && (Z.of_nat p <? Z.of_nat (length t))
                  then Some (templateByte (Z.of_nat p))
                  else t !! p.
Proof.
  revert fuel i t. induction m as [|m IH]; intros fuel i t Hi Hmod Hlen Hbig Hfuel.
  - exists t. split.
    { destruct fuel; cbn [fillTemplate];
        by replace (i <? Z.of_nat (length t)) with false by lia. }
    split; [done|]. intros p.
    by replace ((i <=? Z.of_nat p) && (Z.of_nat p <? Z.of_nat (length t)))
      with false by (symmetry; apply andb_false_iff; lia).
  - destruct fuel as [|fuel]; [lia|]. cbn [fillTemplate].
    replace (i <? Z.of_nat (length t)) with true by lia.
    destruct (putAt_lookup t i templateWord) as (t1 & -> & Hl1 & Hput); [lia..|].
    rewrite wrap64_small by lia.
    destruct (IH fuel (i + 8) t1) as (t' & -> & Hl' & Hrest); [lia| |lia|lia|lia|].
    { rewrite <- Z.add_mod_idemp_l, Hmod by lia. done. }
    exists t'. split; [done|]. split; [congruence|]. intros p.
    rewrite Hrest, Hput, Hl1.
    destruct (decide (i + 8 <= Z.of_nat p < Z.of_nat (length t))) as [Hin|Hout].
    + replace ((i + 8 <=? Z.of_nat p) && (Z.of_nat p <? Z.of_nat (length t)))
        with true by (symmetry; apply andb_true_iff; lia).
      by replace ((i <=? Z.of_nat p) && (Z.of_nat p <? Z.of_nat (length t)))
        with true by (symmetry; apply andb_true_iff; lia).
    + replace ((i + 8 <=? Z.of_nat p) && (Z.of_nat p <? Z.of_nat (length t)))
        with false by (symmetry; apply andb_false_iff; lia).
      destruct ((i <=? Z.of_nat p) && (Z.of_nat p <? i + 8)) eqn:Hhere.
      * apply andb_true_iff in Hhere as [H1 H2].
        replace ((i <=? Z.of_nat p) && (Z.of_nat p <? Z.of_nat (length t)))
          with true by (symmetry; apply andb_true_iff; lia).
        unfold templateByte. do 2 f_equal.
        assert (Hi8 : i = 8 * (i / 8))
          by (pose proof (Z.div_mod i 8 ltac:(lia)); lia).
        replace (Z.of_nat p mod 8)
          with ((Z.of_nat p - i + i / 8 * 8) mod 8) by (f_equal; lia).
        rewrite Z.mod_add by lia. by rewrite Z.mod_small by lia.
      * apply andb_false_iff in Hhere.
        by replace ((i <=? Z.of_nat p) && (Z.of_nat p <? Z.of_nat (length t)))
          with false by (symmetry; apply andb_false_iff; lia).
Qed.

Lemma copyAt_lookup buf off ps template :
  0 <= off → 0 <= ps → off + ps <= Z.of_nat (length buf) →
  Z.of_nat (length template) = ps →
  length (copyAt buf off ps template) = length buf
  ∧ ∀ p : nat,
      copyAt buf off ps template !! p
      = if (off <=? Z.of_nat p) && (Z.of_nat p <? off + ps)
        then template !! Z.to_nat (Z.of_nat p - off)
        else buf !! p.
Proof.
  intros Hoff Hps Hlen Ht. unfold copyAt. split.
  - rewrite !length_app, !length_take, length_drop. lia.
  - intros p. destruct (decide (Z.of_nat p < off)) as [Hlt|Hge].
    + replace (off <=? Z.of_nat p) with false by lia. cbn [andb].
      rewrite lookup_app_l by (rewrite length_take; lia).
      by rewrite lookup_take_lt by lia.
    + rewrite lookup_app_r by (rewrite length_take; lia).
      rewrite length_take, Nat.min_l by lia.
      replace (off <=? Z.of_nat p) with true by lia. cbn [andb].
      destruct (Z.of_nat p <? off + ps) eqn:Hin.
      * rewrite lookup_app_l by (rewrite length_take; lia).
        rewrite lookup_take_lt by lia. f_equal. lia.
      * rewrite lookup_app_r by (rewrite length_take; lia).
        rewrite length_take, Nat.min_l by lia.
        rewrite lookup_drop. f_equal. lia.
Qed.

(** The loop that copies the template fills every whole page. *)
Lemma copyPages_spec (m fuel : nat) off ps template buf :
  0 <= off → 0 < ps < 2 ^ 62 → Z.of_nat (length template) = ps →
  off + Z.of_nat m * ps <= Z.of_nat (length buf) < off + (Z.of_nat m + 1) * ps →
  Z.of_nat (length buf) < 2 ^ 62 → (m <= fuel)%nat →
  ∃ buf', copyPages fuel off ps template buf = Done buf'
    ∧ length buf' = length buf
    ∧ ∀ p : nat,
        buf' !! p
        = if (off <=? Z.of_nat p) && (Z.of_nat p <? off + Z.of_nat m * ps)
          then template !! Z.to_nat ((Z.of_nat p - off) mod ps)
          else buf !! p.
Proof.
  revert fuel off buf.
  induction m as [|m IH]; intros fuel off buf Hoff Hps Ht Hlen Hbig Hfuel.
  - change (Z.of_nat 0 * ps) with 0 in *. exists buf. split.
    { destruct fuel; cbn [copyPages]; rewrite wrap64_small by lia;
        by replace (off + ps <=? Z.of_nat (length buf)) with false by lia. }
    split; [done|]. intros p.
    by replace ((off <=? Z.of_nat p) && (Z.of_nat p <? off + 0))
      with false by (symmetry; apply andb_false_iff; lia).
  - destruct fuel as [|fuel]; [lia|]. cbn [copyPages].
    assert (HS : Z.of_nat (S m) * ps = ps + Z.of_nat m * ps) by lia.
    assert (0 <= Z.of_nat m * ps) by nia.
    assert (off + ps <= Z.of_nat (length buf)) by nia.
    rewrite !wrap64_small by lia.
    replace (off + ps <=? Z.of_nat (length buf)) with true by lia.
    replace ((0 <=? off) && (off <=? off + ps)) with true
      by (symmetry; apply andb_true_iff; lia).
    destruct (copyAt_lookup buf off ps template) as [Hl1 Hcopy]; [lia..|].
    destruct (IH fuel (off + ps) (copyAt buf off ps template))
      as (buf' & -> & Hl' & Hrest); [lia|lia|done| |lia|lia|].
    { rewrite Hl1. nia. }
    exists buf'. split; [done|]. split; [congruence|]. intros p.
    rewrite Hrest, Hcopy.
    destruct (decide (off + ps <= Z.of_nat p < off + ps + Z.of_nat m * ps))
      as [Hin|Hout].
    + replace ((off + ps <=? Z.of_nat p)
               && (Z.of_nat p <? off + ps + Z.of_nat m * ps))
        with true by (symmetry; apply andb_true_iff; lia).
      rewrite HS.
      replace ((off <=? Z.of_nat p) && (Z.of_nat p <? off + (ps + Z.of_nat m * ps)))
        with true by (symmetry; apply andb_true_iff; lia).
      do 2 f_equal.
      replace (Z.of_nat p - off) with (Z.of_nat p - (off + ps) + 1 * ps) by lia.
      by rewrite Z.mod_add by lia.
    + replace ((off + ps <=? Z.of_nat p)
               && (Z.of_nat p <? off + ps + Z.of_nat m * ps))
        with false by (symmetry; apply andb_false_iff; lia).
      destruct ((off <=? Z.of_nat p) && (Z.of_nat p <? off + ps)) eqn:Hhere.
      * apply andb_true_iff in Hhere as [H1 H2].
        rewrite HS.
        replace ((off <=? Z.of_nat p)
                 && (Z.of_nat p <? off + (ps + Z.of_nat m * ps)))
          with true by (symmetry; apply andb_true_iff; lia).
        by rewrite Z.mod_small by lia.
      * apply andb_false_iff in Hhere. rewrite HS.
        by replace ((off <=? Z.of_nat p)
                    && (Z.of_nat p <? off + (ps + Z.of_nat m * ps)))
          with false by (symmetry; apply andb_false_iff; lia).
Qed.

(** The first 8 bytes of the page [idx] are the positions whose page is
    [idx] and whose offset in the page is below 8. *)
Lemma slot_page ps idx p :
  8 <= ps → 0 <= idx → 0 <= p →
  (idx * ps <= p < idx * ps + 8) ↔ (p / ps = idx ∧ p mod ps < 8).
Proof.
  intros Hps Hidx Hp. pose proof (Z.div_mod p ps ltac:(lia)) as Hdm.
  pose proof (Z.mod_pos_bound p ps ltac:(lia)) as Hm. split.
  - intros Hin. assert (p / ps = idx) as Hq.
    { symmetry. apply (Z.div_unique p ps idx (p - idx * ps)); lia. }
    split; [done|]. rewrite Hq in Hdm. lia.
  - intros [Hq Hr]. rewrite Hq in Hdm. lia.
Qed.

(** [applyDirty] writes the marker over the first 8 bytes of every
    selected page, and nothing else. *)
Lemma applyDirty_spec buf ps id L c :
  8 <= ps → Z.of_nat (length buf) < 2 ^ 62 →
  Forall (λ idx, 0 <= idx ∧ idx * ps + ps <= Z.of_nat (length buf)) L →
  ∃ buf', applyDirty buf ps id L c = Done buf'
    ∧ length buf' = length buf
    ∧ ∀ p : nat,
        buf' !! p
        = if bool_decide (Z.of_nat p / ps ∈ L) && (Z.of_nat p mod ps <? 8)
          then Some (byteOf (marker id c) (Z.of_nat p mod ps))
          else buf !! p.
Proof.
  intros Hps Hbig. revert buf Hbig.
  induction L as [|idx rest IH]; intros buf Hbig HL.
  - exists buf. split; [done|]. split; [done|]. intros p.
    rewrite bool_decide_eq_false_2; [done|]. apply not_elem_of_nil.
  - apply Forall_cons in HL as [[Hidx Hfit] Hrest]. cbn [applyDirty].
    assert (0 <= idx * ps) by nia.
    rewrite (wrap64_small (idx * ps)) by lia.
    rewrite wrap64_small by lia.
    replace (idx * ps + 8 <=? Z.of_nat (length buf)) with true by lia.
    destruct (putAt_lookup buf (idx * ps) (marker id c)) as (buf1 & -> & Hl1 & Hput);
      [lia..|].
    destruct (IH buf1) as (buf' & -> & Hl' & Hall); [lia|by rewrite Hl1|].
    exists buf'. split; [done|]. split; [congruence|]. intros p.
    rewrite Hall, Hput.
    pose proof (slot_page ps idx (Z.of_nat p) Hps Hidx ltac:(lia)) as Hslot.
    destruct (Z.of_nat p mod ps <? 8) eqn:Hoff; rewrite ?andb_false_r, ?andb_true_r.
    + destruct (decide (Z.of_nat p / ps ∈ rest)) as [Hin|Hnin].
      * rewrite !bool_decide_eq_true_2; [done|by apply elem_of_cons; right|done].
      * rewrite (bool_decide_eq_false_2 _ Hnin).
        destruct (decide (Z.of_nat p / ps = idx)) as [Heq|Hne].
        -- rewrite bool_decide_eq_true_2 by (apply elem_of_cons; by left).
           replace ((idx * ps <=? Z.of_nat p) && (Z.of_nat p <? idx * ps + 8))
             with true by (symmetry; apply andb_true_iff; lia).
           do 2 f_equal. pose proof (Z.div_mod (Z.of_nat p) ps ltac:(lia)).
           rewrite Heq in *. lia.
        -- rewrite bool_decide_eq_false_2
             by (intros [?|?]%elem_of_cons; done).
           by replace ((idx * ps <=? Z.of_nat p) && (Z.of_nat p <? idx * ps + 8))
             with false by (symmetry; apply andb_false_iff; lia).
    + by replace ((idx * ps <=? Z.of_nat p) && (Z.of_nat p <? idx * ps + 8))
        with false by (symmetry; apply andb_false_iff; lia).
Qed.

(** After the ticks of the ticker the selected pages carry the marker of
    the last counter. *)
Lemma redirty_spec ticks buf ps id L c :
  8 <= ps → Z.of_nat (length buf) < 2 ^ 62 →
  Forall (λ idx, 0 <= idx ∧ idx * ps + ps <= Z.of_nat (length buf)) L →
  ∃ buf', redirty ticks buf ps id L c = Done buf'
    ∧ length buf' = length buf
    ∧ ∀ p : nat,
        buf' !! p
        = if bool_decide (Z.of_nat p / ps ∈ L) && (Z.of_nat p mod ps <? 8)
             && bool_decide (ticks ≠ 0%nat)
          then Some (byteOf (marker id (wrapU64 (c + Z.of_nat ticks)))
                       (Z.of_nat p mod ps))
          else buf !! p.
Proof.
  intros Hps. revert buf c. induction ticks as [|k IH]; intros buf c Hbig HL.
  - exists buf. split; [done|]. split; [done|]. intros p.
    by rewrite andb_false_r.
  - cbn [redirty].
    destruct (applyDirty_spec buf ps id L (wrapU64 (c + 1)) Hps Hbig HL)
      as (buf1 & -> & Hl1 & Hone).
    destruct (IH buf1 (wrapU64 (c + 1))) as (buf' & -> & Hl' & Hall);
      [lia|by rewrite Hl1|].
    exists buf'. split; [done|]. split; [congruence|]. intros p.
    rewrite Hall, Hone. rewrite (bool_decide_eq_true_2 (S k ≠ 0%nat)) by done.
    rewrite andb_true_r.
    destruct (bool_decide (Z.of_nat p / ps ∈ L) && (Z.of_nat p mod ps <? 8));
      [|done]. cbn [andb].
    assert (wrapU64 (wrapU64 (c + 1) + Z.of_nat k) = wrapU64 (c + Z.of_nat (S k)))
      as ->.
    { unfold wrapU64, two64. rewrite Z.add_mod_idemp_l by lia. f_equal. lia. }
    destruct k as [|k'].
    + rewrite bool_decide_eq_false_2 by (intros Hk; by apply Hk).
      do 4 f_equal.
    + by rewrite bool_decide_eq_true_2 by done.
Qed.

Lemma lxor_bound a b n :
  0 <= n → 0 <= a < 2 ^ n → 0 <= b < 2 ^ n → 0 <= Z.lxor a b < 2 ^ n.
Proof.
  intros Hn Ha Hb. assert (0 <= Z.lxor a b) by (apply Z.lxor_nonneg; lia).
  split; [done|].
  destruct (decide (Z.lxor a b = 0)) as [->|Hne]; [apply Z.pow_pos_nonneg; lia|].
  assert (0 < n).
  { destruct (decide (n = 0)) as [->|]; [|lia].
    assert (a = 0) by lia. assert (b = 0) by lia. by subst. }
  apply Z.log2_lt_pow2; [lia|].
  pose proof (Z.log2_lxor a b ltac:(lia) ltac:(lia)) as Hlog.
  assert (Z.log2 a < n).
  { destruct (decide (a = 0)) as [->|?]; [simpl; lia|].
    apply Z.log2_lt_pow2; lia. }
  assert (Z.log2 b < n).
  { destruct (decide (b = 0)) as [->|?]; [simpl; lia|].
    apply Z.log2_lt_pow2; lia. }
  lia.
Qed.

Lemma lxor_cancel_r a b k : Z.lxor a k = Z.lxor b k → a = b.
Proof.
  intros H.
  assert (Hx : ∀ x, Z.lxor (Z.lxor x k) k = x).
  { intros x. by rewrite Z.lxor_assoc, Z.lxor_nilpotent, Z.lxor_0_r. }
  by rewrite <- (Hx a), H, Hx.
Qed.

Lemma lxor_cancel_l a b k : Z.lxor k a = Z.lxor k b → a = b.
Proof. rewrite !(Z.lxor_comm k). apply lxor_cancel_r. Qed.

Lemma marker_range id c : 0 <= c < 2 ^ 64 → 0 <= marker id c < 2 ^ 64.
Proof.
  intros Hc. unfold marker, wrapU64, two64.
  apply lxor_bound; [lia| |lia].
  apply lxor_bound; [lia| |lia]. apply Z.mod_pos_bound. lia.
Qed.

Lemma marker_counter id c1 c2 : marker id c1 = marker id c2 → c1 = c2.
Proof. unfold marker. intros H%lxor_cancel_r. by apply lxor_cancel_l in H. Qed.

Lemma marker_small id c :
  0 <= id < 2 ^ 32 →
  marker id c = Z.lxor (Z.lxor (id * 2 ^ 32) c) 0xBADC0FFEE.
Proof.
  intros Hid. unfold marker, wrapU64, two64.
  rewrite (Z.mod_small id) by lia. rewrite Z.shiftl_mul_pow2 by lia.
  by rewrite Z.mod_small by lia.
Qed.

Lemma marker_injective id1 c1 id2 c2 :
  0 <= id1 < 2 ^ 32 → 0 <= id2 < 2 ^ 32 →
  0 <= c1 < 2 ^ 32 → 0 <= c2 < 2 ^ 32 →
  marker id1 c1 = marker id2 c2 → id1 = id2 ∧ c1 = c2.
Proof.
  intros H1 H2 Hc1 Hc2. rewrite !marker_small by done.
  intros H%lxor_cancel_r.
  assert (Hhi : ∀ id c, 0 <= id → 0 <= c < 2 ^ 32 →
            Z.shiftr (Z.lxor (id * 2 ^ 32) c) 32 = id).
  { intros id c Hid Hc. rewrite Z.shiftr_lxor.
    rewrite !Z.shiftr_div_pow2 by lia. rewrite Z.div_mul by lia.
    rewrite (Z.div_small c) by lia. apply Z.lxor_0_r. }
  assert (id1 = id2) as <-.
  { rewrite <- (Hhi id1 c1), <- (Hhi id2 c2) by lia. by rewrite H. }
  split; [done|]. by apply lxor_cancel_l in H.
Qed.

(** The eight bytes of a word, read back. *)
Lemma Uint64_leBytes v :
  0 <= v < 2 ^ 64 → foldr (λ byte acc, byte + 256 * acc) 0 (leBytes v) = v.
Proof.
  intros Hv. unfold leBytes.
  change (seqZ 0 8) with [0; 1; 2; 3; 4; 5; 6; 7].
  cbn [fmap list_fmap foldr]. unfold byteOf.
  rewrite !Z.shiftr_div_pow2 by lia.
  change (8 * 0) with 0. change (2 ^ 0) with 1. rewrite Z.div_1_r.
  assert (H2 : v / 2 ^ 16 = v / 256 / 256) by (by rewrite Z.div_div by lia).
  assert (H3 : v / 2 ^ 24 = v / 2 ^ 16 / 256) by (by rewrite Z.div_div by lia).
  assert (H4 : v / 2 ^ 32 = v / 2 ^ 24 / 256) by (by rewrite Z.div_div by lia).
  assert (H5 : v / 2 ^ 40 = v / 2 ^ 32 / 256) by (by rewrite Z.div_div by lia).
  assert (H6 : v / 2 ^ 48 = v / 2 ^ 40 / 256) by (by rewrite Z.div_div by lia).
  assert (H7 : v / 2 ^ 56 = v / 2 ^ 48 / 256) by (by rewrite Z.div_div by lia).
  change (8 * 1) with 8. change (8 * 2) with 16. change (8 * 3) with 24.
  change (8 * 4) with 32. change (8 * 5) with 40. change (8 * 6) with 48.
  change (8 * 7) with 56.
  assert (v / 2 ^ 56 < 256).
  { apply Z.div_lt_upper_bound; lia. }
  assert (0 <= v / 2 ^ 56) by (apply Z.div_pos; lia).
  rewrite (Z.mod_small (v / 2 ^ 56)) by lia.
  pose proof (Z.div_mod v 256 ltac:(lia)).
  pose proof (Z.div_mod (v / 2 ^ 8) 256 ltac:(lia)).
  pose proof (Z.div_mod (v / 2 ^ 16) 256 ltac:(lia)).
  pose proof (Z.div_mod (v / 2 ^ 24) 256 ltac:(lia)).
  pose proof (Z.div_mod (v / 2 ^ 32) 256 ltac:(lia)).
  pose proof (Z.div_mod (v / 2 ^ 40) 256 ltac:(lia)).
  pose proof (Z.div_mod (v / 2 ^ 48) 256 ltac:(lia)).
  change (2 ^ 8) with 256 in *.
  rewrite <- H2 in *. rewrite <- H3 in *. rewrite <- H4 in *.
  rewrite <- H5 in *. rewrite <- H6 in *. rewrite <- H7 in *.
  generalize dependent (v / 256). generalize dependent (v / 2 ^ 16).
  generalize dependent (v / 2 ^ 24). generalize dependent (v / 2 ^ 32).
  generalize dependent (v / 2 ^ 40). generalize dependent (v / 2 ^ 48).
  generalize dependent (v / 2 ^ 56). intros. lia.
Qed.

Lemma Uint64_at mem (off : nat) v :
  0 <= v < 2 ^ 64 →
  (∀ k : nat, (k < 8)%nat → mem !! (off + k)%nat = Some (byteOf v (Z.of_nat k))) →
  Uint64 mem off = v.
Proof.
  intros Hv Hbytes. unfold Uint64.
  assert (take 8 (drop off mem) = leBytes v) as ->; [|by apply Uint64_leBytes].
  apply list_eq. intros k. destruct (decide (k < 8)%nat) as [Hk|Hk].
  - rewrite lookup_take_lt, lookup_drop, leBytes_lookup by lia. by apply Hbytes.
  - rewrite lookup_take_ge by lia. symmetry. apply lookup_ge_None_2.
    rewrite leBytes_length. lia.
Qed.

Lemma cmdHog_serving ps f img :
  cmdHog ps f = HogServing img →
  0 <= bufLen img <= MaxInt32
  ∧ totalPages img = Z.quot (bufLen img) ps
  ∧ 0 <= dirtyPages img
  ∧ dirtyPages img = dirtyCount (totalPages img) (dirtyPct f)
  ∧ indices img = (if 0 <? dirtyPages img
                   then dirtyIndices (id f) (totalPages img) (dirtyPages img)
                   else []).
Proof.
  unfold cmdHog. destruct (memMiB f <=? 0); [done|].
  destruct (_ || _); [done|].
  destruct (MaxInt32 <? hogSize (memMiB f)) eqn:Hbig; [done|].
  destruct (hogSize (memMiB f) <? 0) eqn:Hneg; [done|].
  destruct (dirtyCount _ _ <? 0) eqn:Hd; [done|].
  intros [= <-]. cbn [bufLen totalPages dirtyPages indices].
  repeat split; try done; lia.
Qed.

(** No page of an empty buffer is selected. *)
Lemma dirtyCount_no_pages pct : dirtyCount 0 pct <= 0.
Proof.
  unfold dirtyCount. change (F64.ofZ 0) with (S754_zero false).
  destruct (F64.div pct (F64.ofZ 100)) as [s|s| |s m e]; cbn; try done.
Qed.

Lemma dirtyIndices_range id total dirty idx :
  0 < total < 2 ^ 64 → idx ∈ dirtyIndices id total dirty → 0 <= idx < total.
Proof.
  intros Ht. unfold dirtyIndices. change (map ?f ?l) with (f <$> l).
  intros (j & -> & _)%list_elem_of_fmap. unfold dirtyIndex.
  unfold wrapU64, two64. rewrite (Z.mod_small total) by lia.
  apply Z.mod_pos_bound. lia.
Qed.

(** The buffer before any page is marked: whole pages of the template,
    and zeros after the last whole page. *)
Lemma blank_layout ps size :
  8 <= ps < 2 ^ 62 → ps mod 8 = 0 → 0 <= size < 2 ^ 62 →
  ∃ t buf,
    fillTemplate (S (Z.to_nat ps)) 0 (replicate (Z.to_nat ps) 0) = Done t
    ∧ copyPages (S (Z.to_nat size)) 0 ps t (replicate (Z.to_nat size) 0) = Done buf
    ∧ Z.of_nat (length buf) = size
    ∧ ∀ p : nat, Z.of_nat p < size →
        buf !! p = Some (if Z.of_nat p <? size / ps * ps
                         then templateByte (Z.of_nat p mod ps) else 0).
Proof.
  intros Hps Hmod Hsize.
  pose proof (Z.div_mod ps 8 ltac:(lia)) as Hps8. rewrite Hmod in Hps8.
  destruct (fillTemplate_spec (Z.to_nat (ps / 8)) (S (Z.to_nat ps)) 0
              (replicate (Z.to_nat ps) 0)) as (t & Ht & Hlt & Htemplate);
    [lia|done| | | |].
  { rewrite length_replicate. lia. }
  { rewrite length_replicate. lia. }
  { lia. }
  rewrite length_replicate in Hlt, Htemplate.
  pose proof (Z.div_mod size ps ltac:(lia)) as Hdm.
  pose proof (Z.mod_pos_bound size ps ltac:(lia)) as Hm.
  assert (0 <= size / ps) by (apply Z.div_pos; lia).
  destruct (copyPages_spec (Z.to_nat (size / ps)) (S (Z.to_nat size)) 0 ps t
              (replicate (Z.to_nat size) 0)) as (buf & Hbuf & Hlb & Hpages);
    [lia|lia|lia| | | |].
  { rewrite length_replicate. nia. }
  { rewrite length_replicate. lia. }
  { assert (size / ps <= size) by (apply Z.div_le_upper_bound; nia). lia. }
  rewrite length_replicate in Hlb.
  exists t, buf. split; [done|]. split; [done|]. split; [lia|].
  intros p Hp. rewrite Hpages. rewrite Z2Nat.id by lia.
  replace (0 <=? Z.of_nat p) with true by lia. cbn [andb].
  rewrite Z.add_0_l, Z.sub_0_r.
  destruct (Z.of_nat p <? size / ps * ps) eqn:Hin.
  - pose proof (Z.mod_pos_bound (Z.of_nat p) ps ltac:(lia)) as Hpm.
    rewrite Htemplate. rewrite !Z2Nat.id by lia.
    by replace ((0 <=? Z.of_nat p mod ps) && (Z.of_nat p mod ps <? ps))
      with true by (symmetry; apply andb_true_iff; lia).
  - apply lookup_replicate_2. lia.
Qed.

Lemma expected_blank ps total v i :
  expected ps total [] v i
  = if i <? total * ps then templateByte (i mod ps) else 0.
Proof.
  unfold expected. rewrite bool_decide_eq_false_2; [done|]. apply not_elem_of_nil.
Qed.

Lemma hogMemory_bytes (pageSize : Z) (f : HogFlags) (img : HogImage)
    (ticks : nat) :
  cmdHog pageSize f = HogServing img →
  8 <= pageSize < 2 ^ 62 → pageSize mod 8 = 0 →
  ∃ mem,
    hogMemory pageSize f img ticks = Done mem
    ∧ Z.of_nat (length mem) = bufLen img
    ∧ (∀ idx, idx ∈ indices img → 0 <= idx < totalPages img)
    ∧ totalPages img * pageSize <= bufLen img
    ∧ ∀ p : nat, Z.of_nat p < bufLen img →
        mem !! p
        = Some (expected pageSize (totalPages img) (indices img)
                  (marker (id f) (if 0 <? redirtyMs f
                                  then wrapU64 (Z.of_nat ticks) else 0))
                  (Z.of_nat p)).
Proof.
  intros Hserve Hps Hmod.
  destruct (cmdHog_serving _ _ _ Hserve) as (Hsize & Htotal & Hdirty & Hcount & Hidx).
  unfold MaxInt32 in Hsize.
  rewrite Z.quot_div_nonneg in Htotal by lia.
  assert (Hfit : totalPages img * pageSize <= bufLen img).
  { rewrite Htotal, Z.mul_comm. apply Z.mul_div_le. lia. }
  assert (0 <= totalPages img) by (rewrite Htotal; apply Z.div_pos; lia).
  unfold hogMemory. replace (pageSize <? 0) with false by lia.
  destruct (blank_layout pageSize (bufLen img)) as (t & buf & -> & -> & Hlen & Hblank);
    [lia|done|lia|].
  rewrite <- Htotal in Hblank.
  destruct (0 <? dirtyPages img) eqn:Hpos.
  2: { exists buf. rewrite Hidx. split; [done|]. split; [done|].
       split; [by intros idx ?%elem_of_nil|]. split; [done|].
       intros p Hp. by rewrite expected_blank, Hblank. }
  assert (0 < totalPages img).
  { destruct (decide (totalPages img = 0)) as [Hz|]; [|lia].
    pose proof (dirtyCount_no_pages (dirtyPct f)). rewrite Hz in Hcount. lia. }
  assert (Hrange : ∀ idx, idx ∈ indices img → 0 <= idx < totalPages img).
  { intros idx Hin. rewrite Hidx in Hin. eapply dirtyIndices_range; [|done].
    assert (totalPages img <= bufLen img); [|lia].
    rewrite Htotal. apply Z.div_le_upper_bound; nia. }
  assert (Hvalid : ∀ b : list Z, length b = length buf →
            Forall (λ idx, 0 <= idx ∧ idx * pageSize + pageSize <= Z.of_nat (length b))
              (indices img)).
  { intros b Hb. apply Forall_forall. intros idx Hin%Hrange. rewrite Hb. nia. }
  destruct (applyDirty_spec buf pageSize (id f) (indices img) 0)
    as (buf1 & -> & Hl1 & Hmarked); [lia|lia|by apply Hvalid|].
  assert (Hn : length (indices img) = Z.to_nat (dirtyPages img)).
  { rewrite Hidx. unfold dirtyIndices. by rewrite length_map, length_seqZ. }
  replace (0 <? Z.of_nat (length (indices img))) with true by lia.
  rewrite andb_true_r. destruct (0 <? redirtyMs f) eqn:Hms.
  - destruct (redirty_spec ticks buf1 pageSize (id f) (indices img) 0)
      as (mem & -> & Hl2 & Hticked); [lia|lia|by apply Hvalid|].
    exists mem. split; [done|]. split; [lia|]. split; [done|]. split; [done|].
    intros p Hp. rewrite Hticked, Hmarked, Hblank by done. unfold expected.
    rewrite Z.add_0_l.
    destruct (bool_decide _ && _); cbn [andb]; [|done].
    destruct ticks; [|by rewrite bool_decide_eq_true_2 by done].
    by rewrite bool_decide_eq_false_2 by (intros Hk; by apply Hk).
  - exists buf1. split; [done|]. split; [lia|]. split; [done|]. split; [done|].
    intros p Hp. rewrite Hmarked, Hblank by done. unfold expected.
    by destruct (bool_decide _ && _).
Qed.


(** X15.  What KSM can merge.  Two workloads of the same size hold, on
    every page that neither of them has selected, the same bytes, whatever
    their identities and however many ticks each has seen; with a dirty
    fraction that selects no page their buffers are equal. *)
Theorem hogMemory_shared_pages (pageSize : Z) (f1 f2 : HogFlags)
    (img1 img2 : HogImage) (ticks1 ticks2 : nat) :
  cmdHog pageSize f1 = HogServing img1 →
  cmdHog pageSize f2 = HogServing img2 →
  memMiB f1 = memMiB f2 →
  8 <= pageSize < 2 ^ 62 → pageSize mod 8 = 0 →
  ∃ mem1 mem2,
    hogMemory pageSize f1 img1 ticks1 = Done mem1
    ∧ hogMemory pageSize f2 img2 ticks2 = Done mem2
    ∧ length mem1 = length mem2
    ∧ totalPages img1 = totalPages img2
    ∧ (∀ i, 0 <= i < bufLen img1 →
         i / pageSize ∉ indices img1 → i / pageSize ∉ indices img2 →
         mem1 !! Z.to_nat i = mem2 !! Z.to_nat i)
    ∧ (indices img1 = [] → indices img2 = [] → mem1 = mem2).
Proof.
  intros Hs1 Hs2 Hsame Hps Hmod.
  destruct (hogMemory_bytes pageSize f1 img1 ticks1 Hs1 Hps Hmod)
    as (mem1 & Hmem1 & Hlen1 & _ & _ & Hb1).
  destruct (hogMemory_bytes pageSize f2 img2 ticks2 Hs2 Hps Hmod)
    as (mem2 & Hmem2 & Hlen2 & _ & _ & Hb2).
  destruct (cmdHog_serving _ _ _ Hs1) as (_ & Ht1 & _).
  destruct (cmdHog_serving _ _ _ Hs2) as (_ & Ht2 & _).
  assert (Hbuf : bufLen img1 = bufLen img2).
  { revert Hs1 Hs2. unfold cmdHog. rewrite Hsame.
    repeat match goal with |- context [if ?b then _ else _] => destruct b end;
      try done.
    all: by intros [= <-] [= <-]. }
  assert (Htot : totalPages img1 = totalPages img2) by congruence.
  exists mem1, mem2. split; [done|]. split; [done|]. split; [lia|].
  split; [done|].
  assert (Hsame_at : ∀ i, 0 <= i < bufLen img1 →
            i / pageSize ∉ indices img1 → i / pageSize ∉ indices img2 →
            mem1 !! Z.to_nat i = mem2 !! Z.to_nat i).
  { intros i Hi Hn1 Hn2. rewrite Hb1, Hb2 by lia. rewrite Z2Nat.id by lia.
    unfold expected. rewrite !bool_decide_eq_false_2 by done.
    by rewrite Htot. }
  split; [done|]. intros He1 He2. apply list_eq. intros p.
  destruct (decide (Z.of_nat p < bufLen img1)) as [Hp|Hp].
  - rewrite <- (Nat2Z.id p). apply Hsame_at; [lia|rewrite He1|rewrite He2];
      apply not_elem_of_nil.
  - rewrite !lookup_ge_None_2; [done|lia|lia].
Qed.

(** X16.  The markers tell the workloads and the ticks apart.  A marker is
    a 64-bit value; for one workload, two counters give the same marker
    only if they are equal, so every tick changes each selected page; and
    as long as the identities and the counters stay below 2^32, two markers
    are equal only for the same identity and the same counter. *)
Theorem marker_distinct (id1 id2 c1 c2 : Z) :
  (0 <= c1 < 2 ^ 64 → 0 <= marker id1 c1 < 2 ^ 64)
  ∧ (marker id1 c1 = marker id1 c2 → c1 = c2)
  ∧ (0 <= c1 < 2 ^ 64 - 1 → marker id1 (wrapU64 (c1 + 1)) ≠ marker id1 c1)
  ∧ (0 <= id1 < 2 ^ 32 → 0 <= id2 < 2 ^ 32 →
     0 <= c1 < 2 ^ 32 → 0 <= c2 < 2 ^ 32 →
     marker id1 c1 = marker id2 c2 → id1 = id2 ∧ c1 = c2)
  ∧ marker (id1 + 2 ^ 32) c1 = marker id1 c1.
Proof.
  split; [apply marker_range|]. split; [apply marker_counter|].
  split; [|split; [apply marker_injective|]].
  - intros Hc Heq%marker_counter. unfold wrapU64, two64 in Heq.
    rewrite Z.mod_small in Heq by lia. lia.
  - unfold marker, wrapU64, two64. do 2 f_equal.
    rewrite !Z.shiftl_mul_pow2 by lia.
    rewrite !Z.mul_mod_idemp_l by lia.
    replace ((id1 + 2 ^ 32) * 2 ^ 32) with (id1 * 2 ^ 32 + 1 * 2 ^ 64) by lia.
    by rewrite Z.mod_add by lia.
Qed.

End HogMemory.


Lemma hogMemory_shared_pages_witness :
  ∃ mem1 mem2,
    HogMem.hogMemory 4096 (SmallHog.flags 1) (SmallHog.image 1) 0 = HogMem.Done mem1
    ∧ HogMem.hogMemory 4096 (SmallHog.flags 2) (SmallHog.image 2) 5 = HogMem.Done mem2
    ∧ length mem1 = length mem2.
Proof.
  destruct (hogMemory_shared_pages 4096 (SmallHog.flags 1) (SmallHog.flags 2)
              (SmallHog.image 1) (SmallHog.image 2) 0 5)
    as (mem1 & mem2 & H1 & H2 & Hlen & _).
  - vm_compute. reflexivity.
  - vm_compute. reflexivity.
  - reflexivity.
  - lia.
  - reflexivity.
  - exists mem1, mem2. split; [exact H1|]. split; [exact H2|exact Hlen].
Defined.


(* ===================================================================== *)
(** ** The command line *)
(* ===================================================================== *)

Section CliFacts.

Import GoInt OS Bench Facts Outcome Text Strings Strconv Main Cli.

Variable cli : CliEnv.

Lemma parseScale_range fuel s out :
  parseScale fuel s = Some (Ok out) →
  ∃ min max step, 0 < step ∧ scaleRange fuel min max step = Some (Ok out).
Proof.
  unfold parseScale.
  destruct (Split s "..") as [|p0 [|p1 [|p2 [|p3 ps]]]]; try done.
  - destruct (Atoi (TrimSpace p0)) as [min|]; [|done].
    destruct (Atoi (TrimSpace p1)) as [max|]; [|done].
    intros H. exists min, max, 1. by split; [lia|].
  - destruct (Atoi (TrimSpace p0)) as [min|]; [|done].
    destruct (Atoi (TrimSpace p1)) as [max|]; [|done].
    destruct (Atoi (TrimSpace p2)) as [step|]; [|done].
    destruct (step <=? 0) eqn:Hstep; [done|].
    intros H. exists min, max, step. by split; [lia|].
Qed.

(** A scale that is accepted starts with a positive count. *)
Lemma scaleRange_head fuel min max step out :
  scaleRange fuel min max step = Some (Ok out) →
  0 < min ∧ ∃ rest, out = min :: rest.
Proof.
  unfold scaleRange. destruct (_ || _) eqn:Hbad; [done|].
  apply orb_false_iff in Hbad as [[H1 H2]%orb_false_iff H3].
  destruct fuel as [|fuel]; cbn [scaleLoop];
    replace (min <=? max) with true by lia; [done|].
  destruct (scaleLoop fuel _ max step) as [rest|]; [|done].
  intros [= <-]. split; [lia|by exists rest].
Qed.

Lemma benchInstances_nonempty fuel fl ns :
  benchInstances fuel fl = Some (Ok ns) → ns ≠ [].
Proof.
  unfold benchInstances. destruct (negb _).
  - destruct (parseScale fuel (scale fl)) as [[out|e]|] eqn:Hp; [|done..].
    intros [= <-]. apply parseScale_range in Hp as (min & max & step & _ & Hr).
    by apply scaleRange_head in Hr as [_ [rest ->]].
  - destruct (0 <? instances fl); [|done]. by intros [= <-].
Qed.

Lemma scaleValues_positive min step count :
  0 < min → 0 < step →
  List.filter isPositive (scaleValues min step count) = scaleValues min step count.
Proof.
  intros Hmin Hstep. revert min Hmin.
  induction count as [|count IH]; intros min Hmin; [done|].
  rewrite scaleValues_S. cbn [List.filter]. unfold isPositive at 1.
  replace (0 <? min) with true by lia. by rewrite IH by lia.
Qed.

Lemma append_nonempty (a b : string) :
  b ≠ EmptyString → String.eqb (a ++ b) "" = false.
Proof.
  intros Hb. apply String_eqb_empty. destruct a; [done|]. done.
Qed.


End CliFacts.



(* ===================================================================== *)
(** ** The lines of /proc *)
(* ===================================================================== *)

Section ProcFacts.

Import GoInt Strings Strconv Text ProcStat.

Lemma fieldsFrom_space c r :
  isSpace c = true → fieldsFrom (String c r) = (EmptyString, Fields r).
Proof.
  intros Hc. cbn [fieldsFrom]. unfold Fields.
  destruct (fieldsFrom r) as [w fs]. by rewrite Hc.
Qed.

Lemma fieldsFrom_word w r :
  allChars (fun c => negb (isSpace c)) w = true →
  fieldsFrom (w ++ r) = ((w ++ (fieldsFrom r).1)%string, (fieldsFrom r).2).
Proof.
  induction w as [|c w IH]; intros Hw.
  - change (EmptyString ++ r)%string with r.
    change (EmptyString ++ (fieldsFrom r).1)%string with (fieldsFrom r).1.
    by destruct (fieldsFrom r).
  - cbn [allChars] in Hw. apply andb_true_iff in Hw as [Hc Hw].
    change (String c w ++ r)%string with (String c (w ++ r)).
    cbn [fieldsFrom]. rewrite IH by done. cbn [fst snd].
    apply negb_true_iff in Hc. by rewrite Hc.
Qed.

Lemma Fields_space c r : isSpace c = true → Fields (String c r) = Fields r.
Proof. intros Hc. unfold Fields at 1. by rewrite fieldsFrom_space. Qed.

(** A word in front of white space, or at the end, is a field. *)
Lemma Fields_word w rest :
  isWord w →
  rest = EmptyString ∨ (∃ c r, rest = String c r ∧ isSpace c = true) →
  Fields (w ++ rest) = w :: Fields rest.
Proof.
  intros [Hne Hw] Hrest. unfold Fields at 1. rewrite fieldsFrom_word by done.
  assert ((fieldsFrom rest).1 = EmptyString ∧ (fieldsFrom rest).2 = Fields rest)
    as [-> ->].
  { destruct Hrest as [-> | (c & r & -> & Hc)]; [done|].
    rewrite Fields_space, fieldsFrom_space by done. done. }
  rewrite append_empty. by destruct w.
Qed.

Lemma spaced_head ws tail :
  tail = EmptyString ∨ (∃ c r, tail = String c r ∧ isSpace c = true) →
  spaced ws tail = EmptyString
  ∨ ∃ c r, spaced ws tail = String c r ∧ isSpace c = true.
Proof.
  destruct ws as [|w ws]; [done|]. intros _. right. by eexists _, _.
Qed.

(** [strings.Fields] gives back the fields of a line in which they are
    set apart by single spaces. *)
Lemma Fields_spaced ws tail :
  Forall isWord ws →
  tail = EmptyString ∨ (∃ c r, tail = String c r ∧ isSpace c = true) →
  Fields (spaced ws tail) = ws ++ Fields tail.
Proof.
  intros Hws Htail. induction Hws as [|w ws Hw Hws IH]; [done|].
  cbn [spaced foldr]. fold (spaced ws tail). rewrite Fields_space by done.
  rewrite Fields_word; [|done|by apply spaced_head]. by rewrite IH.
Qed.

Lemma LastIndex_none s c : allChars (fun a => negb (Ascii.eqb a c)) s = true →
  LastIndex s c = None.
Proof.
  induction s as [|a r IH]; [done|]. cbn [allChars LastIndex].
  intros [Ha Hr]%andb_true_iff. rewrite IH by done.
  apply negb_true_iff in Ha. by rewrite Ha.
Qed.

(** The last closing parenthesis is found, whatever stands before it. *)
Lemma LastIndex_last head rest c :
  allChars (fun a => negb (Ascii.eqb a c)) rest = true →
  LastIndex (head ++ String c rest) c = Some (String.length head).
Proof.
  intros Hrest. induction head as [|a r IH].
  - change (EmptyString ++ String c rest)%string with (String c rest).
    cbn [LastIndex]. rewrite LastIndex_none by done.
    by rewrite Ascii.eqb_refl.
  - change (String a r ++ String c rest)%string
      with (String a (r ++ String c rest)).
    cbn [LastIndex String.length]. by rewrite IH.
Qed.

Lemma sliceFrom_app head rest c :
  sliceFrom (S (String.length head)) (head ++ String c rest) = rest.
Proof.
  induction head as [|a r IH]; [done|].
  change (String a r ++ String c rest)%string
    with (String a (r ++ String c rest)).
  cbn [String.length]. exact IH.
Qed.

Lemma Fields_spaces tail : allChars isSpace tail = true → Fields tail = [].
Proof.
  induction tail as [|c r IH]; [done|]. cbn [allChars].
  intros [Hc Hr]%andb_true_iff. rewrite Fields_space by done. auto.
Qed.

Lemma spaces_head tail :
  allChars isSpace tail = true →
  tail = EmptyString ∨ (∃ c r, tail = String c r ∧ isSpace c = true).
Proof.
  destruct tail as [|c r]; [by left|]. cbn [allChars].
  intros [Hc _]%andb_true_iff. right. by exists c, r.
Qed.

Lemma spaced_chars (P : ascii → bool) ws tail :
  (∀ c, isSpace c = true → P c = true) →
  Forall (λ w, allChars P w = true) ws → allChars P tail = true →
  allChars P (spaced ws tail) = true.
Proof.
  intros Hsp Hws Htail. induction Hws as [|w ws Hw Hws IH]; [done|].
  cbn [spaced foldr]. fold (spaced ws tail). cbn [allChars].
  rewrite Hsp by done. rewrite allChars_app, Hw, IH. done.
Qed.

(** After the last closing parenthesis the line is split into its
    fields. *)
Lemma parseProcStat_line (head : string) (fields : list string) (tail : string) :
  Forall isWord fields →
  Forall (λ w, allChars notParen w = true) fields →
  allChars isSpace tail = true →
  parseProcStatUtimeStime (head ++ String ")" (spaced fields tail))
  = if (length fields <? 13)%nat then Err errFields
    else match ParseInt (field fields 11) with
         | None => Err errSyntax
         | Some ut =>
             match ParseInt (field fields 12) with
             | None => Err errSyntax
             | Some st => Ok (ut, st)
             end
         end.
Proof.
  intros Hwords Hparen Htail. unfold parseProcStatUtimeStime.
  rewrite LastIndex_last.
  - cbv zeta. rewrite sliceFrom_app.
    rewrite Fields_spaced by (done || by apply spaces_head).
    by rewrite Fields_spaces, app_nil_r by done.
  - apply (spaced_chars notParen); [|done|].
    + intros c Hc. unfold notParen. apply negb_true_iff, Ascii.eqb_neq.
      by intros ->.
    + apply (allChars_impl isSpace); [|done].
      intros c Hc. unfold notParen. apply negb_true_iff, Ascii.eqb_neq.
      by intros ->.
Qed.

Lemma parseProcStat_ok head fields tail a b ut st :
  Forall isWord fields →
  Forall (λ w, allChars notParen w = true) fields →
  allChars isSpace tail = true →
  fields !! 11%nat = Some a → fields !! 12%nat = Some b →
  ParseInt a = Some ut → ParseInt b = Some st →
  parseProcStatUtimeStime (head ++ String ")" (spaced fields tail)) = Ok (ut, st).
Proof.
  intros Hw Hp Ht Ha Hb Hut Hst. rewrite parseProcStat_line by done.
  apply lookup_lt_Some in Hb as Hlen.
  replace (length fields <? 13)%nat with false
    by (symmetry; apply Nat.ltb_ge; lia).
  unfold field. rewrite Ha, Hb.
  change (default EmptyString (Some a)) with a.
  change (default EmptyString (Some b)) with b. by rewrite Hut, Hst.
Qed.

(** X18.  [parseProcStatUtimeStime] is not misled by the name of the
    process.  Whatever stands before the last closing parenthesis of the
    line (the pid and a name that may hold spaces and parentheses), the
    fields are counted from there: with fewer than 13 fields after it the
    line is rejected, and otherwise the 12th and the 13th of them (the
    fields 14 and 15 of the line) are returned as utime and stime, or the
    error of [strconv.ParseInt] if one of them is not a number. *)
Theorem parseProcStat_after_comm (head : string) (fields : list string)
    (tail : string) :
  Forall isWord fields →
  Forall (λ w, allChars notParen w = true) fields →
  allChars isSpace tail = true →
  let line := (head ++ String ")" (spaced fields tail))%string in
  ((length fields < 13)%nat →
     parseProcStatUtimeStime line = Err errFields)
  ∧ (∀ a b ut st,
       fields !! 11%nat = Some a → fields !! 12%nat = Some b →
       ParseInt a = Some ut → ParseInt b = Some st →
       parseProcStatUtimeStime line = Ok (ut, st))
  ∧ (∀ a b,
       fields !! 11%nat = Some a → fields !! 12%nat = Some b →
       ParseInt a = None ∨ ParseInt b = None →
       parseProcStatUtimeStime line = Err errSyntax)
  ∧ (∀ s, allChars notParen s = true →
       parseProcStatUtimeStime s = Err errFormat).
Proof.
  intros Hwords Hparen Htail line.
  pose proof (parseProcStat_line head fields tail Hwords Hparen Htail) as Hafter.
  fold line in Hafter.
  split; [|split; [|split]].
  - intros Hlen. rewrite Hafter. by replace (length fields <? 13)%nat with true
      by (symmetry; apply Nat.ltb_lt; lia).
  - intros a b ut st Ha Hb Hut Hst. by apply (parseProcStat_ok _ _ _ a b).
  - intros a b Ha Hb Hbad. rewrite Hafter.
    apply lookup_lt_Some in Hb as Hlen.
    replace (length fields <? 13)%nat with false
      by (symmetry; apply Nat.ltb_ge; lia).
    unfold field. rewrite Ha, Hb.
    change (default EmptyString (Some a)) with a.
    change (default EmptyString (Some b)) with b.
    destruct Hbad as [-> | ->]; [done|]. by destruct (ParseInt a).
  - intros s Hs. unfold parseProcStatUtimeStime.
    by rewrite LastIndex_none.
Qed.

End ProcFacts.

(** The line of a ksmd that has used 7 and 1234 ticks. *)
Lemma parseProcStat_after_comm_witness :
  ProcStat.parseProcStatUtimeStime ProcStat.ksmdStat = Ok (7, 1234).
Proof.
  destruct (parseProcStat_after_comm "37 (ksmd"
              ["S"; "2"; "0"; "0"; "0"; "-1"; "2129984"; "0"; "0"; "0"; "0"; "7";
               "1234"; "0"; "0"; "25"; "5"; "1"; "0"; "17"; "0"; "0"]%string
              ProcStat.newline) as (_ & Hok & _).
  - repeat constructor; discriminate.
  - repeat constructor.
  - reflexivity.
  - exact (Hok "7"%string "1234"%string 7 1234 eq_refl eq_refl eq_refl eq_refl).
Defined.


(* ===================================================================== *)
(** ** /proc/meminfo *)
(* ===================================================================== *)

Section MemInfo.

Import GoInt Strings Strconv Text ProcStat Ksm.

Lemma Fields_pad pad s : allChars isSpace pad = true → Fields (pad ++ s) = Fields s.
Proof.
  induction pad as [|c r IH]; [done|]. cbn [allChars].
  intros [Hc Hr]%andb_true_iff.
  change (String c r ++ s)%string with (String c (r ++ s)).
  rewrite Fields_space by done. auto.
Qed.

Lemma TrimSuffix_colon key : TrimSuffix (key ++ ":") ":" = key.
Proof.
  induction key as [|c r IH]; [done|].
  change (String c r ++ ":")%string with (String c (r ++ ":")).
  cbn [TrimSuffix]. rewrite IH. by destruct r.
Qed.

Lemma ParseUint_FormatInt v : 0 <= v <= maxInt64 → ParseUint (FormatInt v) = Some v.
Proof.
  intros Hv. unfold ParseUint, FormatInt. replace (v <? 0) with false by lia.
  destruct (formatDigits_head 18 v EmptyString) as (d & r & Hd & Hhead); [lia|].
  destruct (parseDigits_formatDigits 18 v EmptyString) as (k & Hk & Hparse).
  { unfold maxInt64, two63 in Hv.
    change (10 ^ Z.of_nat 19) with 10000000000000000000. lia. }
  rewrite Hparse. rewrite Hhead. cbn [parseDigits].
  rewrite Z.mul_0_l, Z.add_0_l.
  by replace (v <? two64) with true by (unfold maxInt64, two63, two64 in *; lia).
Qed.

Lemma ParseUint_range s v : ParseUint s = Some v → 0 <= v < 2 ^ 64.
Proof.
  assert (Hnn : ∀ t acc n, 0 <= acc → parseDigits acc t = Some n → 0 <= n).
  { induction t as [|c r IH]; intros acc n Hacc; cbn [parseDigits].
    - intros [= <-]. done.
    - unfold digitVal. destruct (_ && _) eqn:Hc; [|done].
      apply andb_true_iff in Hc as [H1%Nat.leb_le H2]. apply IH. lia. }
  unfold ParseUint. destruct s as [|c r]; [done|].
  destruct (parseDigits 0 (String c r)) as [n|] eqn:Hp; [|done].
  destruct (n <? two64) eqn:Hlt; [|done]. intros [= <-].
  apply Hnn in Hp; [|lia]. unfold two64 in Hlt. lia.
Qed.

(** The loop of [ReadMemInfo] keeps to the fields it wants. *)
Lemma memInfo_wanted lines out0 :
  (∀ k x, out0 !! k = Some x → want k = true ∧ 0 <= x < 2 ^ 64) →
  ∀ k x, foldl memInfoLine out0 lines !! k = Some x →
         want k = true ∧ 0 <= x < 2 ^ 64.
Proof.
  revert out0. induction lines as [|l lines IH]; intros out0 H0; [done|].
  cbn [foldl]. apply IH. intros k x. unfold memInfoLine.
  destruct (Fields l) as [|p0 [|p1 ps]]; [by apply H0..|].
  destruct (want (TrimSuffix p0 ":")) eqn:Hw; [|by apply H0].
  destruct (ParseUint p1) as [val|] eqn:Hv; [|by apply H0].
  destruct (decide (TrimSuffix p0 ":" = k)) as [<-|Hne].
  - rewrite lookup_insert_eq. intros [= <-]. split; [done|].
    by eapply ParseUint_range.
  - rewrite lookup_insert_ne by done. apply H0.
Qed.

(** A line that names another field leaves a field as it is. *)
Lemma memInfo_other lines out0 key :
  (∀ l p0 ps, l ∈ lines → Fields l = p0 :: ps → TrimSuffix p0 ":" ≠ key) →
  foldl memInfoLine out0 lines !! key = out0 !! key.
Proof.
  revert out0. induction lines as [|l lines IH]; intros out0 Hother; [done|].
  cbn [foldl]. rewrite IH.
  - unfold memInfoLine.
    destruct (Fields l) as [|p0 [|p1 ps]] eqn:Hf; [done..|].
    destruct (want _); [|done]. destruct (ParseUint p1); [|done].
    rewrite lookup_insert_ne; [done|].
    eapply Hother; [|exact Hf]. apply elem_of_cons. by left.
  - intros l' p0 ps Hin. apply Hother. apply elem_of_cons. by right.
Qed.

Lemma wanted_word key : want key = true → isWord (key ++ ":").
Proof.
  unfold want. intros Hw%bool_decide_eq_true.
  repeat (apply elem_of_cons in Hw as [-> | Hw]; [by split|]).
  by apply elem_of_nil in Hw.
Qed.

(** X19.  [ReadMemInfo] reads a field of /proc/meminfo as the kernel
    prints it: for a line "Key:", white space, the decimal number and
    whatever follows after more white space (the unit), the map holds the
    number under Key, provided that Key is one of MemTotal, MemFree,
    MemAvailable, SwapTotal and SwapFree and no later line names the same
    field.  The map never holds another key, and its values are below
    2^64. *)
Theorem ReadMemInfo_reads (sc : Scan) (pre post : list string)
    (key pad rest : string) (v : Z) :
  scanErr sc = false →
  scanLines sc = pre ++ (key ++ ":" ++ pad ++ FormatInt v ++ rest)%string :: post →
  want key = true →
  pad ≠ EmptyString → allChars isSpace pad = true →
  0 <= v <= maxInt64 →
  rest = EmptyString ∨ (∃ c r, rest = String c r ∧ isSpace c = true) →
  (∀ l p0 ps, l ∈ post → Fields l = p0 :: ps → TrimSuffix p0 ":" ≠ key) →
  ∃ out,
    ReadMemInfo (Some sc) = Ok out
    ∧ out !! key = Some v
    ∧ (∀ k x, out !! k = Some x → want k = true ∧ 0 <= x < 2 ^ 64).
Proof.
  intros Herr Hlines Hwant Hpad Hspace Hv Hrest Hpost.
  unfold ReadMemInfo. rewrite Herr. eexists. split; [done|]. split.
  - rewrite Hlines, foldl_app. cbn [foldl]. rewrite memInfo_other by done.
    unfold memInfoLine.
    assert (Hf : ∃ ps, Fields (key ++ ":" ++ pad ++ FormatInt v ++ rest)
                       = (key ++ ":")%string :: FormatInt v :: ps).
    { exists (Fields rest).
      assert ((key ++ ":" ++ pad ++ FormatInt v ++ rest)%string
              = ((key ++ ":") ++ pad ++ FormatInt v ++ rest)%string) as ->.
      { clear. induction key as [|c r IH]; [done|].
        change (String c r ++ ?x)%string with (String c (r ++ x)).
        by rewrite IH. }
      rewrite Fields_word; [|by apply wanted_word|].
      - rewrite Fields_pad by done. rewrite Fields_word; [done| |done].
        split; [apply FormatInt_nonempty|].
        apply (allChars_impl isNumeric); [|apply FormatInt_numeric].
        intros c Hc. by rewrite isNumeric_not_space.
      - destruct pad as [|c r]; [done|]. cbn [allChars] in Hspace.
        apply andb_true_iff in Hspace as [Hc _]. right. by eexists c, _. }
    destruct Hf as [ps ->]. rewrite TrimSuffix_colon, Hwant.
    rewrite ParseUint_FormatInt by done. by rewrite lookup_insert_eq.
  - apply memInfo_wanted. intros k x. by rewrite lookup_empty.
Qed.

End MemInfo.

Lemma ReadMemInfo_reads_witness :
  ∃ out, Ksm.ReadMemInfo (Some ProcStat.meminfo) = Ok out
         ∧ out !! "MemAvailable"%string = Some 9000000.
Proof.
  destruct (ReadMemInfo_reads ProcStat.meminfo
              ["MemTotal:       16384256 kB"%string]
              ["SwapTotal:             0 kB"%string]
              "MemAvailable" "    " " kB" 9000000) as (out & Hout & Hkey & _).
  - reflexivity.
  - reflexivity.
  - reflexivity.
  - discriminate.
  - reflexivity.
  - vm_compute. split; discriminate.
  - right. eexists _, _. split; reflexivity.
  - intros l p0 ps Hin Hf. apply list_elem_of_singleton in Hin. subst l.
    vm_compute in Hf. injection Hf as <- _. discriminate.
  - exists out. split; [exact Hout|exact Hkey].
Defined.

(* ===================================================================== *)
(** ** The ticks of ksmd *)
(* ===================================================================== *)

Section KsmdTicks.

Import GoInt Strings Strconv Text ProcStat.

Variable host : Ksm.Host.

Lemma findComm_first comm s pre e post pid :
  Forall (λ x, isComm host s comm x = false) pre →
  isComm host s comm e = true → Atoi (Ksm.Name e) = Some pid →
  findComm host comm s (pre ++ e :: post) = Ok pid.
Proof.
  intros Hpre He Hpid. induction Hpre as [|x pre Hx Hpre IH].
  - cbn [app findComm]. unfold isComm in He. rewrite Hpid in He. rewrite Hpid.
    destruct (Ksm.IsDir e); [|done]. cbn [negb andb] in *.
    destruct (Ksm.files s !! _); [|done]. by rewrite He.
  - cbn [app findComm]. unfold isComm in Hx.
    destruct (Ksm.IsDir x); [|done]. cbn [negb andb] in *.
    destruct (Atoi (Ksm.Name x)); [|done].
    destruct (Ksm.files s !! _); [|done]. by rewrite Hx.
Qed.

Lemma findComm_none comm s d :
  Forall (λ x, isComm host s comm x = false) d →
  findComm host comm s d = Err errNotFound.
Proof.
  intros Hd. induction Hd as [|x d Hx Hd IH]; [done|].
  cbn [findComm]. unfold isComm in Hx.
  destruct (Ksm.IsDir x); [|done]. cbn [negb andb] in *.
  destruct (Atoi (Ksm.Name x)); [|done].
  destruct (Ksm.files s !! _); [|done]. by rewrite Hx.
Qed.

(** X20.  [readKsmdTicks] is the CPU time of the first ksmd in /proc.
    [findPIDByComm] returns the pid of the first entry of /proc that is a
    directory with a numeric name whose file comm holds the name looked
    for, white space apart, and "not found" when there is none; and
    [readKsmdTicks] returns the sum of the fields utime and stime of the
    file stat of that pid. *)
Theorem readKsmdTicks_first (s : Ksm.Sys) (pre post : list Ksm.DirEntry)
    (e : Ksm.DirEntry) (pid : Z) :
  Ksm.dirs s !! "/proc"%string = Some (pre ++ e :: post) →
  Forall (λ x, isComm host s "ksmd" x = false) pre →
  isComm host s "ksmd" e = true →
  Atoi (Ksm.Name e) = Some pid →
  findPIDByComm host "ksmd" s = Ok pid
  ∧ (∀ head fields tail a b ut st,
       Ksm.files s !! Ksm.Join host (Ksm.Join host "/proc" (Itoa pid)) "stat"
       = Some (head ++ String ")" (spaced fields tail))%string →
       Forall isWord fields → Forall (λ w, allChars notParen w = true) fields →
       allChars isSpace tail = true →
       fields !! 11%nat = Some a → fields !! 12%nat = Some b →
       ParseInt a = Some ut → ParseInt b = Some st →
       readKsmdTicks host s = Ok (wrap64 (ut + st)))
  ∧ (∀ s0 d, Ksm.dirs s0 !! "/proc"%string = Some d →
       Forall (λ x, isComm host s0 "ksmd" x = false) d →
       readKsmdTicks host s0 = Err errNotFound).
Proof.
  intros Hdir Hpre He Hpid.
  assert (Hfind : findPIDByComm host "ksmd" s = Ok pid).
  { unfold findPIDByComm. rewrite Hdir. by apply findComm_first. }
  split; [done|]. split.
  - intros head fields tail a b ut st Hstat Hw Hp Ht Ha Hb Hut Hst.
    unfold readKsmdTicks. rewrite Hfind, Hstat.
    by rewrite (parseProcStat_ok head fields tail a b ut st).
  - intros s0 d Hd Hnone. unfold readKsmdTicks, findPIDByComm.
    rewrite Hd. by rewrite findComm_none.
Qed.

End KsmdTicks.

(** The ksmd of the sample /proc has used 7 + 1234 ticks. *)
Lemma readKsmdTicks_first_witness :
  ProcStat.findPIDByComm Sysfs.plainHost "ksmd" ProcStat.procfs = Ok 37
  ∧ ProcStat.readKsmdTicks Sysfs.plainHost ProcStat.procfs = Ok 1241.
Proof.
  destruct (readKsmdTicks_first Sysfs.plainHost ProcStat.procfs
              [ {| Ksm.Name := "1"; Ksm.IsDir := true |} ]
              [ {| Ksm.Name := "meminfo"; Ksm.IsDir := false |} ]
              {| Ksm.Name := "37"; Ksm.IsDir := true |} 37)
    as (Hfind & Hticks & _).
  - vm_compute. reflexivity.
  - constructor; [vm_compute; reflexivity|constructor].
  - vm_compute. reflexivity.
  - reflexivity.
  - split; [exact Hfind|].
    apply (Hticks "37 (ksmd"%string
             ["S"; "2"; "0"; "0"; "0"; "-1"; "2129984"; "0"; "0"; "0"; "0"; "7";
              "1234"; "0"; "0"; "25"; "5"; "1"; "0"; "17"; "0"; "0"]%string
             ProcStat.newline "7"%string "1234"%string 7 1234).
    + vm_compute. reflexivity.
    + repeat constructor; discriminate.
    + repeat constructor.
    + reflexivity.
    + reflexivity.
    + reflexivity.
    + reflexivity.
    + reflexivity.
Defined.

(* ===================================================================== *)
(** ** The figures of the report *)
(* ===================================================================== *)

Section ReportFacts.

Import GoInt F64 FloatValue Bench Report.

(** Dividing by 1024 is exact. *)
Lemma div_kib_exact m e :
  Zpos (Pos.size m) = 53 -> -1000 <= e <= 900 ->
  div (S754_finite false m e) (ofZ 1024) = S754_finite false m (e - 10).
Proof.
  intros Hm He.
  change (ofZ 1024) with (S754_finite false 4503599627370496 (-42)).
  unfold div. cbn [SFdiv xorb]. unfold SFdiv_core_binary.
  cbn [Zdigits2]. rewrite digits2_size, Hm.
  change (Z.pos (digits2_pos 4503599627370496)) with 53.
  assert (He' : Z.min (fexp prec emax (53 + e - (53 + -42))) (e - -42) = e - 11).
  { unfold fexp, emin, prec, emax. lia. }
  rewrite He'.
  replace (e - -42 - (e - 11)) with 53 by lia.
  rewrite Z.shiftl_mul_pow2 by lia.
  replace (Z.pos m * 2 ^ 53) with (2 * Z.pos m * 4503599627370496) by lia.
  rewrite div_eucl_exact by lia.
  change (new_location 4503599627370496 0) with loc_Exact.
  change (2 * Z.pos m) with (Z.pos (shl m 1)).
  rewrite round_aux_shift by lia. f_equal. lia.
Qed.

(** X21.  The memory figures of the report are exact.  [memMiB] is 0 for
    a nil map and for an absent key, and for a value of [kb] kilobytes
    below 2^53 it is the float64 whose value is kb / 1024, without any
    rounding. *)
Theorem memMiB_exact (m : gmap string Z) (key : string) :
  memMiB None key = zero
  ∧ (m !! key = None → memMiB (Some m) key = zero)
  ∧ (∀ kb, m !! key = Some kb → 0 < kb < 2 ^ 53 →
       exactly (memMiB (Some m) key) kb 10)
  ∧ (∀ kb, m !! key = Some kb → 0 <= kb →
       signClear (memMiB (Some m) key) = true).
Proof.
  split; [done|]. split; [|split].
  - intros Hk. unfold memMiB, mapGet. by rewrite Hk.
  - intros kb Hk Hkb. unfold memMiB, mapGet. rewrite Hk.
    change (default 0 (Some kb)) with kb. cbv zeta.
    destruct kb as [|a|a]; try lia.
    assert (Ha : Zpos (Pos.size a) <= 53) by (apply size_le_53; lia).
    rewrite ofZ_exact by done. unfold normal. rewrite div_kib_exact.
    + eexists _, _. split; [reflexivity|]. split; [lia|].
      rewrite shl_Z by lia. rewrite <- Z.mul_assoc, <- Z.pow_add_r by lia.
      do 2 f_equal. lia.
    + rewrite size_shl by lia. lia.
    + lia.
  - intros kb Hk Hkb. unfold memMiB, mapGet. rewrite Hk.
    change (default 0 (Some kb)) with kb. cbv zeta.
    apply signClear_div; [by apply signClear_ofZ|done].
Qed.

End ReportFacts.

(* ===================================================================== *)
(** ** The selected pages are distinct *)
(* ===================================================================== *)

Section Distinct.

Import GoInt Main.

(** The multiplier of the page selection is odd, so it has no divisor in
    common with a power of two. *)
Lemma gcd_pow2_multiplier k : 0 <= k → Z.gcd (2 ^ k) 2654435761 = 1.
Proof.
  intros Hk. pattern k. apply natlike_ind; [done| |done].
  clear k Hk. intros k Hk IH. rewrite Z.pow_succ_r by done.
  set (g := Z.gcd (2 * 2 ^ k) 2654435761).
  assert (Hg0 : 0 <= g) by apply Z.gcd_nonneg.
  assert (Hg1 : (g | 2 * 2 ^ k)) by apply Z.gcd_divide_l.
  assert (Hg2 : (g | 2654435761)) by apply Z.gcd_divide_r.
  assert (Hg3 : Z.gcd g 2 = 1).
  { assert (Hd : (Z.gcd g 2 | Z.gcd 2654435761 2)).
    { apply Z.gcd_greatest.
      - etransitivity; [apply Z.gcd_divide_l|done].
      - apply Z.gcd_divide_r. }
    change (Z.gcd 2654435761 2) with 1 in Hd.
    apply Z.divide_1_r_nonneg in Hd; [done|apply Z.gcd_nonneg]. }
  assert (Hg4 : (g | 2 ^ k)) by (by apply (Z.gauss g 2)).
  assert (Hg5 : (g | 1)).
  { rewrite <- IH. by apply Z.gcd_greatest. }
  by apply Z.divide_1_r_nonneg in Hg5.
Qed.

Lemma dirtyIndex_plain id j total :
  0 < total → 0 <= id → 0 <= j →
  id * 1315423911 + j * 2654435761 < 2 ^ 64 → total < 2 ^ 64 →
  dirtyIndex id j total = (id * 1315423911 + j * 2654435761) mod total.
Proof.
  intros Ht Hid Hj Hsum Hbig. unfold dirtyIndex. rewrite wrapU64_index.
  unfold wrapU64, two64. rewrite (Z.mod_small total) by lia.
  by rewrite (Z.mod_small (_ + _)) by lia.
Qed.

Lemma dirtyIndex_injective id total j1 j2 :
  0 < total → Z.gcd total 2654435761 = 1 → 0 <= id →
  id * 1315423911 + total * 2654435761 < 2 ^ 64 →
  0 <= j1 < total → 0 <= j2 < total →
  dirtyIndex id j1 total = dirtyIndex id j2 total → j1 = j2.
Proof.
  intros Ht Hgcd Hid Hsum Hj1 Hj2.
  rewrite !dirtyIndex_plain by nia. intros Heq.
  assert (Hdiv : (total | (j1 - j2) * 2654435761)).
  { apply Z.mod_divide; [lia|].
    replace ((j1 - j2) * 2654435761)
      with ((id * 1315423911 + j1 * 2654435761)
            - (id * 1315423911 + j2 * 2654435761)) by lia.
    rewrite Zminus_mod, Heq, Z.sub_diag. by apply Z.mod_0_l; lia. }
  rewrite Z.mul_comm in Hdiv. apply Z.gauss in Hdiv; [|done].
  destruct Hdiv as [q Hq].
  assert (q = 0) by nia. lia.
Qed.

(** X22.  The page selection has no collisions.  When the page count
    has no divisor in common with the multiplier 2654435761 (every power
    of two qualifies) and the sum does not wrap, the indices
    (id * 1315423911 + j * 2654435761) mod T for j < T are pairwise
    distinct: a workload that is asked for D <= T dirty pages makes
    exactly D different pages individual, not fewer. *)
Theorem dirtyIndices_distinct (id total dirty : Z) :
  0 < total → Z.gcd total 2654435761 = 1 → 0 <= id →
  id * 1315423911 + total * 2654435761 < 2 ^ 64 →
  dirty <= total →
  NoDup (dirtyIndices id total dirty)
  ∧ length (dirtyIndices id total dirty) = Z.to_nat dirty
  ∧ (∀ pageSize f img,
       cmdHog pageSize f = HogServing img →
       Main.id f = id → totalPages img = total → dirtyPages img <= total →
       NoDup (indices img) ∧ length (indices img) = Z.to_nat (dirtyPages img))
  ∧ (∀ k, 0 <= k → Z.gcd (2 ^ k) 2654435761 = 1).
Proof.
  intros Ht Hgcd Hid Hsum Hdirty.
  assert (Hnodup : ∀ d, d <= total → NoDup (dirtyIndices id total d)).
  { intros d Hd. unfold dirtyIndices. change (map ?f ?l) with (f <$> l).
    apply NoDup_fmap_2_strong; [|apply NoDup_seqZ].
    intros j1 j2 Hj1%elem_of_seqZ Hj2%elem_of_seqZ.
    apply dirtyIndex_injective; (done || lia). }
  assert (Hlen : ∀ d, length (dirtyIndices id total d) = Z.to_nat d).
  { intros d. unfold dirtyIndices. by rewrite length_map, length_seqZ. }
  split; [by apply Hnodup|]. split; [apply Hlen|].
  split; [|apply gcd_pow2_multiplier].
  intros pageSize f img Hserve Hf Htot Hd.
  destruct (cmdHog_serving _ _ _ Hserve) as (_ & _ & Hnn & _ & ->).
  rewrite Hf, Htot. destruct (0 <? dirtyPages img) eqn:Hpos.
  - split; [by apply Hnodup|apply Hlen].
  - split; [constructor|]. cbn [length]. lia.
Qed.

End Distinct.

(** The default workload of profile P2: 65536 pages, of which 3276
    different ones are made individual. *)
Lemma dirtyIndices_distinct_witness :
  NoDup (Main.dirtyIndices 3 65536 3276)
  ∧ length (Main.dirtyIndices 3 65536 3276) = 3276%nat.
Proof.
  destruct (dirtyIndices_distinct 3 65536 3276) as (H1 & H2 & _).
  - lia.
  - reflexivity.
  - lia.
  - lia.
  - lia.
  - split; [exact H1|exact H2].
Defined.

(* ===================================================================== *)
(** ** What the error of a run means *)
(* ===================================================================== *)

Section RunErrors.

Import GoInt OS Bench Facts Outcome.

Variable env : Env.

(** A step either is cut short by the context during its warmup, or
    records its result. *)
Lemma stepOutcome_cases cfg n res w :
  0 <= Warmup cfg →
  ((stepOutcome env cfg n res w).1 = (res, Some ctxErr)
   ∧ ∃ t, envCancelAt env = Some t ∧ t <= clock (stepOutcome env cfg n res w).2)
  ∨ ∃ step, (stepOutcome env cfg n res w).1 = (appendStep res step, None)
            ∧ N step = n.
Proof.
  intros HW. unfold stepOutcome.
  destruct (decide _) as [Hm|Hm]; [|right; by eexists].
  destruct (cancelsWarmup env cfg w) eqn:Hc; [|right; by eexists].
  left. split; [done|]. cbn [snd].
  unfold cancelsWarmup in Hc. destruct (envCancelAt env) as [t|] eqn:Ht; [|done].
  exists t. split; [done|].
  match goal with |- context [stopWorld ?hs ?w2] =>
    destruct (stopWorld_clock hs w2) as [-> | ->] end;
    cbn [clock setClock]; unfold warmupEnd; rewrite Ht, Hc;
    unfold Second, Millisecond; lia.
Qed.

Lemma loopOutcome_errors cfg ns res w :
  0 <= Warmup cfg →
  ((loopOutcome env cfg ns res w).1.2 = None →
     N <$> Steps (loopOutcome env cfg ns res w).1.1
     = (N <$> Steps res) ++ List.filter isPositive ns)
  ∧ (∀ e, (loopOutcome env cfg ns res w).1.2 = Some e →
       e = ctxErr
       ∧ (∃ t, envCancelAt env = Some t
               ∧ t <= clock (loopOutcome env cfg ns res w).2)
       ∧ ∃ done rest,
           rest ≠ [] ∧ List.filter isPositive ns = done ++ rest
           ∧ N <$> Steps (loopOutcome env cfg ns res w).1.1
             = (N <$> Steps res) ++ done).
Proof.
  intros HW. revert res w.
  induction ns as [|n ns IH]; intros res w; cbn [loopOutcome List.filter].
  - cbn. split; [by rewrite app_nil_r|done].
  - destruct (n <=? 0) eqn:Hn.
    + assert (Hp : isPositive n = false) by (unfold isPositive; lia).
      rewrite !Hp. apply IH.
    + assert (Hp : isPositive n = true) by (unfold isPositive; lia).
      rewrite !Hp.
      destruct (stepOutcome_cases cfg n res w HW)
        as [[Hcut (t & Ht & Hclock)] | (step & Hrec & HN)].
      * destruct (stepOutcome env cfg n res w) as [[res' err] w'].
        cbn [fst snd] in *. injection Hcut as -> ->. cbn [fst snd].
        split; [done|]. intros e [= <-]. split; [done|].
        split; [by exists t|]. exists [], (n :: List.filter isPositive ns).
        split; [done|]. split; [done|]. by rewrite app_nil_r.
      * destruct (stepOutcome env cfg n res w) as [[res' err] w'].
        cbn [fst snd] in *. injection Hrec as -> ->.
        destruct (IH (appendStep res step) w') as [IH1 IH2].
        cbn [appendStep Steps] in IH1, IH2. rewrite fmap_app in IH1, IH2.
        cbn [fmap list_fmap] in IH1, IH2. rewrite HN in IH1, IH2. split.
        -- intros Hnone. rewrite IH1 by done. by rewrite <- app_assoc.
        -- intros e He. destruct (IH2 e He) as (-> & Hlate & done & rest & H1 & H2 & H3).
           split; [done|]. split; [done|]. exists (n :: done), rest.
           split; [done|]. split; [by rewrite H2|].
           rewrite H3. by rewrite <- app_assoc.
Qed.

(** X23.  What the error of [Run] means.  Past its checks [Run]
    returns one of three things.  A nil error: then the result holds one
    step for every positive count, in order, whatever has failed on the
    way, because a failed launch is recorded and never returned.  The
    error of the context: then the context was done by the time [Run]
    returned, and the result holds the steps of a proper prefix of the
    positive counts.  The error of the write of the report: then the
    result is complete all the same. *)
Theorem Run_error_kinds (cfg0 : Config) (w : World) (res : RunResult)
    (err : option error) (w' : World) :
  Run env cfg0 w = Some ((Some res, err), w') →
  let counts := List.filter isPositive (Instances cfg0) in
  (err = None ∨ err = Some ctxErr ∨ err = Some (osErr "write"))
  ∧ (err ≠ Some ctxErr → N <$> Steps res = counts)
  ∧ (err = Some ctxErr →
     (∃ t, envCancelAt env = Some t ∧ t <= clock w')
     ∧ ∃ rest, rest ≠ [] ∧ counts = (N <$> Steps res) ++ rest).
Proof.
  intros Hrun counts.
  destruct (invalid_dec env cfg0) as [Hbad | (Hexe & Hns & Hmk)].
  { destruct (Run_invalid env cfg0 w Hbad) as [e He]. congruence. }
  rewrite Run_eq in Hrun by done. cbv zeta in Hrun.
  assert (HW : 0 <= Warmup (withDefaults cfg0)).
  { cbn [withDefaults Warmup]. unfold Second, Millisecond.
    destruct (Warmup cfg0 <=? 0) eqn:?; lia. }
  destruct (loopOutcome_errors (withDefaults cfg0) (Instances cfg0)
              (startResult (withDefaults cfg0) w) w HW) as [Hnone Hsome].
  destruct (loopOutcome env (withDefaults cfg0) (Instances cfg0)
              (startResult (withDefaults cfg0) w) w) as [[res1 err1] w1].
  cbn [fst snd] in *. injection Hrun as <- <- <-.
  destruct err1 as [e|].
  - destruct (Hsome e eq_refl) as (-> & Hlate & done & rest & Hrest & Hsplit & Hsteps).
    cbn [finalError]. split; [by right; left|]. split; [done|]. intros _.
    split; [done|]. exists rest. split; [done|].
    fold counts in Hsplit. by rewrite Hsplit, Hsteps.
  - specialize (Hnone eq_refl). cbn [startResult Steps fmap list_fmap app] in Hnone.
    unfold finalError. destruct (envWriteJSON env (clock w1)).
    + split; [by left|]. by split.
    + split; [by right; right|]. by split.
Qed.

End RunErrors.

(** The context is done 30 seconds into the run over [1; 2]: the second
    step is missing from the result. *)
Lemma Run_error_kinds_witness :
  ∃ res w' rest,
    Bench.Run Scenario.cancelEnv Scenario.twoSteps Scenario.idleWorld
    = Some ((Some res, Some Bench.ctxErr), w')
    ∧ rest ≠ []
    ∧ [1; 2] = (Bench.N <$> Bench.Steps res) ++ rest.
Proof.
  destruct (Bench.Run Scenario.cancelEnv Scenario.twoSteps Scenario.idleWorld)
    as [[[[res|] err] w']|] eqn:Hrun; try (vm_compute in Hrun; discriminate).
  assert (err = Some Bench.ctxErr) as ->.
  { vm_compute in Hrun. congruence. }
  destruct (Run_error_kinds Scenario.cancelEnv Scenario.twoSteps
              Scenario.idleWorld res (Some Bench.ctxErr) w' Hrun)
    as (_ & _ & Hctx).
  destruct (Hctx eq_refl) as (_ & rest & Hrest & Hsplit).
  exists res, w', rest. split; [reflexivity|]. split; [exact Hrest|exact Hsplit].
Defined.
